(** * Roadmap_builder: the AI-response repairer and the roadmap normalizer

    A shallow embedding of [repairJson], [normalizeRoadmap] and the
    [POST /api/generate-roadmap] handler of the Express server, together
    with a model of the platform functions they call ([JSON.parse],
    [JSON.stringify], [String.prototype.match] on the one regular expression
    the server uses, property reads, truthiness).

    The repository holds two implementations of the route: the one of
    [server.js], which calls [repairJson] and [normalizeRoadmap], and the
    one of [server-patch.js], which normalizes the parsed answer in place
    and is modelled in [ServerPatch] and [Patch].

    Conventions of the model:
    - a JavaScript string is the list of its UTF-16 code units ([jstring]);
    - a JavaScript value is a [value]; an object is kept as the list of its
      members in source order, and a property read takes the last member of
      that name, which is the one [JSON.parse] keeps when a key is repeated;
    - a JSON number is kept as the exact decimal [m * 10^e] its literal
      denotes; the rounding of IEEE doubles is not modelled;
    - an exception is a [Throw] in the [result] monad. *)

From Stdlib Require Import List NArith ZArith Bool Lia String Ascii.
From Stdlib Require Import Decimal DecimalFacts DecimalN DecimalNat.
Import ListNotations.

(* ================================================================== *)
(** * JavaScript strings *)
(* ================================================================== *)

Definition jstring := list N.

(** A string literal of the source, as code units. *)
Definition js (s : string) : jstring :=
  List.map N_of_ascii (list_ascii_of_string s).

Fixpoint jstring_eqb (a b : jstring) : bool :=
  match a, b with
  | [], [] => true
  | x :: a', y :: b' => N.eqb x y && jstring_eqb a' b'
  | _, _ => false
  end.

(** [starts_with p s]: [p] is a prefix of [s]; returns what follows it. *)
Fixpoint starts_with (p s : jstring) : option jstring :=
  match p with
  | [] => Some s
  | x :: p' =>
      match s with
      | y :: s' => if N.eqb x y then starts_with p' s' else None
      | [] => None
      end
  end.

(** Decimal digits, as the platform prints a non-negative integer
    ([Number::toString] on an array index or an integer). *)
Definition char_of_digit (d : digits) : N :=
  match d with
  | d0 => 48 | d1 => 49 | d2 => 50 | d3 => 51 | d4 => 52
  | d5 => 53 | d6 => 54 | d7 => 55 | d8 => 56 | d9 => 57
  end%N.

Definition digit_of_char (c : N) : option digits :=
  if N.eqb c 48 then Some d0 else if N.eqb c 49 then Some d1
  else if N.eqb c 50 then Some d2 else if N.eqb c 51 then Some d3
  else if N.eqb c 52 then Some d4 else if N.eqb c 53 then Some d5
  else if N.eqb c 54 then Some d6 else if N.eqb c 55 then Some d7
  else if N.eqb c 56 then Some d8 else if N.eqb c 57 then Some d9
  else None.

Definition decimal_of_N (n : N) : jstring :=
  List.map char_of_digit (to_list (N.to_uint n)).

Definition decimal_of_nat (n : nat) : jstring := decimal_of_N (N.of_nat n).

(* ================================================================== *)
(** * JavaScript values and exceptions *)
(* ================================================================== *)

Unset Elimination Schemes.
Inductive value : Type :=
| VUndefined
| VNull
| VBool (b : bool)
| VNumber (m e : Z)                         (* m * 10^e *)
| VString (s : jstring)
| VArray (items : list value)
| VObject (members : list (jstring * value)).
Set Elimination Schemes.

Section value_induction.
Variable P : value -> Prop.
Hypothesis Hundef : P VUndefined.
Hypothesis Hnull : P VNull.
Hypothesis Hbool : forall b, P (VBool b).
Hypothesis Hnumber : forall m e, P (VNumber m e).
Hypothesis Hstring : forall s, P (VString s).
Hypothesis Harray : forall items, Forall P items -> P (VArray items).
Hypothesis Hobject :
  forall members, Forall (fun kv => P (snd kv)) members -> P (VObject members).

Fixpoint value_ind (v : value) : P v :=
  match v with
  | VUndefined => Hundef
  | VNull => Hnull
  | VBool b => Hbool b
  | VNumber m e => Hnumber m e
  | VString s => Hstring s
  | VArray items =>
      Harray items
        ((fix all (l : list value) : Forall P l :=
            match l with
            | [] => Forall_nil P
            | x :: l' => Forall_cons x (value_ind x) (all l')
            end) items)
  | VObject members =>
      Hobject members
        ((fix all (l : list (jstring * value))
            : Forall (fun kv => P (snd kv)) l :=
            match l with
            | [] => Forall_nil _
            | kv :: l' => Forall_cons kv (value_ind (snd kv)) (all l')
            end) members)
  end.
End value_induction.

(** The exceptions the modelled code can raise: [new Error(message)] of the
    source, and the platform's own [SyntaxError] ([JSON.parse]) and
    [TypeError] (a property read on [null] or [undefined]). *)
Inductive js_error : Type :=
| JsError (message : jstring)
| SyntaxError
| TypeError.

Inductive result (A : Type) : Type :=
| Ok (a : A)
| Throw (e : js_error).
Arguments Ok {A} a.
Arguments Throw {A} e.

Definition bind {A B : Type} (r : result A) (k : A -> result B) : result B :=
  match r with
  | Ok a => k a
  | Throw e => Throw e
  end.

Notation "x <- r ;; k" := (bind r (fun x => k))
  (at level 61, r at next level, right associativity).

(** ** The operators of the source *)

(** [ToBoolean]. *)
Definition truthy (v : value) : bool :=
  match v with
  | VUndefined | VNull => false
  | VBool b => b
  | VNumber m _ => negb (Z.eqb m 0)
  | VString s => match s with [] => false | _ => true end
  | VArray _ | VObject _ => true
  end.

(** [a || b]. *)
Definition js_or (a b : value) : value := if truthy a then a else b.

(** [typeof v === 'string']. *)
Definition is_string (v : value) : bool :=
  match v with VString _ => true | _ => false end.

(** [Array.isArray(v)]. *)
Definition isArray (v : value) : bool :=
  match v with VArray _ => true | _ => false end.

(** The own property [k] of an object: the last member named [k]. *)
Fixpoint lookup (k : jstring) (members : list (jstring * value)) : option value :=
  match members with
  | [] => None
  | (k', v) :: rest =>
      match lookup k rest with
      | Some w => Some w
      | None => if jstring_eqb k k' then Some v else None
      end
  end.

(** [v.k] for the property names the server reads ([nodes], [steps],
    [title], [description], [duration], [resources], [id], [edges],
    [estimatedTotalDuration], [difficulty], [category]): none of them is
    defined on the prototypes of arrays, strings, numbers or booleans, so
    the read yields [undefined] there; on [null] and [undefined] it raises
    a [TypeError]. *)
Definition prop_get (v : value) (k : jstring) : result value :=
  match v with
  | VUndefined | VNull => Throw TypeError
  | VObject members =>
      Ok (match lookup k members with Some w => w | None => VUndefined end)
  | _ => Ok VUndefined
  end.

(* ================================================================== *)
(** * [JSON.parse] and [JSON.stringify] *)
(* ================================================================== *)

(** The grammar is that of ECMA-404, which [JSON.parse] accepts exactly:
    white space is space, tab, line feed and carriage return; a string may
    hold any code unit from U+0020 on except the quote and the backslash,
    and the escapes (quote, backslash, slash, b, f, n, r, t and uXXXX after
    a backslash); a number is [-? int frac? exp?] with no leading zero in
    [int]. Every function below runs, so that the repairer and the handler
    can be evaluated on the texts of the specification. *)

Module Json.

Local Open Scope N_scope.

Definition is_ws (c : N) : bool :=
  N.eqb c 32 || N.eqb c 9 || N.eqb c 10 || N.eqb c 13.

Fixpoint skip_ws (cs : jstring) : jstring :=
  match cs with
  | c :: rest => if is_ws c then skip_ws rest else cs
  | [] => []
  end.

(** ** Strings *)

Definition hex_digit (c : N) : option N :=
  if N.leb 48 c && N.leb c 57 then Some (c - 48)
  else if N.leb 97 c && N.leb c 102 then Some (c - 87)
  else if N.leb 65 c && N.leb c 70 then Some (c - 55)
  else None.

Definition hex4 (a b c d : N) : option N :=
  match hex_digit a, hex_digit b, hex_digit c, hex_digit d with
  | Some x, Some y, Some z, Some w => Some (((x * 16 + y) * 16 + z) * 16 + w)
  | _, _, _, _ => None
  end.

(** The character a one-letter escape denotes. *)
Definition simple_escape (c : N) : option N :=
  if N.eqb c 34 then Some 34            (* quote *)
  else if N.eqb c 92 then Some 92       (* backslash *)
  else if N.eqb c 47 then Some 47       (* slash *)
  else if N.eqb c 98 then Some 8        (* b *)
  else if N.eqb c 102 then Some 12      (* f *)
  else if N.eqb c 110 then Some 10      (* n *)
  else if N.eqb c 114 then Some 13      (* r *)
  else if N.eqb c 116 then Some 9       (* t *)
  else None.

Definition cons_fst (c : N) (r : option (jstring * jstring))
  : option (jstring * jstring) :=
  match r with
  | Some (s, rest) => Some (c :: s, rest)
  | None => None
  end.

(** The characters of a string literal, read after its opening quote, up
    to and including the closing quote. *)
Fixpoint parse_chars (cs : jstring) : option (jstring * jstring) :=
  match cs with
  | [] => None
  | c :: rest =>
      if N.eqb c 34 then Some ([], rest)
      else if N.eqb c 92 then
        match rest with
        | [] => None
        | e :: rest1 =>
            if N.eqb e 117 then
              match rest1 with
              | h1 :: h2 :: h3 :: h4 :: rest2 =>
                  match hex4 h1 h2 h3 h4 with
                  | Some u => cons_fst u (parse_chars rest2)
                  | None => None
                  end
              | _ => None
              end
            else
              match simple_escape e with
              | Some x => cons_fst x (parse_chars rest1)
              | None => None
              end
        end
      else if N.ltb c 32 then None
      else cons_fst c (parse_chars rest)
  end.

Definition hex_char (d : N) : N := if N.ltb d 10 then 48 + d else 87 + d.

Definition unicode_escape (c : N) : jstring :=
  [92; 117; hex_char (c / 4096); hex_char ((c / 256) mod 16);
   hex_char ((c / 16) mod 16); hex_char (c mod 16)].

Definition is_high_surrogate (c : N) : bool := N.leb 55296 c && N.leb c 56319.
Definition is_low_surrogate (c : N) : bool := N.leb 56320 c && N.leb c 57343.

(** The escape of one code unit that is not a surrogate. *)
Definition quote_char (c : N) : jstring :=
  if N.eqb c 8 then [92; 98]
  else if N.eqb c 9 then [92; 116]
  else if N.eqb c 10 then [92; 110]
  else if N.eqb c 12 then [92; 102]
  else if N.eqb c 13 then [92; 114]
  else if N.eqb c 34 then [92; 34]
  else if N.eqb c 92 then [92; 92]
  else if N.ltb c 32 then unicode_escape c
  else [c].

(** [QuoteJSONString] without its quotes: a surrogate pair is copied, a
    lone surrogate is written as a [\uXXXX] escape. *)
Fixpoint quote_chars (s : jstring) : jstring :=
  match s with
  | [] => []
  | c :: rest =>
      if is_high_surrogate c then
        match rest with
        | d :: rest1 =>
            if is_low_surrogate d then c :: d :: quote_chars rest1
            else unicode_escape c ++ quote_chars rest
        | [] => unicode_escape c
        end
      else if is_low_surrogate c then unicode_escape c ++ quote_chars rest
      else quote_char c ++ quote_chars rest
  end.

Definition quote (s : jstring) : jstring := 34 :: quote_chars s ++ [34].

(** ** Numbers *)

Fixpoint read_digits (cs : jstring) : list digits * jstring :=
  match cs with
  | [] => ([], [])
  | c :: rest =>
      match digit_of_char c with
      | Some d => let (ds, r) := read_digits rest in (d :: ds, r)
      | None => ([], cs)
      end
  end.

Definition N_of_digits (ds : list digits) : N := N.of_uint (of_list ds).

(** [int] of the grammar: one digit, or several not starting with [0]. *)
Definition int_ok (ds : list digits) : bool :=
  match ds with
  | [] => false
  | [_] => true
  | d0 :: _ => false
  | _ => true
  end.

Definition signed (neg : bool) (n : N) : Z :=
  if neg then Z.opp (Z.of_N n) else Z.of_N n.

(** The digits of an exponent, at least one. *)
Definition exp_digits (neg : bool) (cs : jstring) : option (Z * jstring) :=
  match read_digits cs with
  | ([], _) => None
  | (ds, rest) => Some (signed neg (N_of_digits ds), rest)
  end.

(** The optional exponent part; yields the exponent. *)
Definition parse_exp (cs : jstring) : option (Z * jstring) :=
  match cs with
  | c :: rest =>
      if N.eqb c 101 || N.eqb c 69 then
        match rest with
        | s :: rest' =>
            if N.eqb s 43 then exp_digits false rest'
            else if N.eqb s 45 then exp_digits true rest'
            else exp_digits false rest
        | [] => None
        end
      else Some (0%Z, cs)
  | [] => Some (0%Z, cs)
  end.

(** The optional fraction part; yields its digits. *)
Definition parse_frac (cs : jstring) : option (list digits * jstring) :=
  match cs with
  | c :: rest =>
      if N.eqb c 46 then
        match read_digits rest with
        | ([], _) => None
        | (ds, rest1) => Some (ds, rest1)
        end
      else Some ([], cs)
  | [] => Some ([], cs)
  end.

(** A number after its optional minus sign. *)
Definition parse_unsigned (neg : bool) (cs1 : jstring)
  : option (value * jstring) :=
  let '(int, cs2) := read_digits cs1 in
  if int_ok int then
    match parse_frac cs2 with
    | Some (frac, cs3) =>
        match parse_exp cs3 with
        | Some (e, cs4) =>
            Some (VNumber (signed neg (N_of_digits (int ++ frac)))
                          (e - Z.of_nat (List.length frac)), cs4)
        | None => None
        end
    | None => None
    end
  else None.

Definition parse_number (cs : jstring) : option (value * jstring) :=
  match cs with
  | c :: rest =>
      if N.eqb c 45 then parse_unsigned true rest else parse_unsigned false cs
  | [] => None
  end.

Definition stringify_Z (z : Z) : jstring :=
  if Z.ltb z 0 then 45 :: decimal_of_N (Z.abs_N z) else decimal_of_N (Z.abs_N z).

Definition stringify_number (m e : Z) : jstring :=
  if Z.eqb e 0 then stringify_Z m else stringify_Z m ++ 101 :: stringify_Z e.

(** ** Values *)

Inductive presult (A : Type) : Type :=
| Parsed (a : A) (rest : jstring)
| Malformed
| OutOfFuel.
Arguments Parsed {A} a rest.
Arguments Malformed {A}.
Arguments OutOfFuel {A}.

Definition literal (word : jstring) (v : value) (cs : jstring) : presult value :=
  match starts_with word cs with
  | Some rest => Parsed v rest
  | None => Malformed
  end.

(** Recursive descent. The three productions are written over the
    parsers of the productions they call, and tied together below by
    recursion on [fuel], which bounds the number of nested calls; [parse]
    supplies enough of it for every text. *)
Section productions.
Variable value_p : jstring -> presult value.
Variable elements_p : jstring -> presult (list value).
Variable members_p : jstring -> presult (list (jstring * value)).

(** value := ws (object | array | string | number | true | false | null) *)
Definition value_body (cs : jstring) : presult value :=
  match skip_ws cs with
  | [] => Malformed
  | c :: rest =>
      if N.eqb c 123 then                                   (* { *)
        match skip_ws rest with
        | d :: rest1 =>
            if N.eqb d 125 then Parsed (VObject []) rest1   (* } *)
            else
              match members_p (d :: rest1) with
              | Parsed ms r => Parsed (VObject ms) r
              | Malformed => Malformed
              | OutOfFuel => OutOfFuel
              end
        | [] => Malformed
        end
      else if N.eqb c 91 then                               (* [ *)
        match skip_ws rest with
        | d :: rest1 =>
            if N.eqb d 93 then Parsed (VArray []) rest1     (* ] *)
            else
              match elements_p (d :: rest1) with
              | Parsed vs r => Parsed (VArray vs) r
              | Malformed => Malformed
              | OutOfFuel => OutOfFuel
              end
        | [] => Malformed
        end
      else if N.eqb c 34 then
        match parse_chars rest with
        | Some (s, r) => Parsed (VString s) r
        | None => Malformed
        end
      else if N.eqb c 116 then literal (js "true") (VBool true) (c :: rest)
      else if N.eqb c 102 then literal (js "false") (VBool false) (c :: rest)
      else if N.eqb c 110 then literal (js "null") VNull (c :: rest)
      else
        match parse_number (c :: rest) with
        | Some (v, r) => Parsed v r
        | None => Malformed
        end
  end.

(** elements := value ws (, elements | ]) -- after the opening bracket *)
Definition elements_body (cs : jstring) : presult (list value) :=
  match value_p cs with
  | Parsed v rest =>
      match skip_ws rest with
      | d :: rest1 =>
          if N.eqb d 44 then                                (* , *)
            match elements_p rest1 with
            | Parsed vs r => Parsed (v :: vs) r
            | Malformed => Malformed
            | OutOfFuel => OutOfFuel
            end
          else if N.eqb d 93 then Parsed [v] rest1
          else Malformed
      | [] => Malformed
      end
  | Malformed => Malformed
  | OutOfFuel => OutOfFuel
  end.

(** members := ws string ws : value ws (, members | }) -- after the
    opening brace *)
Definition members_body (cs : jstring) : presult (list (jstring * value)) :=
  match skip_ws cs with
  | q :: rest =>
      if N.eqb q 34 then
        match parse_chars rest with
        | Some (k, rest1) =>
            match skip_ws rest1 with
            | c :: rest2 =>
                if N.eqb c 58 then                          (* : *)
                  match value_p rest2 with
                  | Parsed v rest3 =>
                      match skip_ws rest3 with
                      | d :: rest4 =>
                          if N.eqb d 44 then
                            match members_p rest4 with
                            | Parsed ms r => Parsed ((k, v) :: ms) r
                            | Malformed => Malformed
                            | OutOfFuel => OutOfFuel
                            end
                          else if N.eqb d 125 then Parsed [(k, v)] rest4
                          else Malformed
                      | [] => Malformed
                      end
                  | Malformed => Malformed
                  | OutOfFuel => OutOfFuel
                  end
                else Malformed
            | [] => Malformed
            end
        | None => Malformed
        end
      else Malformed
  | [] => Malformed
  end.
End productions.

Fixpoint parse_value (fuel : nat) (cs : jstring) : presult value :=
  match fuel with
  | O => OutOfFuel
  | S fuel' => value_body (parse_elements fuel') (parse_members fuel') cs
  end

with parse_elements (fuel : nat) (cs : jstring) : presult (list value) :=
  match fuel with
  | O => OutOfFuel
  | S fuel' => elements_body (parse_value fuel') (parse_elements fuel') cs
  end

with parse_members (fuel : nat) (cs : jstring)
  : presult (list (jstring * value)) :=
  match fuel with
  | O => OutOfFuel
  | S fuel' => members_body (parse_value fuel') (parse_members fuel') cs
  end.

Definition fuel_for (text : jstring) : nat := 2 * List.length text + 2.

(** [JSON.parse(text)]: one value, white space around it, nothing else.
    The fuel supplied is never exhausted ([JsonFacts.parse_value_fuel_for]),
    so that a [SyntaxError] always stands for a text that is not JSON. *)
Definition parse (text : jstring) : result value :=
  match parse_value (fuel_for text) text with
  | Parsed v rest =>
      match skip_ws rest with
      | [] => Ok v
      | _ :: _ => Throw SyntaxError
      end
  | Malformed | OutOfFuel => Throw SyntaxError
  end.

(** The texts of the items of an array or of the members of an object,
    separated by commas. *)
Definition join_commas (texts : list jstring) : jstring :=
  match texts with
  | [] => []
  | t :: rest => t ++ List.flat_map (fun u => 44 :: u) rest
  end.

(** [JSON.stringify(v)] with no indentation: [None] stands for the
    [undefined] it returns on [undefined]; inside an array [undefined] is
    written [null], inside an object its member is left out. *)
Fixpoint stringify (v : value) : option jstring :=
  match v with
  | VUndefined => None
  | VNull => Some (js "null")
  | VBool true => Some (js "true")
  | VBool false => Some (js "false")
  | VNumber m e => Some (stringify_number m e)
  | VString s => Some (quote s)
  | VArray items =>
      let item (x : value) : jstring :=
        match stringify x with Some t => t | None => js "null" end in
      Some (91 :: join_commas (List.map item items) ++ [93])
  | VObject members =>
      let member (kv : jstring * value) : list jstring :=
        match stringify (snd kv) with
        | Some t => [quote (fst kv) ++ 58 :: t]
        | None => []
        end in
      Some (123 :: join_commas (List.flat_map member members) ++ [125])
  end.

(** The text of one item of an array, and of one member of an object, as
    [stringify] writes them. *)
Definition item_text (x : value) : jstring :=
  match stringify x with Some t => t | None => js "null" end.

Definition member_texts (kv : jstring * value) : list jstring :=
  match stringify (snd kv) with
  | Some t => [quote (fst kv) ++ 58 :: t]
  | None => []
  end.

End Json.

Definition JSON_parse : jstring -> result value := Json.parse.
Definition JSON_stringify : value -> option jstring := Json.stringify.

(** A JSON value: no [undefined] anywhere inside. *)
Fixpoint is_json (v : value) : bool :=
  match v with
  | VUndefined => false
  | VArray items => List.forallb is_json items
  | VObject members => List.forallb (fun kv => is_json (snd kv)) members
  | _ => true
  end.

Definition is_object (v : value) : bool :=
  match v with VObject _ => true | _ => false end.

(* ================================================================== *)
(** * The response repairer: [repairJson] *)
(* ================================================================== *)

(** [text.match(/\{[\s\S]*\}/)], as a backtracking matcher runs it: the
    match starts at the leftmost opening brace from which the rest of the
    pattern can match; the star first takes everything up to the end of
    the text and gives characters back until a closing brace follows. *)

(** The longest prefix of [cs] that ends with a closing brace. *)
Fixpoint upto_last_close (cs : jstring) : option jstring :=
  match cs with
  | [] => None
  | c :: rest =>
      match upto_last_close rest with
      | Some m => Some (c :: m)
      | None => if N.eqb c 125 then Some [c] else None
      end
  end.

Fixpoint match_braces (text : jstring) : option jstring :=
  match text with
  | [] => None
  | c :: rest =>
      if N.eqb c 123 then
        match upto_last_close rest with
        | Some m => Some (c :: m)
        | None => match_braces rest
        end
      else match_braces rest
  end.

Definition repairJson (text : jstring) : result value :=
  match JSON_parse text with
  | Ok v => Ok v
  | Throw _ =>
      match match_braces text with
      | None => Throw (JsError (js "No JSON found"))
      | Some m => JSON_parse m
      end
  end.

(* ================================================================== *)
(** * The roadmap normalizer: [normalizeRoadmap] *)
(* ================================================================== *)

Record Link : Type := mkLink {
  source : value;
  target : value;
  label : value
}.

Record Roadmap : Type := mkRoadmap {
  title : value;
  description : value;
  nodes : list value;
  edges : list Link;
  estimatedTotalDuration : value;
  difficulty : value;
  category : value
}.

(** The callback of [raw.steps.map]: the step built from entry [s] at
    index [i]. *)
Definition step_of (s : value) (i : nat) : result value :=
  step_title <-
    (if is_string s then Ok s
     else
       t <- prop_get s (js "title") ;;
       Ok (js_or t (VString (js "Step " ++ decimal_of_nat (i + 1))))) ;;
  step_description <- prop_get s (js "description") ;;
  step_duration <- prop_get s (js "duration") ;;
  step_resources <- prop_get s (js "resources") ;;
  Ok (VObject
        [(js "id", VString (js "step_" ++ decimal_of_nat (i + 1)));
         (js "title", step_title);
         (js "description", js_or step_description (VString []));
         (js "duration", js_or step_duration (VString []));
         (js "type", VString (js "task"));
         (js "resources", js_or step_resources (VArray []))]).

(** [steps.map((s, i) => ...)], from index [i] on. *)
Fixpoint map_steps (steps : list value) (i : nat) : result (list value) :=
  match steps with
  | [] => Ok []
  | s :: rest =>
      n <- step_of s i ;;
      ns <- map_steps rest (i + 1) ;;
      Ok (n :: ns)
  end.

(** The loop [for (let i = 0; i < nodes.length - 1; i++) edges.push(...)]:
    [count] iterations remain, [i] is the loop variable, [acc] the array
    built so far. An index past the end of an array reads [undefined]. *)
Fixpoint edges_loop (ns : list value) (count i : nat) (acc : list Link)
  : result (list Link) :=
  match count with
  | O => Ok acc
  | S count' =>
      s <- prop_get (nth i ns VUndefined) (js "id") ;;
      t <- prop_get (nth (i + 1) ns VUndefined) (js "id") ;;
      edges_loop ns count' (i + 1) (acc ++ [mkLink s t (VString (js "Then"))])
  end.

(** The node list: [const nodes = Array.isArray(raw.nodes) ? raw.nodes :
    Array.isArray(raw.steps) ? raw.steps.map(...) : []]. *)
Definition resolve_nodes (raw : value) : result (list value) :=
  raw_nodes <- prop_get raw (js "nodes") ;;
  match raw_nodes with
  | VArray items => Ok items
  | _ =>
      raw_steps <- prop_get raw (js "steps") ;;
      match raw_steps with
      | VArray steps => map_steps steps 0
      | _ => Ok []
      end
  end.

Definition normalizeRoadmap (raw : value) : result Roadmap :=
  ns <- resolve_nodes raw ;;
  es <- edges_loop ns (List.length ns - 1) 0 [] ;;
  raw_title <- prop_get raw (js "title") ;;
  raw_description <- prop_get raw (js "description") ;;
  raw_duration <- prop_get raw (js "estimatedTotalDuration") ;;
  raw_difficulty <- prop_get raw (js "difficulty") ;;
  raw_category <- prop_get raw (js "category") ;;
  Ok {| title := js_or raw_title (VString (js "AI Generated Roadmap"));
        description := js_or raw_description (VString []);
        nodes := ns;
        edges := es;
        estimatedTotalDuration := js_or raw_duration (VString []);
        difficulty := js_or raw_difficulty (VString (js "beginner"));
        category := js_or raw_category (VString (js "general")) |}.

(** A roadmap seen again as a parsed object (the object literal
    [normalizeRoadmap] returns). *)
Definition Link_as_value (l : Link) : value :=
  VObject [(js "source", source l); (js "target", target l);
           (js "label", label l)].

Definition Roadmap_as_value (r : Roadmap) : value :=
  VObject
    [(js "title", title r);
     (js "description", description r);
     (js "nodes", VArray (nodes r));
     (js "edges", VArray (List.map Link_as_value (edges r)));
     (js "estimatedTotalDuration", estimatedTotalDuration r);
     (js "difficulty", difficulty r);
     (js "category", category r)].

(* ================================================================== *)
(** * The handler of [POST /api/generate-roadmap] *)
(* ================================================================== *)

(** What the handler writes to the console. *)
Inductive log_line : Type :=
| LogRawOutput (excerpt : jstring)        (* console.log, aiText.slice(0, 300) *)
| LogFailure (e : js_error).              (* console.error, err.message *)

(** The JSON body of the response: [{ roadmap }] or [{ error: err.message }]
    (the body keeps the exception whose message it carries). *)
Inductive response_body : Type :=
| RoadmapBody (roadmap : Roadmap)
| ErrorBody (error : js_error).

Record response : Type := mkResponse {
  status : nat;
  body : response_body
}.

(** The part of the handler inside [try]: [ai] is the outcome of
    [await generateWithGemini(prompt)]. *)
Definition generate_roadmap_try (ai : result jstring)
  : list log_line * result Roadmap :=
  match ai with
  | Throw e => ([], Throw e)
  | Ok aiText =>
      ([LogRawOutput (firstn 300 aiText)],
       parsed <- repairJson aiText ;;
       roadmap <- normalizeRoadmap parsed ;;
       if Nat.eqb (List.length (nodes roadmap)) 0
       then Throw (JsError (js "AI returned no usable steps"))
       else Ok roadmap)
  end.

Definition generate_roadmap_handler (goal : value) (ai : result jstring)
  : list log_line * response :=
  if negb (truthy goal) then
    ([], mkResponse 400 (ErrorBody (JsError (js "Goal is required"))))
  else
    match generate_roadmap_try ai with
    | (logs, Ok roadmap) => (logs, mkResponse 200 (RoadmapBody roadmap))
    | (logs, Throw err) =>
        (logs ++ [LogFailure err], mkResponse 500 (ErrorBody err))
    end.

(* ================================================================== *)
(** * The other implementation: the handler of [server-patch.js] *)
(* ================================================================== *)

(** [server-patch.js] holds another handler of the same route, which
    normalizes the parsed response in place instead of calling
    [normalizeRoadmap]. It is modelled from [const roadmap =
    JSON.parse(jsonText)] on, as a function of the parsed value. An
    assignment [o.k = v] and a spread [...node] add members at the end of
    the member list, where a property read finds them first. *)

Module ServerPatch.

(** [o.k = v] *)
Definition set_prop (o : value) (k : jstring) (v : value) : value :=
  match o with
  | VObject members => VObject (members ++ [(k, v)])
  | _ => o
  end.

(** [v.length] *)
Definition get_length (v : value) : value :=
  match v with
  | VArray items => VNumber (Z.of_nat (List.length items)) 0
  | VString s => VNumber (Z.of_nat (List.length s)) 0
  | VObject members =>
      match lookup (js "length") members with Some w => w | None => VUndefined end
  | _ => VUndefined
  end.

(** [v === 0] *)
Definition is_zero (v : value) : bool :=
  match v with
  | VNumber m _ => Z.eqb m 0
  | _ => false
  end.

(** The members [i: x] of the items of an array or the characters of a
    string, from index [i] on. *)
Fixpoint indexed {A : Type} (wrap : A -> value) (l : list A) (i : nat)
  : list (jstring * value) :=
  match l with
  | [] => []
  | x :: rest => (decimal_of_nat i, wrap x) :: indexed wrap rest (i + 1)
  end.

(** The own enumerable members a spread [...node] copies. *)
Definition spread (node : value) : list (jstring * value) :=
  match node with
  | VObject members => members
  | VArray items => indexed (fun x => x) items 0
  | VString s => indexed (fun c => VString [c]) s 0
  | _ => []
  end.

(** The callback of [roadmap.nodes.map]. *)
Definition node_of (node : value) (index : nat) : result value :=
  node_id <- prop_get node (js "id") ;;
  node_title <- prop_get node (js "title") ;;
  node_description <- prop_get node (js "description") ;;
  node_duration <- prop_get node (js "duration") ;;
  node_type <- prop_get node (js "type") ;;
  node_resources <- prop_get node (js "resources") ;;
  Ok (VObject
        ([(js "id",
           js_or node_id (VString (js "step_" ++ decimal_of_nat (index + 1))));
          (js "title",
           js_or node_title (VString (js "Step " ++ decimal_of_nat (index + 1))));
          (js "description", js_or node_description (VString []));
          (js "duration", js_or node_duration (VString []));
          (js "type", js_or node_type (VString (js "task")));
          (js "resources", js_or node_resources (VArray []))]
         ++ spread node)).

Fixpoint map_nodes (ns : list value) (index : nat) : result (list value) :=
  match ns with
  | [] => Ok []
  | node :: rest =>
      n <- node_of node index ;;
      ns' <- map_nodes rest (index + 1) ;;
      Ok (n :: ns')
  end.

(** The member [k] an entry has of its own. *)
Definition own_member (node : value) (k : jstring) : option value :=
  match node with
  | VObject members => lookup k members
  | _ => None
  end.

(** The handler from the parse of the response to the roadmap it sends. *)
Definition normalize_in_place (roadmap : value) : result value :=
  raw_nodes <- prop_get roadmap (js "nodes") ;;
  match raw_nodes with
  | VArray ns =>
      raw_edges <- prop_get roadmap (js "edges") ;;
      roadmap1 <-
        (if negb (truthy raw_edges) || is_zero (get_length raw_edges) then
           es <- edges_loop ns (List.length ns - 1) 0 [] ;;
           Ok (set_prop roadmap (js "edges")
                        (VArray (List.map Link_as_value es)))
         else Ok roadmap) ;;
      ns' <- map_nodes ns 0 ;;
      Ok (set_prop roadmap1 (js "nodes") (VArray ns'))
  | _ =>
      Throw (JsError (js "Invalid roadmap structure: missing nodes array"))
  end.

End ServerPatch.

(* ================================================================== *)
(** * Predicates used in the statements *)
(* ================================================================== *)

(** A parser that, when it succeeds, has read at least one character. *)
Definition consumes {A : Type} (p : jstring -> Json.presult A) : Prop :=
  forall cs a rest,
    p cs = Json.Parsed a rest -> List.length rest < List.length cs.

(** [r'] is [r] with possibly more fuel. *)
Definition refines {A : Type} (r r' : Json.presult A) : Prop :=
  r = Json.OutOfFuel \/ r = r'.

(** What may follow a number without being read as part of it. *)
Definition number_follow (rest : jstring) : Prop :=
  match rest with
  | [] => True
  | c :: _ => digit_of_char c = None /\ c <> 46%N /\ c <> 101%N /\ c <> 69%N
  end.

(** The first character of the text of a value: not white space, and not a
    closing bracket or brace. *)
Definition starts_value (t : jstring) : bool :=
  match t with
  | c :: _ => negb (Json.is_ws c) && negb (N.eqb c 93) && negb (N.eqb c 125)
  | [] => false
  end.

(** [JSON.parse(JSON.stringify(v))] gives [v] back, whatever follows the
    text of [v] (the statement carried through the induction on [v]). *)
Definition roundtrips (v : value) : Prop :=
  is_json v = true ->
  exists t, Json.stringify v = Some t
    /\ forall rest, number_follow rest ->
         exists fuel, Json.parse_value fuel (t ++ rest) = Json.Parsed v rest.

(** A value whose properties can be read: anything but [null] and
    [undefined]. *)
Definition readable (v : value) : bool :=
  match v with
  | VUndefined | VNull => false
  | _ => true
  end.

(** The value of [v.k], [undefined] where the read would raise. *)
Definition field (v : value) (k : jstring) : value :=
  match prop_get v k with
  | Ok w => w
  | Throw _ => VUndefined
  end.

(** The linear chain over a node list, in closed form: the link from node
    [i] to node [i + 1], for [i] from [0] to [length ns - 2]. *)
Definition link_at (ns : list value) (i : nat) : Link :=
  mkLink (field (nth i ns VUndefined) (js "id"))
         (field (nth (i + 1) ns VUndefined) (js "id"))
         (VString (js "Then")).

Definition chain_of (ns : list value) : list Link :=
  List.map (link_at ns) (seq 0 (List.length ns - 1)).

(** The input supplies no edges: [raw.edges] is absent, not an array, or
    an array of length zero. *)
Definition no_supplied_edges (raw : value) : Prop :=
  match field raw (js "edges") with
  | VArray (_ :: _) => False
  | _ => True
  end.

(** The input yields no usable steps: [nodes] is an empty array, or is not
    an array while [steps] is an empty array or not an array. *)
Definition no_usable_steps (raw : value) : Prop :=
  match field raw (js "nodes") with
  | VArray ns => ns = []
  | _ =>
      match field raw (js "steps") with
      | VArray steps => steps = []
      | _ => True
      end
  end.

(** The entries of the array the node list is resolved from are all
    readable (none is [null]). *)
Definition entries_readable (raw : value) : bool :=
  match field raw (js "nodes") with
  | VArray ns => List.forallb readable ns
  | _ =>
      match field raw (js "steps") with
      | VArray steps => List.forallb readable steps
      | _ => true
      end
  end.

(** The canonical shape of a step: the six members the [steps] callback
    writes, in its order, with the type task. *)
Definition canonical_step (n : value) : Prop :=
  exists id t d u rs,
    n = VObject [(js "id", VString id); (js "title", t);
                 (js "description", d); (js "duration", u);
                 (js "type", VString (js "task")); (js "resources", rs)].

(** The five scalar fields of a roadmap with their documented defaults. *)
Definition scalar_fields : list (jstring * (Roadmap -> value) * jstring) :=
  [(js "title", title, js "AI Generated Roadmap");
   (js "description", description, []);
   (js "estimatedTotalDuration", estimatedTotalDuration, []);
   (js "difficulty", difficulty, js "beginner");
   (js "category", category, js "general")].

(** The message of an exception raised by the source itself. *)
Definition error_message (e : js_error) : option jstring :=
  match e with
  | JsError message => Some message
  | SyntaxError | TypeError => None      (* the platform's own wording *)
  end.

(** An exception carries the raw text, truncated, when its message holds
    the first [n] characters of the text for some [n > 0]. *)
Definition carries_raw_text (e : js_error) (text : jstring) : Prop :=
  exists n msg before after,
    0 < n /\ error_message e = Some msg
    /\ msg = before ++ firstn n text ++ after.

(** The text contains an opening brace and, later, a closing brace. *)
Definition has_brace_span (text : jstring) : Prop :=
  exists a b c, text = a ++ 123%N :: b ++ 125%N :: c.

(** [m] is the part of [text] from its first opening brace through its
    last closing brace. *)
Definition brace_span (text m : jstring) : Prop :=
  exists pre mid post,
    text = pre ++ 123%N :: mid ++ 125%N :: post
    /\ ~ In 123%N pre /\ ~ In 125%N post
    /\ m = 123%N :: mid ++ [125%N].

(** ** Texts and values of the examples *)

(** A JSON text written with an apostrophe for each quotation mark. *)
Definition jsq (s : string) : jstring :=
  List.map (fun c => if N.eqb c 39 then 34%N else c) (js s).

(** A Markdown code fence around a text. *)
Definition fenced (t : jstring) : jstring :=
  js "```json" ++ 10%N :: t ++ 10%N :: js "```".

Definition sorry_text : jstring := js "Sorry, I can't help with that.".

Definition refusal_text : jstring := js "I cannot help with that.".

Definition learn_go_text : jstring :=
  jsq "{'title':'Learn Go','steps':['Read docs','Build a CLI']}".

(** [{nodes: [{id: 'a'}, {id: 'b'}],
      edges: [{source: 'b', target: 'a', label: 'Back'}]}] *)
Definition supplied_edges_example : list value :=
  [VObject [(js "source", VString (js "b")); (js "target", VString (js "a"));
            (js "label", VString (js "Back"))]].

Definition raw_with_edges : value :=
  VObject [(js "nodes", VArray [VObject [(js "id", VString (js "a"))];
                                VObject [(js "id", VString (js "b"))]]);
           (js "edges", VArray supplied_edges_example)].


(** [{nodes: [{title: 'A'}]}] *)
Definition raw_node_without_id : value :=
  VObject [(js "nodes", VArray [VObject [(js "title", VString (js "A"))]])].

(** [{title: true}] and [{steps: [null]}] *)
Definition raw_title_true : value := VObject [(js "title", VBool true)].
Definition raw_null_step : value := VObject [(js "steps", VArray [VNull])].

(** [{title: 'Learn Go', steps: ['Read docs', 'Build a CLI']}] *)
Definition learn_go_parsed : value :=
  VObject [(js "title", VString (js "Learn Go"));
           (js "steps", VArray [VString (js "Read docs");
                                VString (js "Build a CLI")])].

(** [{title: 'A', steps: []}] *)
Definition title_a_parsed : value :=
  VObject [(js "title", VString (js "A")); (js "steps", VArray [])].

(** The keys of the input that [normalizeRoadmap] reads. *)
Definition keys_read : list jstring :=
  [js "nodes"; js "steps"; js "title"; js "description";
   js "estimatedTotalDuration"; js "difficulty"; js "category"].

(* ================================================================== *)
(** * More of [server.js]: the session routes and the page guard *)
(* ================================================================== *)

(** The session of a client is modelled by the value of
    [req.session.user], [undefined] when there is none. What the handlers
    write to the console is left out. *)

Module Session.

(** [s.startsWith(p)] *)
Definition startsWith (p s : jstring) : bool :=
  match starts_with p s with Some _ => true | None => false end.

(** What a middleware does with a request. *)
Inductive gate : Type :=
| Next                         (* next() *)
| Unauthorized                 (* res.status(401).json(...) *)
| RedirectLogin.               (* res.redirect('/login') *)

Definition verifyIdToken (originalUrl : jstring) (user : value) : gate :=
  if startsWith (js "/api/") originalUrl then Next
  else if negb (truthy user) || negb (truthy (field user (js "authenticated")))
  then
    if startsWith (js "/api/") originalUrl then Unauthorized
    else RedirectLogin
  else Next.

(** The JSON answer of a route: [res.status(code).json(json)]. *)
Record reply : Type := mkReply {
  code : nat;
  json : value
}.

(** [v.substring(0, n)]: only a string has the method; on another value
    the call raises a [TypeError]. *)
Definition substring_from_0 (v : value) (n : nat) : result jstring :=
  match v with
  | VString t => Ok (firstn n t)
  | _ => Throw TypeError
  end.

(** [POST /api/login], with the members [idToken] and [email] of the
    body: the new session and the answer. *)
Definition login (user idToken email : value) : value * reply :=
  if negb (truthy idToken) then
    (user, mkReply 400 (VObject [(js "error", VString (js "No token provided"))]))
  else
    match
      (excerpt <- substring_from_0 idToken 20 ;;
       Ok (VObject [(js "authenticated", VBool true);
                    (js "email", email);
                    (js "token", VString (excerpt ++ js "..."))]))
    with
    | Ok user' => (user', mkReply 200 (VObject [(js "success", VBool true)]))
    | Throw _ =>
        (user, mkReply 401 (VObject [(js "error", VString (js "Invalid token"))]))
    end.

(** [POST /api/logout]: the session is destroyed. *)
Definition logout (user : value) : value * reply :=
  (VUndefined, mkReply 200 (VObject [(js "success", VBool true)])).

(** [GET /api/auth-status] *)
Definition auth_status (user : value) : reply :=
  mkReply 200
    (VObject
       [(js "authenticated",
         VBool (truthy user && truthy (field user (js "authenticated"))));
        (js "user",
         if truthy user then VObject [(js "email", field user (js "email"))]
         else VNull)]).

(** The requests a client can send to the session routes. *)
Inductive request : Type :=
| Login (idToken email : value)
| Logout
| AuthStatus.

Definition serve (user : value) (r : request) : value * reply :=
  match r with
  | Login idToken email => login user idToken email
  | Logout => logout user
  | AuthStatus => (user, auth_status user)
  end.

(** The session after a sequence of requests. *)
Fixpoint run (user : value) (rs : list request) : value :=
  match rs with
  | [] => user
  | r :: rest => run (fst (serve user r)) rest
  end.

End Session.

(* ================================================================== *)
(** * More of [server-patch.js] *)
(* ================================================================== *)

Module Patch.

(** ** Text helpers of the platform *)

(** White space and line terminators, as [String.prototype.trim] removes
    them. *)
Definition is_js_space (c : N) : bool :=
  (N.leb 9 c && N.leb c 13) || N.eqb c 32 || N.eqb c 160 || N.eqb c 5760
  || (N.leb 8192 c && N.leb c 8202) || N.eqb c 8232 || N.eqb c 8233
  || N.eqb c 8239 || N.eqb c 8287 || N.eqb c 12288 || N.eqb c 65279.

Fixpoint trim_start (s : jstring) : jstring :=
  match s with
  | c :: rest => if is_js_space c then trim_start rest else s
  | [] => []
  end.

Fixpoint trim_end (s : jstring) : jstring :=
  match s with
  | [] => []
  | c :: rest =>
      match trim_end rest with
      | [] => if is_js_space c then [] else [c]
      | r => c :: r
      end
  end.

(** [s.trim()] *)
Definition trim (s : jstring) : jstring := trim_end (trim_start s).

(** [s.replace(/^p/, '')] for a literal [p]. *)
Definition remove_prefix (p s : jstring) : jstring :=
  match starts_with p s with Some rest => rest | None => s end.

(** [s.replace(/q$/, '')] for a literal [q]: without the [m] flag the
    dollar matches at the end of the text only. *)
Definition remove_suffix (q s : jstring) : jstring :=
  match starts_with (List.rev q) (List.rev s) with
  | Some r => List.rev r
  | None => s
  end.

(** [s.includes(sub)] *)
Fixpoint includes (s sub : jstring) : bool :=
  match starts_with sub s with
  | Some _ => true
  | None =>
      match s with
      | [] => false
      | _ :: rest => includes rest sub
      end
  end.

(** ** The fence around the answer *)

Definition fence_json : jstring := js "```json".
Definition fence : jstring := js "```".

(** [let jsonText = responseText.trim(); if (jsonText.startsWith(...)) ...] *)
Definition strip_fence (responseText : jstring) : jstring :=
  let jsonText := trim responseText in
  if Session.startsWith fence_json jsonText then
    remove_suffix (10%N :: fence) (remove_prefix (fence_json ++ [10%N]) jsonText)
  else if Session.startsWith fence jsonText then
    remove_suffix (10%N :: fence) (remove_prefix (fence ++ [10%N]) jsonText)
  else jsonText.

(** ** [generateWithGemini] *)

(** The message of an exception: that of [new Error(message)] is known;
    the wording of the platform's own errors is a parameter. *)
Definition error_text (platform : js_error -> jstring) (e : js_error)
  : jstring :=
  match e with
  | JsError message => message
  | _ => platform e
  end.

Definition model_unavailable (modelName : jstring) : jstring :=
  js "Model " ++ 34%N :: modelName
  ++ 34%N :: js " is not available. Please check your API access or try a different model.".

(** [key] tells whether [GEMINI_API_KEY] is set; [sdk] is the outcome of
    the call of the SDK, the text of the answer or the exception it
    raises. *)
Definition generateWithGemini (platform : js_error -> jstring) (key : bool)
           (modelName : jstring) (sdk : result jstring) : result jstring :=
  match
    (if key then sdk else Throw (JsError (js "GEMINI_API_KEY is not configured")))
  with
  | Ok text => Ok text
  | Throw error =>
      let message := error_text platform error in
      if includes message (js "404") || includes message (js "not found")
         || includes message (js "model not found")
      then Throw (JsError (model_unavailable modelName))
      else if includes message (js "API key")
      then Throw (JsError (js "Invalid or missing Gemini API key. Please check your .env file."))
      else Throw error
  end.

(** [error.message.includes('not configured') ? 503 : 500] *)
Definition statusCode (message : jstring) : nat :=
  if includes message (js "not configured") then 503 else 500.

(** ** The handler of [POST /api/generate-roadmap] *)

(** Whether [String(v)], which a template literal applies to what it
    holds, raises on a value of a parsed body. No member of such a value
    can be called: the conversion of an object therefore raises a
    [TypeError] exactly when the object has a member [toString] of its own
    (without one, [Object.prototype.toString] answers); that of an array
    converts the entries other than [null] and raises when one of them
    does; that of any other value raises nothing. *)
Fixpoint to_text_raises (v : value) : bool :=
  match v with
  | VObject members =>
      match lookup (js "toString") members with
      | Some _ => true
      | None => false
      end
  | VArray items => List.existsb to_text_raises items
  | _ => false
  end.

(** [settings?.maxSteps || 10] *)
Definition maxSteps_of (settings : value) : value :=
  js_or (field settings (js "maxSteps")) (VNumber 10 0).

(** The first two statements inside [try]. The text of the prompt goes to
    the SDK, whose outcome is given; what is left of the template is that
    it converts [goal] and [maxSteps] to text. *)
Definition build_prompt (goal settings : value) : result unit :=
  if to_text_raises goal || to_text_raises (maxSteps_of settings)
  then Throw TypeError
  else Ok tt.

(** The part inside [try] from the call of the model on. *)
Definition generate_roadmap_try (platform : js_error -> jstring) (key : bool)
           (sdk : result jstring) : result value :=
  responseText <- generateWithGemini platform key (js "gemini-1.5-flash") sdk ;;
  roadmap <- JSON_parse (strip_fence responseText) ;;
  ServerPatch.normalize_in_place roadmap.

(** [roadmap.nodes.length] of the roadmap sent. *)
Definition nodes_length (roadmap : value) : nat :=
  match field roadmap (js "nodes") with
  | VArray ns => List.length ns
  | _ => 0
  end.

(** [goal] and [settings] are the members of those names of the body. *)
Definition generate_roadmap (platform : js_error -> jstring) (key : bool)
           (goal settings : value) (sdk : result jstring) : Session.reply :=
  if negb (truthy goal) || negb (is_string goal) then
    Session.mkReply 400 (VObject [(js "error", VString (js "Goal is required"))])
  else
    match
      (_ <- build_prompt goal settings ;;
       generate_roadmap_try platform key sdk)
    with
    | Ok roadmap =>
        Session.mkReply 200
          (VObject
             [(js "success", VBool true);
              (js "roadmap", roadmap);
              (js "message",
               VString (js "Created roadmap with "
                        ++ decimal_of_nat (nodes_length roadmap)
                        ++ js " steps"))])
    | Throw error =>
        Session.mkReply (statusCode (error_text platform error))
          (VObject
             [(js "error",
               VString (js "Failed to generate roadmap: "
                        ++ error_text platform error))])
    end.

(** ** The routes [/api/chat] and [/api/refine-roadmap] *)

(** The prompt goes to the SDK, whose outcome is given. What is kept of
    the callback of [messages.map] is that it reads [role] and [content]
    of every entry, two names that no prototype defines. The conversion
    of [content] to text is not modelled here: an outcome of the SDK
    stands for a call that was reached. *)
Fixpoint read_messages (messages : list value) : result unit :=
  match messages with
  | [] => Ok tt
  | msg :: rest =>
      _ <- prop_get msg (js "role") ;;
      _ <- prop_get msg (js "content") ;;
      read_messages rest
  end.

Definition chat (platform : js_error -> jstring) (key : bool)
           (messages : value) (sdk : result jstring) : Session.reply :=
  if negb (truthy messages) || negb (isArray messages) then
    Session.mkReply 400
      (VObject [(js "error", VString (js "Messages array required"))])
  else
    match
      (_ <- match messages with
            | VArray ms => read_messages ms
            | _ => Throw TypeError
            end ;;
       generateWithGemini platform key (js "gemini-1.5-flash") sdk)
    with
    | Ok assistantMessage =>
        Session.mkReply 200
          (VObject [(js "content", VString assistantMessage)])
    | Throw error =>
        Session.mkReply (statusCode (error_text platform error))
          (VObject
             [(js "error",
               VString (js "Failed to generate response: "
                        ++ error_text platform error))])
    end.

(** [JSON.stringify(originalRoadmap, null, 2)] goes into the prompt and
    raises nothing on a value of a parsed body. *)
Definition refine_roadmap (platform : js_error -> jstring) (key : bool)
           (originalRoadmap feedback : value) (sdk : result jstring)
  : Session.reply :=
  if negb (truthy originalRoadmap)
     || negb (truthy (field originalRoadmap (js "nodes"))) then
    Session.mkReply 400
      (VObject [(js "error", VString (js "Original roadmap is required"))])
  else if negb (truthy feedback) || negb (is_string feedback) then
    Session.mkReply 400
      (VObject [(js "error", VString (js "Feedback is required"))])
  else
    match
      (responseText <-
         generateWithGemini platform key (js "gemini-1.5-flash") sdk ;;
       JSON_parse (strip_fence responseText))
    with
    | Ok refinedRoadmap =>
        Session.mkReply 200
          (VObject [(js "success", VBool true);
                    (js "roadmap", refinedRoadmap)])
    | Throw error =>
        Session.mkReply (statusCode (error_text platform error))
          (VObject
             [(js "error",
               VString (js "Failed to refine roadmap: "
                        ++ error_text platform error))])
    end.

(** ** The guard [verifyIdToken] *)

(** [s.split(sep)[1]] for a separator that is not empty: what lies between
    the first and the second occurrence of [sep], [undefined] when there is
    no occurrence. *)
Fixpoint split_first (sep s : jstring) : option (jstring * jstring) :=
  match starts_with sep s with
  | Some rest => Some ([], rest)
  | None =>
      match s with
      | [] => None
      | c :: s' =>
          match split_first sep s' with
          | Some (before, after) => Some (c :: before, after)
          | None => None
          end
      end
  end.

Definition split_1 (sep s : jstring) : value :=
  match split_first sep s with
  | None => VUndefined
  | Some (_, after) =>
      match split_first sep after with
      | Some (part, _) => VString part
      | None => VString after
      end
  end.

Inductive gate : Type :=
| Next
| RedirectLogin
| Unauthorized (error : jstring).

(** [path] is [req.path], [cookie] is [req.cookies.token], [authorization]
    the header of that name if there is one, [html] whether
    [req.accepts('html')]. The body of [try] is an assignment and raises
    nothing. *)
Definition verifyIdToken (path : jstring) (cookie : value)
           (authorization : option jstring) (html : bool) : gate :=
  if Session.startsWith (js "/api/") path then Next
  else
    let idToken :=
      js_or cookie
            (match authorization with
             | Some h => split_1 (js "Bearer ") h
             | None => VUndefined
             end) in
    if negb (truthy idToken) then
      if html then RedirectLogin
      else Unauthorized (js "Unauthorized: No token provided")
    else Next.

End Patch.

(* ================================================================== *)
(** * Predicates of the further statements *)
(* ================================================================== *)

(** An entry that cannot be read stands where [normalizeRoadmap] reads: in
    a [nodes] array of two entries or more, or in the [steps] array that
    is mapped. *)
Definition unreadable_entry (raw : value) : Prop :=
  match field raw (js "nodes") with
  | VArray ns => 2 <= List.length ns /\ List.forallb readable ns = false
  | _ =>
      match field raw (js "steps") with
      | VArray steps => List.forallb readable steps = false
      | _ => False
      end
  end.

(** The step the [steps] callback builds from entry [s] at index [i],
    written out. *)
Definition step_at (s : value) (i : nat) : value :=
  VObject
    [(js "id", VString (js "step_" ++ decimal_of_nat (i + 1)));
     (js "title",
      if is_string s then s
      else js_or (field s (js "title"))
                 (VString (js "Step " ++ decimal_of_nat (i + 1))));
     (js "description", js_or (field s (js "description")) (VString []));
     (js "duration", js_or (field s (js "duration")) (VString []));
     (js "type", VString (js "task"));
     (js "resources", js_or (field s (js "resources")) (VArray []))].

(** The six members of a node the handler of [server-patch.js] rebuilds,
    with the default of each at index [i]. *)
Definition node_defaults (i : nat) : list (jstring * value) :=
  [(js "id", VString (js "step_" ++ decimal_of_nat (i + 1)));
   (js "title", VString (js "Step " ++ decimal_of_nat (i + 1)));
   (js "description", VString []);
   (js "duration", VString []);
   (js "type", VString (js "task"));
   (js "resources", VArray [])].

(** The object literal of the [nodes] callback of [server-patch.js],
    before the spread. *)
Definition node_literal (node : value) (index : nat) : list (jstring * value) :=
  [(js "id",
    js_or (field node (js "id"))
          (VString (js "step_" ++ decimal_of_nat (index + 1))));
   (js "title",
    js_or (field node (js "title"))
          (VString (js "Step " ++ decimal_of_nat (index + 1))));
   (js "description", js_or (field node (js "description")) (VString []));
   (js "duration", js_or (field node (js "duration")) (VString []));
   (js "type", js_or (field node (js "type")) (VString (js "task")));
   (js "resources", js_or (field node (js "resources")) (VArray []))].

(** Every character is white space for [trim]. *)
Definition all_space (s : jstring) : Prop :=
  Forall (fun c => Patch.is_js_space c = true) s.

(** A platform wording of the errors, for the examples. *)
Definition sample_platform (e : js_error) : jstring :=
  match e with
  | JsError message => message
  | SyntaxError => js "Unexpected token"
  | TypeError => js "Cannot read properties of null"
  end.

(** [{nodes: [{title: 'A'}, {title: 'B'}]}] and
    [{nodes: [{id: 'intro', title: 'A'}]}] *)
Definition raw_nodes_without_ids : value :=
  VObject [(js "nodes", VArray [VObject [(js "title", VString (js "A"))];
                                VObject [(js "title", VString (js "B"))]])].


(** [{maxSteps: {toString: 1}}] *)
Definition settings_not_text : value :=
  VObject [(js "maxSteps", VObject [(js "toString", VNumber 1 0)])].

(** A wording in which the [TypeError] is that of a conversion. *)
Definition conversion_platform (e : js_error) : jstring :=
  match e with
  | JsError message => message
  | SyntaxError => js "Unexpected token"
  | TypeError => js "Cannot convert object to primitive value"
  end.

(** A fence without the word json. *)
Definition fenced_bare (t : jstring) : jstring :=
  js "```" ++ 10%N :: t ++ 10%N :: js "```".

(** The sessions the routes of [server.js] can produce: none, or the
    object [login] stores, whose token excerpt is cut from a string. *)
Definition session_shape (user : value) : Prop :=
  user = VUndefined
  \/ exists email t,
       user = VObject [(js "authenticated", VBool true);
                       (js "email", email);
                       (js "token", VString (firstn 20 t ++ js "..."))].

(** The condition under which the handler of [server-patch.js] builds the
    edges itself: [!roadmap.edges || roadmap.edges.length === 0]. *)
Definition edges_missing (supplied : value) : bool :=
  negb (truthy supplied) || ServerPatch.is_zero (ServerPatch.get_length supplied).

(* ================================================================== *)
(** * Facts about the JSON model *)
(* ================================================================== *)

Lemma jstring_eqb_eq (a b : jstring) : jstring_eqb a b = true <-> a = b.
Proof.
  revert b; induction a as [|x a IH]; intros [|y b]; simpl; split;
    try congruence; try reflexivity.
  - intros H. apply andb_true_iff in H as [Hx Hab].
    apply N.eqb_eq in Hx. apply IH in Hab. congruence.
  - intros [= -> ->]. rewrite N.eqb_refl. simpl. now apply IH.
Qed.

Lemma jstring_eqb_refl (a : jstring) : jstring_eqb a a = true.
Proof. now apply jstring_eqb_eq. Qed.

Module JsonFacts.
Import Json.
Local Open Scope N_scope.

(** ** What each lexical function consumes *)

Lemma skip_ws_length (cs : jstring) :
  (List.length (skip_ws cs) <= List.length cs)%nat.
Proof.
  induction cs as [|c cs IH]; simpl; [lia|].
  destruct (is_ws c); simpl; lia.
Qed.

Lemma skip_ws_head (c : N) (cs : jstring) :
  is_ws c = false -> skip_ws (c :: cs) = c :: cs.
Proof. intros H; simpl; now rewrite H. Qed.

Lemma parse_chars_length (cs s rest : jstring) :
  parse_chars cs = Some (s, rest) -> (List.length rest < List.length cs)%nat.
Proof.
  remember (List.length cs) as n eqn:Hn.
  revert cs s rest Hn.
  induction n as [n IH] using lt_wf_ind; intros cs s rest Hn.
  destruct cs as [|c cs1]; simpl; [discriminate|].
  destruct (N.eqb c 34).
  { intros [= <- <-]. simpl in Hn. lia. }
  destruct (N.eqb c 92).
  - destruct cs1 as [|e cs2]; [discriminate|].
    destruct (N.eqb e 117).
    + destruct cs2 as [|h1 [|h2 [|h3 [|h4 cs3]]]]; try discriminate.
      destruct (hex4 h1 h2 h3 h4); [|discriminate].
      destruct (parse_chars cs3) as [[s' r']|] eqn:E; simpl; [|discriminate].
      intros [= <- <-].
      apply (IH (List.length cs3)) in E; simpl in *; try lia.
    + destruct (simple_escape e); [|discriminate].
      destruct (parse_chars cs2) as [[s' r']|] eqn:E; simpl; [|discriminate].
      intros [= <- <-].
      apply (IH (List.length cs2)) in E; simpl in *; try lia.
  - destruct (N.ltb c 32); [discriminate|].
    destruct (parse_chars cs1) as [[s' r']|] eqn:E; simpl; [|discriminate].
    intros [= <- <-].
    apply (IH (List.length cs1)) in E; simpl in *; try lia.
Qed.

Lemma read_digits_length (cs : jstring) :
  List.length cs
  = (List.length (fst (read_digits cs)) + List.length (snd (read_digits cs)))%nat.
Proof.
  induction cs as [|c cs IH]; simpl; [reflexivity|].
  destruct (digit_of_char c); simpl; [|reflexivity].
  destruct (read_digits cs); simpl in *. lia.
Qed.

Lemma starts_with_length (p s rest : jstring) :
  starts_with p s = Some rest ->
  List.length s = (List.length p + List.length rest)%nat.
Proof.
  revert s; induction p as [|x p IH]; intros s; simpl.
  - now intros [= ->].
  - destruct s as [|y s]; [discriminate|].
    destruct (N.eqb x y); [|discriminate].
    intros H; apply IH in H; simpl; lia.
Qed.

Lemma exp_digits_length (neg : bool) (cs : jstring) (e : Z) (rest : jstring) :
  exp_digits neg cs = Some (e, rest) -> (List.length rest < List.length cs)%nat.
Proof.
  unfold exp_digits. pose proof (read_digits_length cs) as Hl.
  destruct (read_digits cs) as [[|d l] r2]; [discriminate|].
  intros [= <- <-]. simpl in *. lia.
Qed.

Lemma parse_exp_length (cs : jstring) (e : Z) (rest : jstring) :
  parse_exp cs = Some (e, rest) -> (List.length rest <= List.length cs)%nat.
Proof.
  unfold parse_exp. destruct cs as [|c cs1]; [now intros [= <- <-]|].
  destruct (N.eqb c 101 || N.eqb c 69); [|now intros [= <- <-]].
  destruct cs1 as [|s cs2]; [discriminate|].
  destruct (N.eqb s 43); [|destruct (N.eqb s 45)];
    intros H; apply exp_digits_length in H; simpl in *; lia.
Qed.

Lemma parse_frac_length (cs : jstring) (ds : list digits) (rest : jstring) :
  parse_frac cs = Some (ds, rest) -> (List.length rest <= List.length cs)%nat.
Proof.
  unfold parse_frac. destruct cs as [|c cs1]; [now intros [= <- <-]|].
  destruct (N.eqb c 46); [|now intros [= <- <-]].
  pose proof (read_digits_length cs1) as Hl.
  destruct (read_digits cs1) as [[|d l] r2]; [discriminate|].
  intros [= <- <-]. simpl in *. lia.
Qed.

Lemma int_ok_nonempty (ds : list digits) : int_ok ds = true -> ds <> [].
Proof. destruct ds; simpl; congruence. Qed.

Lemma parse_unsigned_length neg (cs : jstring) (v : value) (rest : jstring) :
  parse_unsigned neg cs = Some (v, rest) ->
  (List.length rest < List.length cs)%nat.
Proof.
  unfold parse_unsigned.
  pose proof (read_digits_length cs) as Hl.
  destruct (read_digits cs) as [int cs2]. simpl in Hl.
  destruct (int_ok int) eqn:Hint; [|discriminate].
  apply int_ok_nonempty in Hint.
  destruct (parse_frac cs2) as [[frac cs3]|] eqn:Hf; [|discriminate].
  destruct (parse_exp cs3) as [[e cs4]|] eqn:He; [|discriminate].
  intros [= <- <-].
  apply parse_frac_length in Hf. apply parse_exp_length in He.
  destruct int; [congruence|]. simpl in Hl. lia.
Qed.

Lemma parse_number_length (cs : jstring) (v : value) (rest : jstring) :
  parse_number cs = Some (v, rest) -> (List.length rest < List.length cs)%nat.
Proof.
  unfold parse_number. destruct cs as [|c cs1]; [discriminate|].
  destruct (N.eqb c 45); intros H; apply parse_unsigned_length in H;
    simpl in *; lia.
Qed.

(** ** The recursive-descent parser: progress, fuel *)

Lemma literal_length (word : jstring) (v w : value) (cs rest : jstring) :
  literal word v cs = Parsed w rest ->
  List.length cs = (List.length word + List.length rest)%nat.
Proof.
  unfold literal. destruct (starts_with word cs) eqn:E; [|discriminate].
  intros [= <- <-]. now apply starts_with_length.
Qed.

Lemma value_body_consumes elements_p members_p :
  consumes elements_p -> consumes members_p ->
  consumes (value_body elements_p members_p).
Proof.
  intros He Hm cs v rest. unfold value_body.
  pose proof (skip_ws_length cs) as Hs.
  destruct (skip_ws cs) as [|c r0]; [discriminate|]. simpl in Hs.
  destruct (N.eqb c 123).
  { pose proof (skip_ws_length r0) as Hs1.
    destruct (skip_ws r0) as [|d r1]; [discriminate|]. simpl in Hs1.
    destruct (N.eqb d 125); [intros [= <- <-]; lia|].
    destruct (members_p (d :: r1)) eqn:E; try discriminate.
    intros [= <- <-]. apply Hm in E. simpl in E. lia. }
  destruct (N.eqb c 91).
  { pose proof (skip_ws_length r0) as Hs1.
    destruct (skip_ws r0) as [|d r1]; [discriminate|]. simpl in Hs1.
    destruct (N.eqb d 93); [intros [= <- <-]; lia|].
    destruct (elements_p (d :: r1)) eqn:E; try discriminate.
    intros [= <- <-]. apply He in E. simpl in E. lia. }
  destruct (N.eqb c 34).
  { destruct (parse_chars r0) as [[s r]|] eqn:E; [|discriminate].
    intros [= <- <-]. apply parse_chars_length in E. lia. }
  destruct (N.eqb c 116);
    [intros H; apply literal_length in H; simpl in H; lia|].
  destruct (N.eqb c 102);
    [intros H; apply literal_length in H; simpl in H; lia|].
  destruct (N.eqb c 110);
    [intros H; apply literal_length in H; simpl in H; lia|].
  destruct (parse_number (c :: r0)) as [[w r]|] eqn:E; [|discriminate].
  intros [= <- <-]. apply parse_number_length in E. simpl in E. lia.
Qed.

Lemma elements_body_consumes value_p elements_p :
  consumes value_p -> consumes elements_p ->
  consumes (elements_body value_p elements_p).
Proof.
  intros Hv He cs vs rest. unfold elements_body.
  destruct (value_p cs) as [v r0| |] eqn:E; try discriminate.
  apply Hv in E. pose proof (skip_ws_length r0) as Hs.
  destruct (skip_ws r0) as [|d r1]; [discriminate|]. simpl in Hs.
  destruct (N.eqb d 44).
  { destruct (elements_p r1) eqn:E1; try discriminate.
    intros [= <- <-]. apply He in E1. lia. }
  destruct (N.eqb d 93); [|discriminate].
  intros [= <- <-]. lia.
Qed.

Lemma members_body_consumes value_p members_p :
  consumes value_p -> consumes members_p ->
  consumes (members_body value_p members_p).
Proof.
  intros Hv Hm cs ms rest. unfold members_body.
  pose proof (skip_ws_length cs) as Hs.
  destruct (skip_ws cs) as [|q r0]; [discriminate|]. simpl in Hs.
  destruct (N.eqb q 34); [|discriminate].
  destruct (parse_chars r0) as [[k r1]|] eqn:Ek; [|discriminate].
  apply parse_chars_length in Ek.
  pose proof (skip_ws_length r1) as Hs1.
  destruct (skip_ws r1) as [|c r2]; [discriminate|]. simpl in Hs1.
  destruct (N.eqb c 58); [|discriminate].
  destruct (value_p r2) as [v r3| |] eqn:E; try discriminate.
  apply Hv in E. pose proof (skip_ws_length r3) as Hs3.
  destruct (skip_ws r3) as [|d r4]; [discriminate|]. simpl in Hs3.
  destruct (N.eqb d 44).
  { destruct (members_p r4) eqn:E1; try discriminate.
    intros [= <- <-]. apply Hm in E1. lia. }
  destruct (N.eqb d 125); [|discriminate].
  intros [= <- <-]. lia.
Qed.

Lemma parse_consumes (fuel : nat) :
  consumes (parse_value fuel) /\ consumes (parse_elements fuel)
  /\ consumes (parse_members fuel).
Proof.
  induction fuel as [|fuel (IHv & IHe & IHm)].
  - repeat split; intros cs a rest; simpl; discriminate.
  - repeat split; simpl.
    + now apply value_body_consumes.
    + now apply elements_body_consumes.
    + now apply members_body_consumes.
Qed.

(** With the callees never short of fuel on shorter texts, a production
    is never short of fuel either. *)
Lemma value_body_fuel elements_p members_p (cs : jstring) :
  (forall cs', (List.length cs' < List.length cs)%nat ->
               elements_p cs' <> OutOfFuel) ->
  (forall cs', (List.length cs' < List.length cs)%nat ->
               members_p cs' <> OutOfFuel) ->
  value_body elements_p members_p cs <> OutOfFuel.
Proof.
  intros He Hm. unfold value_body.
  pose proof (skip_ws_length cs) as Hs.
  destruct (skip_ws cs) as [|c r0]; [discriminate|]. simpl in Hs.
  destruct (N.eqb c 123).
  { pose proof (skip_ws_length r0) as Hs1.
    destruct (skip_ws r0) as [|d r1]; [discriminate|]. simpl in Hs1.
    destruct (N.eqb d 125); [discriminate|].
    destruct (members_p (d :: r1)) eqn:E; try discriminate.
    exfalso. revert E. apply Hm. simpl. lia. }
  destruct (N.eqb c 91).
  { pose proof (skip_ws_length r0) as Hs1.
    destruct (skip_ws r0) as [|d r1]; [discriminate|]. simpl in Hs1.
    destruct (N.eqb d 93); [discriminate|].
    destruct (elements_p (d :: r1)) eqn:E; try discriminate.
    exfalso. revert E. apply He. simpl. lia. }
  destruct (N.eqb c 34).
  { destruct (parse_chars r0) as [[s r]|]; discriminate. }
  unfold literal.
  destruct (N.eqb c 116); [destruct (starts_with _ _); discriminate|].
  destruct (N.eqb c 102); [destruct (starts_with _ _); discriminate|].
  destruct (N.eqb c 110); [destruct (starts_with _ _); discriminate|].
  destruct (parse_number (c :: r0)) as [[w r]|]; discriminate.
Qed.

Lemma elements_body_fuel value_p elements_p (cs : jstring) :
  consumes value_p ->
  value_p cs <> OutOfFuel ->
  (forall cs', (List.length cs' + 1 < List.length cs)%nat ->
               elements_p cs' <> OutOfFuel) ->
  elements_body value_p elements_p cs <> OutOfFuel.
Proof.
  intros Hc Hv He. unfold elements_body.
  destruct (value_p cs) as [v r0| |] eqn:E; try discriminate; [|congruence].
  apply Hc in E. pose proof (skip_ws_length r0) as Hs.
  destruct (skip_ws r0) as [|d r1]; [discriminate|]. simpl in Hs.
  destruct (N.eqb d 44).
  { destruct (elements_p r1) eqn:E1; try discriminate.
    exfalso. revert E1. apply He. lia. }
  destruct (N.eqb d 93); discriminate.
Qed.

Lemma members_body_fuel value_p members_p (cs : jstring) :
  consumes value_p ->
  (forall cs', (List.length cs' < List.length cs)%nat ->
               value_p cs' <> OutOfFuel) ->
  (forall cs', (List.length cs' < List.length cs)%nat ->
               members_p cs' <> OutOfFuel) ->
  members_body value_p members_p cs <> OutOfFuel.
Proof.
  intros Hc Hv Hm. unfold members_body.
  pose proof (skip_ws_length cs) as Hs.
  destruct (skip_ws cs) as [|q r0]; [discriminate|]. simpl in Hs.
  destruct (N.eqb q 34); [|discriminate].
  destruct (parse_chars r0) as [[k r1]|] eqn:Ek; [|discriminate].
  apply parse_chars_length in Ek.
  pose proof (skip_ws_length r1) as Hs1.
  destruct (skip_ws r1) as [|c r2]; [discriminate|]. simpl in Hs1.
  destruct (N.eqb c 58); [|discriminate].
  destruct (value_p r2) as [v r3| |] eqn:E; try discriminate.
  - apply Hc in E. pose proof (skip_ws_length r3) as Hs3.
    destruct (skip_ws r3) as [|d r4]; [discriminate|]. simpl in Hs3.
    destruct (N.eqb d 44).
    { destruct (members_p r4) eqn:E1; try discriminate.
      exfalso. revert E1. apply Hm. lia. }
    destruct (N.eqb d 125); discriminate.
  - exfalso. revert E. apply Hv. lia.
Qed.

Lemma parse_fuel_enough (fuel : nat) :
  (forall cs, (2 * List.length cs < fuel)%nat ->
              parse_value fuel cs <> OutOfFuel)
  /\ (forall cs, (2 * List.length cs + 1 < fuel)%nat ->
                 parse_elements fuel cs <> OutOfFuel)
  /\ (forall cs, (2 * List.length cs + 1 < fuel)%nat ->
                 parse_members fuel cs <> OutOfFuel).
Proof.
  induction fuel as [|fuel (IHv & IHe & IHm)].
  - repeat split; intros cs H; lia.
  - destruct (parse_consumes fuel) as (Cv & _ & _).
    repeat split; intros cs H; simpl.
    + apply value_body_fuel; intros cs' H'; [apply IHe | apply IHm]; lia.
    + apply elements_body_fuel; [exact Cv | apply IHv; lia |].
      intros cs' H'. apply IHe. lia.
    + apply members_body_fuel; [exact Cv | |];
        intros cs' H'; [apply IHv | apply IHm]; lia.
Qed.

(** The fuel [parse] supplies is never exhausted. *)
Lemma parse_value_fuel_for (text : jstring) :
  parse_value (fuel_for text) text <> OutOfFuel.
Proof. apply parse_fuel_enough. unfold fuel_for. lia. Qed.

(** More fuel does not change an answer. *)
Lemma refines_refl {A : Type} (r : presult A) : refines r r.
Proof. now right. Qed.

Lemma refines_trans {A : Type} (r1 r2 r3 : presult A) :
  refines r1 r2 -> refines r2 r3 -> refines r1 r3.
Proof. intros [->| ->] H; [now left | exact H]. Qed.

Lemma value_body_mono e1 m1 e2 m2 :
  (forall cs, refines (e1 cs) (e2 cs)) ->
  (forall cs, refines (m1 cs) (m2 cs)) ->
  forall cs, refines (value_body e1 m1 cs) (value_body e2 m2 cs).
Proof.
  intros He Hm cs. unfold value_body.
  destruct (skip_ws cs) as [|c r0]; [apply refines_refl|].
  destruct (N.eqb c 123).
  { destruct (skip_ws r0) as [|d r1]; [apply refines_refl|].
    destruct (N.eqb d 125); [apply refines_refl|].
    destruct (Hm (d :: r1)) as [-> | <-]; [now left | apply refines_refl]. }
  destruct (N.eqb c 91).
  { destruct (skip_ws r0) as [|d r1]; [apply refines_refl|].
    destruct (N.eqb d 93); [apply refines_refl|].
    destruct (He (d :: r1)) as [-> | <-]; [now left | apply refines_refl]. }
  apply refines_refl.
Qed.

Lemma elements_body_mono v1 e1 v2 e2 :
  (forall cs, refines (v1 cs) (v2 cs)) ->
  (forall cs, refines (e1 cs) (e2 cs)) ->
  forall cs, refines (elements_body v1 e1 cs) (elements_body v2 e2 cs).
Proof.
  intros Hv He cs. unfold elements_body.
  destruct (Hv cs) as [-> | <-]; [now left|].
  destruct (v1 cs) as [v r0| |]; try apply refines_refl.
  destruct (skip_ws r0) as [|d r1]; [apply refines_refl|].
  destruct (N.eqb d 44); [|apply refines_refl].
  destruct (He r1) as [-> | <-]; [now left | apply refines_refl].
Qed.

Lemma members_body_mono v1 m1 v2 m2 :
  (forall cs, refines (v1 cs) (v2 cs)) ->
  (forall cs, refines (m1 cs) (m2 cs)) ->
  forall cs, refines (members_body v1 m1 cs) (members_body v2 m2 cs).
Proof.
  intros Hv Hm cs. unfold members_body.
  destruct (skip_ws cs) as [|q r0]; [apply refines_refl|].
  destruct (N.eqb q 34); [|apply refines_refl].
  destruct (parse_chars r0) as [[k r1]|]; [|apply refines_refl].
  destruct (skip_ws r1) as [|c r2]; [apply refines_refl|].
  destruct (N.eqb c 58); [|apply refines_refl].
  destruct (Hv r2) as [-> | <-]; [now left|].
  destruct (v1 r2) as [v r3| |]; try apply refines_refl.
  destruct (skip_ws r3) as [|d r4]; [apply refines_refl|].
  destruct (N.eqb d 44); [|apply refines_refl].
  destruct (Hm r4) as [-> | <-]; [now left | apply refines_refl].
Qed.

Lemma parse_mono_step (fuel : nat) :
  (forall cs, refines (parse_value fuel cs) (parse_value (S fuel) cs))
  /\ (forall cs, refines (parse_elements fuel cs) (parse_elements (S fuel) cs))
  /\ (forall cs, refines (parse_members fuel cs) (parse_members (S fuel) cs)).
Proof.
  induction fuel as [|fuel (IHv & IHe & IHm)].
  - repeat split; intros cs; now left.
  - repeat split; intros cs.
    + now apply value_body_mono.
    + now apply elements_body_mono.
    + now apply members_body_mono.
Qed.

Lemma parse_mono (f f' : nat) :
  (f <= f')%nat ->
  (forall cs, refines (parse_value f cs) (parse_value f' cs))
  /\ (forall cs, refines (parse_elements f cs) (parse_elements f' cs))
  /\ (forall cs, refines (parse_members f cs) (parse_members f' cs)).
Proof.
  induction 1 as [|f' Hle (IHv & IHe & IHm)].
  - repeat split; intros cs; apply refines_refl.
  - destruct (parse_mono_step f') as (Sv & Se & Sm).
    repeat split; intros cs; eapply refines_trans; eauto.
Qed.

Lemma parse_value_more_fuel (f f' : nat) (cs : jstring) v rest :
  (f <= f')%nat ->
  parse_value f cs = Parsed v rest -> parse_value f' cs = Parsed v rest.
Proof.
  intros Hle H. destruct (parse_mono _ _ Hle) as (Hv & _).
  destruct (Hv cs) as [E | E]; congruence.
Qed.

(** Whatever some amount of fuel yields, [fuel_for] yields too. *)
Lemma parse_value_at_fuel_for (f : nat) (text : jstring) v rest :
  parse_value f text = Parsed v rest ->
  parse_value (fuel_for text) text = Parsed v rest.
Proof.
  intros H. destruct (Nat.le_ge_cases f (fuel_for text)) as [Hle | Hge].
  - eapply parse_value_more_fuel; eauto.
  - destruct (parse_mono _ _ Hge) as (Hv & _).
    destruct (Hv text) as [E | E]; [|congruence].
    now apply parse_value_fuel_for in E.
Qed.

(** ** Strings: [parse_chars] inverts [quote_chars] *)

Lemma hex_digit_hex_char (d : N) : d < 16 -> hex_digit (hex_char d) = Some d.
Proof.
  intros H.
  assert (E : d = 0 \/ d = 1 \/ d = 2 \/ d = 3 \/ d = 4 \/ d = 5 \/ d = 6
              \/ d = 7 \/ d = 8 \/ d = 9 \/ d = 10 \/ d = 11 \/ d = 12
              \/ d = 13 \/ d = 14 \/ d = 15) by lia.
  repeat (destruct E as [-> | E]; [reflexivity|]). now subst.
Qed.

Lemma hex4_of_code_unit (c : N) :
  c < 65536 ->
  hex4 (hex_char (c / 4096)) (hex_char ((c / 256) mod 16))
       (hex_char ((c / 16) mod 16)) (hex_char (c mod 16)) = Some c.
Proof.
  intros H. unfold hex4.
  rewrite !hex_digit_hex_char.
  - f_equal.
    assert (D1 : c / 16 / 16 = c / 256) by now rewrite N.Div0.div_div.
    assert (D2 : c / 256 / 16 = c / 4096) by now rewrite N.Div0.div_div.
    pose proof (N.div_mod c 16 ltac:(lia)) as E0.
    pose proof (N.div_mod (c / 16) 16 ltac:(lia)) as E1.
    pose proof (N.div_mod (c / 256) 16 ltac:(lia)) as E2.
    rewrite D1 in E1. rewrite D2 in E2. lia.
  - apply N.mod_lt; lia.
  - apply N.mod_lt; lia.
  - apply N.mod_lt; lia.
  - apply N.Div0.div_lt_upper_bound. lia.
Qed.

Lemma parse_chars_unicode_escape (c : N) (cs : jstring) :
  c < 65536 ->
  parse_chars (unicode_escape c ++ cs) = cons_fst c (parse_chars cs).
Proof.
  intros H. unfold unicode_escape.
  cbn [List.app parse_chars N.eqb Pos.eqb].
  now rewrite hex4_of_code_unit.
Qed.

Lemma parse_chars_raw (c : N) (cs : jstring) :
  c <> 34 -> c <> 92 -> 32 <= c ->
  parse_chars (c :: cs) = cons_fst c (parse_chars cs).
Proof.
  intros H1 H2 H3. cbn [parse_chars].
  apply N.eqb_neq in H1, H2. rewrite H1, H2.
  assert (E : N.ltb c 32 = false) by (apply N.ltb_ge; lia).
  now rewrite E.
Qed.

Lemma parse_chars_quote_char (c : N) (cs : jstring) :
  parse_chars (quote_char c ++ cs) = cons_fst c (parse_chars cs).
Proof.
  unfold quote_char.
  destruct (N.eqb_spec c 8) as [->|N8]; [reflexivity|].
  destruct (N.eqb_spec c 9) as [->|N9]; [reflexivity|].
  destruct (N.eqb_spec c 10) as [->|N10]; [reflexivity|].
  destruct (N.eqb_spec c 12) as [->|N12]; [reflexivity|].
  destruct (N.eqb_spec c 13) as [->|N13]; [reflexivity|].
  destruct (N.eqb_spec c 34) as [->|N34]; [reflexivity|].
  destruct (N.eqb_spec c 92) as [->|N92]; [reflexivity|].
  destruct (N.ltb_spec c 32) as [Hlt|Hge].
  - apply parse_chars_unicode_escape. lia.
  - now apply parse_chars_raw.
Qed.

Lemma parse_chars_quote_chars (s rest : jstring) :
  parse_chars (quote_chars s ++ 34 :: rest) = Some (s, rest).
Proof.
  remember (List.length s) as n eqn:Hn. revert s Hn.
  induction n as [n IH] using lt_wf_ind; intros s Hn.
  destruct s as [|c s1]; [reflexivity|].
  cbn [quote_chars].
  destruct (is_high_surrogate c) eqn:Hh.
  - unfold is_high_surrogate in Hh. apply andb_true_iff in Hh as [H1 H2].
    apply N.leb_le in H1, H2.
    destruct s1 as [|d s2].
    + rewrite parse_chars_unicode_escape by lia. reflexivity.
    + destruct (is_low_surrogate d) eqn:Hl.
      * unfold is_low_surrogate in Hl. apply andb_true_iff in Hl as [H3 H4].
        apply N.leb_le in H3, H4.
        cbn [List.app]. rewrite !parse_chars_raw by lia.
        rewrite (IH (List.length s2)); simpl in *; try lia; reflexivity.
      * rewrite <- List.app_assoc, parse_chars_unicode_escape by lia.
        rewrite (IH (List.length (d :: s2))); simpl in *; try lia; reflexivity.
  - destruct (is_low_surrogate c) eqn:Hl.
    + unfold is_low_surrogate in Hl. apply andb_true_iff in Hl as [H3 H4].
      apply N.leb_le in H3, H4.
      rewrite <- List.app_assoc, parse_chars_unicode_escape by lia.
      rewrite (IH (List.length s1)); simpl in *; try lia; reflexivity.
    + rewrite <- List.app_assoc, parse_chars_quote_char.
      rewrite (IH (List.length s1)); simpl in *; try lia; reflexivity.
Qed.

(** ** Numbers: [parse_number] inverts [stringify_number] *)

Lemma digit_of_char_of_digit (d : digits) :
  digit_of_char (char_of_digit d) = Some d.
Proof. destruct d; reflexivity. Qed.

Lemma read_digits_app (ds : list digits) (rest : jstring) :
  match rest with [] => True | c :: _ => digit_of_char c = None end ->
  read_digits (List.map char_of_digit ds ++ rest) = (ds, rest).
Proof.
  intros Hrest. induction ds as [|d ds IH]; simpl.
  - destruct rest as [|c rest']; [reflexivity|]. simpl. now rewrite Hrest.
  - now rewrite digit_of_char_of_digit, IH.
Qed.

Lemma to_uint_normal (n : N) : unorm (N.to_uint n) = N.to_uint n.
Proof.
  rewrite <- (DecimalN.Unsigned.of_to n) at 2.
  now rewrite DecimalN.Unsigned.to_of.
Qed.

Lemma int_ok_lunorm (l : list digits) : int_ok (lunorm l) = true.
Proof.
  unfold lunorm. destruct (lnzhead l) as [|h t] eqn:E; [reflexivity|].
  destruct h; try (destruct t; reflexivity).
  exfalso. exact (lnzhead_neq_d0_head l t E).
Qed.

Lemma int_ok_to_uint (n : N) : int_ok (to_list (N.to_uint n)) = true.
Proof. rewrite <- to_uint_normal, unorm_spec. apply int_ok_lunorm. Qed.

Lemma N_of_digits_to_uint (n : N) : N_of_digits (to_list (N.to_uint n)) = n.
Proof.
  unfold N_of_digits. rewrite of_list_to_list. apply DecimalN.Unsigned.of_to.
Qed.

Lemma to_uint_nonempty (n : N) : to_list (N.to_uint n) <> [].
Proof.
  pose proof (int_ok_to_uint n) as H. now apply int_ok_nonempty in H.
Qed.

Lemma decimal_of_N_head (n : N) :
  exists d ds, decimal_of_N n = char_of_digit d :: ds.
Proof.
  unfold decimal_of_N. pose proof (to_uint_nonempty n) as Hn.
  destruct (to_list (N.to_uint n)) as [|d ds]; [congruence|].
  now exists d, (List.map char_of_digit ds).
Qed.

Lemma signed_abs (z : Z) : signed (Z.ltb z 0) (Z.abs_N z) = z.
Proof.
  unfold signed. rewrite N2Z.inj_abs_N.
  destruct (Z.ltb_spec z 0); lia.
Qed.

Lemma exp_digits_decimal (neg : bool) (n : N) (rest : jstring) :
  number_follow rest ->
  exp_digits neg (decimal_of_N n ++ rest) = Some (signed neg n, rest).
Proof.
  intros Hf. unfold exp_digits, decimal_of_N.
  rewrite read_digits_app.
  - pose proof (to_uint_nonempty n) as Hne.
    pose proof (N_of_digits_to_uint n) as Hv. revert Hne Hv.
    destruct (to_list (N.to_uint n)); intros Hne Hv; [congruence|].
    now rewrite Hv.
  - destruct rest; [exact I | apply Hf].
Qed.

Lemma char_of_digit_not_special (d : digits) :
  let c := char_of_digit d in
  N.eqb c 45 = false /\ N.eqb c 43 = false /\ N.eqb c 123 = false
  /\ N.eqb c 91 = false /\ N.eqb c 34 = false /\ N.eqb c 116 = false
  /\ N.eqb c 102 = false /\ N.eqb c 110 = false /\ is_ws c = false
  /\ N.eqb c 93 = false /\ N.eqb c 125 = false.
Proof. destruct d; repeat split; reflexivity. Qed.

(** The exponent part written by [stringify_number]. *)
Lemma parse_exp_absent (rest : jstring) :
  number_follow rest -> parse_exp rest = Some (0%Z, rest).
Proof.
  intros Hf. unfold parse_exp. destruct rest as [|c rest']; [reflexivity|].
  destruct Hf as (_ & _ & H1 & H2).
  apply N.eqb_neq in H1, H2. now rewrite H1, H2.
Qed.

Lemma parse_exp_present (e : Z) (rest : jstring) :
  number_follow rest ->
  parse_exp (101 :: stringify_Z e ++ rest) = Some (e, rest).
Proof.
  intros Hf. unfold parse_exp, stringify_Z. cbn [N.eqb Pos.eqb orb].
  destruct (Z.ltb e 0) eqn:Hneg.
  - cbn [List.app N.eqb Pos.eqb]. rewrite exp_digits_decimal by assumption.
    rewrite <- Hneg, signed_abs. reflexivity.
  - destruct (decimal_of_N_head (Z.abs_N e)) as (d & ds & Hd).
    destruct (char_of_digit_not_special d) as (H45 & H43 & _).
    cbn zeta in H45, H43.
    pose proof (@exp_digits_decimal false (Z.abs_N e) rest Hf) as P.
    rewrite Hd in *. cbn [List.app] in *. rewrite H43, H45, P.
    rewrite <- Hneg, signed_abs. reflexivity.
Qed.

Lemma parse_unsigned_integer (neg : bool) (n : N) (e : Z) (tail rest : jstring) :
  match tail with
  | [] => True
  | c :: _ => digit_of_char c = None /\ c <> 46
  end ->
  parse_exp tail = Some (e, rest) ->
  parse_unsigned neg (decimal_of_N n ++ tail)
  = Some (VNumber (signed neg n) e, rest).
Proof.
  intros Ht He. unfold parse_unsigned, decimal_of_N.
  rewrite read_digits_app by (destruct tail; [exact I | apply Ht]).
  rewrite int_ok_to_uint.
  assert (Hfrac : parse_frac tail = Some ([], tail)).
  { unfold parse_frac. destruct tail as [|c tail']; [reflexivity|].
    destruct Ht as (_ & H). apply N.eqb_neq in H. now rewrite H. }
  rewrite Hfrac, He.
  rewrite List.app_nil_r, N_of_digits_to_uint. simpl List.length.
  now rewrite Z.sub_0_r.
Qed.

Lemma parse_unsigned_stringify (neg : bool) (n : N) (e : Z) (rest : jstring) :
  number_follow rest ->
  parse_unsigned neg
    (decimal_of_N n ++ (if Z.eqb e 0 then rest else 101 :: stringify_Z e ++ rest))
  = Some (VNumber (signed neg n) e, rest).
Proof.
  intros Hf. destruct (Z.eqb_spec e 0) as [->|Hne].
  - apply parse_unsigned_integer; [|now apply parse_exp_absent].
    destruct rest as [|c rest']; [exact I|]. split; apply Hf.
  - apply parse_unsigned_integer; [|now apply parse_exp_present].
    split; [reflexivity | discriminate].
Qed.

Lemma parse_number_stringify (m e : Z) (rest : jstring) :
  number_follow rest ->
  parse_number (stringify_number m e ++ rest) = Some (VNumber m e, rest).
Proof.
  intros Hf.
  assert (E : stringify_number m e ++ rest
              = stringify_Z m
                ++ (if Z.eqb e 0 then rest else 101 :: stringify_Z e ++ rest)).
  { unfold stringify_number. destruct (Z.eqb e 0); [reflexivity|].
    now rewrite <- List.app_assoc. }
  rewrite E. unfold stringify_Z at 1, parse_number.
  destruct (Z.ltb m 0) eqn:Hneg.
  - cbn [List.app N.eqb Pos.eqb]. rewrite parse_unsigned_stringify by assumption.
    now rewrite <- Hneg, signed_abs.
  - destruct (decimal_of_N_head (Z.abs_N m)) as (d & ds & Hd).
    pose proof (@parse_unsigned_stringify false (Z.abs_N m) e rest Hf) as P.
    rewrite Hd in *. cbn [List.app] in *.
    destruct (char_of_digit_not_special d) as (H45 & _).
    cbn zeta in H45. rewrite H45, P.
    now rewrite <- Hneg, signed_abs.
Qed.

(** ** Values: [parse] inverts [stringify] *)

Lemma parse_elements_more_fuel (f f' : nat) (cs : jstring) vs rest :
  (f <= f')%nat ->
  parse_elements f cs = Parsed vs rest -> parse_elements f' cs = Parsed vs rest.
Proof.
  intros Hle H. destruct (parse_mono _ _ Hle) as (_ & He & _).
  destruct (He cs) as [E | E]; congruence.
Qed.

Lemma parse_members_more_fuel (f f' : nat) (cs : jstring) ms rest :
  (f <= f')%nat ->
  parse_members f cs = Parsed ms rest -> parse_members f' cs = Parsed ms rest.
Proof.
  intros Hle H. destruct (parse_mono _ _ Hle) as (_ & _ & Hm).
  destruct (Hm cs) as [E | E]; congruence.
Qed.

Lemma stringify_array (items : list value) :
  stringify (VArray items)
  = Some (91 :: join_commas (List.map item_text items) ++ [93]).
Proof. reflexivity. Qed.

Lemma stringify_object (members : list (jstring * value)) :
  stringify (VObject members)
  = Some (123 :: join_commas (List.flat_map member_texts members) ++ [125]).
Proof. reflexivity. Qed.

Lemma skip_ws_starts_value (t rest : jstring) :
  starts_value t = true -> skip_ws (t ++ rest) = t ++ rest.
Proof.
  destruct t as [|c t]; [discriminate|]. simpl.
  intros H. apply andb_true_iff in H as [H _].
  apply andb_true_iff in H as [H _].
  apply negb_true_iff in H. now rewrite H.
Qed.

Lemma stringify_Z_starts (z : Z) :
  exists c t, stringify_Z z = c :: t
    /\ (c = 45 \/ exists d, c = char_of_digit d).
Proof.
  unfold stringify_Z. destruct (Z.ltb z 0).
  - eexists _, _. split; [reflexivity | now left].
  - destruct (decimal_of_N_head (Z.abs_N z)) as (d & ds & ->).
    exists (char_of_digit d), ds. split; [reflexivity | right; now exists d].
Qed.

Lemma stringify_number_starts (m e : Z) :
  exists c t, stringify_number m e = c :: t
    /\ (c = 45 \/ exists d, c = char_of_digit d).
Proof.
  unfold stringify_number.
  destruct (stringify_Z_starts m) as (c & t & -> & Hc).
  destruct (Z.eqb e 0); eexists _, _; (split; [reflexivity | exact Hc]).
Qed.

Lemma stringify_starts_value (v : value) (t : jstring) :
  stringify v = Some t -> starts_value t = true.
Proof.
  destruct v as [| |[|]|m e|s|items|members]; simpl;
    try discriminate; try (intros [= <-]; reflexivity).
  intros [= <-].
  destruct (stringify_number_starts m e) as (c & t & -> & [-> | (d & ->)]);
    [reflexivity|].
  destruct d; reflexivity.
Qed.

Lemma is_json_stringify (v : value) :
  is_json v = true -> exists t, stringify v = Some t.
Proof.
  destruct v as [| |[|]|m e|s|items|members]; simpl;
    try discriminate; intros _; eexists; reflexivity.
Qed.

(** A number, at the head of a text, is read by [parse_number]. *)
Lemma value_body_number elements_p members_p (m e : Z) (rest : jstring) :
  number_follow rest ->
  value_body elements_p members_p (stringify_number m e ++ rest)
  = Parsed (VNumber m e) rest.
Proof.
  intros Hf. pose proof (@parse_number_stringify m e rest Hf) as P.
  unfold value_body.
  destruct (stringify_number_starts m e) as (c & t & E & Hc).
  rewrite E in *. cbn [List.app] in *.
  destruct Hc as [-> | (d & ->)].
  - cbn. cbn in P. now rewrite P.
  - destruct (char_of_digit_not_special d)
      as (_ & _ & H1 & H2 & H3 & H4 & H5 & H6 & H7 & _).
    cbn zeta in *. cbn [skip_ws]. rewrite H7, H1, H2, H3, H4, H5, H6.
    now rewrite P.
Qed.

(** The items of a non-empty array, after the opening bracket. *)
Lemma roundtrip_elements (xs : list value) :
  forall (x : value) (rest : jstring),
    Forall roundtrips (x :: xs) ->
    List.forallb is_json (x :: xs) = true ->
    exists fuel,
      parse_elements fuel
        (join_commas (List.map item_text (x :: xs)) ++ 93 :: rest)
      = Parsed (x :: xs) rest.
Proof.
  induction xs as [|y ys IH]; intros x rest Hall Hjson.
  - inversion Hall as [|? ? Hx _]; subst.
    simpl in Hjson. rewrite andb_true_r in Hjson.
    destruct (Hx Hjson) as (t & Et & Hp).
    destruct (Hp (93 :: rest)) as (f & Hf);
      [simpl; repeat split; discriminate|].
    exists (S f). cbn [List.map join_commas List.flat_map parse_elements].
    unfold item_text. rewrite Et, List.app_nil_r.
    unfold elements_body. rewrite Hf. reflexivity.
  - inversion Hall as [|? ? Hx Hrest]; subst.
    cbn [List.forallb] in Hjson. apply andb_true_iff in Hjson as [Jx Jrest].
    destruct (Hx Jx) as (t & Et & Hp).
    destruct (IH y rest Hrest Jrest) as (f2 & Hf2).
    set (tail := join_commas (List.map item_text (y :: ys)) ++ 93 :: rest)
      in *.
    destruct (Hp (44 :: tail)) as (f1 & Hf1);
      [simpl; repeat split; discriminate|].
    exists (S (Nat.max f1 f2)).
    assert (E : join_commas (List.map item_text (x :: y :: ys)) ++ 93 :: rest
                = t ++ 44 :: tail).
    { subst tail. cbn [List.map join_commas List.flat_map].
      unfold item_text at 1. rewrite Et.
      rewrite <- !List.app_assoc. reflexivity. }
    rewrite E. cbn [parse_elements]. unfold elements_body.
    rewrite (parse_value_more_fuel f1 (Nat.max f1 f2) _ _ _
               (Nat.le_max_l f1 f2) Hf1).
    cbn [skip_ws is_ws N.eqb Pos.eqb orb].
    rewrite (parse_elements_more_fuel f2 (Nat.max f1 f2) _ _ _
               (Nat.le_max_r f1 f2) Hf2).
    reflexivity.
Qed.

(** The members of a non-empty object, after the opening brace. *)
Lemma roundtrip_members (ms : list (jstring * value)) :
  forall (k : jstring) (v : value) (rest : jstring),
    Forall (fun kv => roundtrips (snd kv)) ((k, v) :: ms) ->
    List.forallb (fun kv => is_json (snd kv)) ((k, v) :: ms) = true ->
    exists fuel,
      parse_members fuel
        (join_commas (List.flat_map member_texts ((k, v) :: ms))
         ++ 125 :: rest)
      = Parsed ((k, v) :: ms) rest.
Proof.
  induction ms as [|[k' v'] ms IH]; intros k v rest Hall Hjson.
  - inversion Hall as [|? ? Hv _]; subst. simpl in Hv.
    simpl in Hjson. rewrite andb_true_r in Hjson.
    destruct (Hv Hjson) as (t & Et & Hp).
    destruct (Hp (125 :: rest)) as (f & Hf);
      [simpl; repeat split; discriminate|].
    exists (S f). cbn [List.flat_map]. unfold member_texts.
    cbn [snd fst]. rewrite Et.
    cbn [List.app join_commas List.flat_map]. rewrite List.app_nil_r.
    cbn [parse_members]. unfold members_body, quote.
    cbn [List.app skip_ws is_ws N.eqb Pos.eqb orb].
    rewrite <- !List.app_assoc. cbn [List.app].
    rewrite parse_chars_quote_chars.
    cbn [skip_ws is_ws N.eqb Pos.eqb orb].
    rewrite Hf. reflexivity.
  - inversion Hall as [|? ? Hv Hrest]; subst. simpl in Hv.
    cbn [List.forallb snd] in Hjson.
    apply andb_true_iff in Hjson as [Jv Jrest].
    destruct (Hv Jv) as (t & Et & Hp).
    destruct (IH k' v' rest Hrest Jrest) as (f2 & Hf2).
    set (tail := join_commas (List.flat_map member_texts ((k', v') :: ms))
                 ++ 125 :: rest) in *.
    destruct (Hp (44 :: tail)) as (f1 & Hf1);
      [simpl; repeat split; discriminate|].
    exists (S (Nat.max f1 f2)).
    assert (Jv' : is_json v' = true).
    { cbn [List.forallb snd] in Jrest. now apply andb_true_iff in Jrest. }
    destruct (is_json_stringify v' Jv') as (t' & Et').
    assert (E : join_commas
                  (List.flat_map member_texts ((k, v) :: (k', v') :: ms))
                ++ 125 :: rest
                = 34 :: quote_chars k ++ 34 :: 58 :: t ++ 44 :: tail).
    { subst tail. cbn [List.flat_map].
      assert (M1 : member_texts (k, v) = [quote k ++ 58 :: t])
        by (unfold member_texts; cbn [snd fst]; now rewrite Et).
      assert (M2 : member_texts (k', v') = [quote k' ++ 58 :: t'])
        by (unfold member_texts; cbn [snd fst]; now rewrite Et').
      rewrite M1, M2.
      cbn [List.app join_commas List.flat_map]. unfold quote.
      repeat first [rewrite <- List.app_assoc | progress cbn [List.app]].
      reflexivity. }
    rewrite E. cbn [parse_members]. unfold members_body.
    cbn [skip_ws is_ws N.eqb Pos.eqb orb].
    rewrite parse_chars_quote_chars.
    cbn [skip_ws is_ws N.eqb Pos.eqb orb].
    rewrite (parse_value_more_fuel f1 (Nat.max f1 f2) _ _ _
               (Nat.le_max_l f1 f2) Hf1).
    cbn [skip_ws is_ws N.eqb Pos.eqb orb].
    rewrite (parse_members_more_fuel f2 (Nat.max f1 f2) _ _ _
               (Nat.le_max_r f1 f2) Hf2).
    reflexivity.
Qed.

Lemma roundtrips_all (v : value) : roundtrips v.
Proof.
  induction v as [| |b|m e|s|items IH|members IH] using value_ind;
    unfold roundtrips; intros Hjson.
  - discriminate.
  - exists (js "null"). split; [reflexivity|].
    intros rest _. exists 1%nat. reflexivity.
  - destruct b.
    + exists (js "true"). split; [reflexivity|].
      intros rest _. exists 1%nat. reflexivity.
    + exists (js "false"). split; [reflexivity|].
      intros rest _. exists 1%nat. reflexivity.
  - exists (stringify_number m e). split; [reflexivity|].
    intros rest Hf. exists 1%nat. cbn [parse_value].
    now apply value_body_number.
  - exists (quote s). split; [reflexivity|].
    intros rest _. exists 1%nat. cbn [parse_value]. unfold value_body, quote.
    cbn [List.app skip_ws is_ws N.eqb Pos.eqb orb].
    rewrite <- List.app_assoc. cbn [List.app].
    now rewrite parse_chars_quote_chars.
  - rewrite stringify_array. eexists. split; [reflexivity|].
    intros rest _. destruct items as [|x xs].
    + exists 1%nat. reflexivity.
    + destruct (roundtrip_elements xs x rest IH Hjson) as (f & Hf).
      exists (S f). cbn [parse_value]. unfold value_body.
      cbn [List.app skip_ws is_ws N.eqb Pos.eqb orb].
      rewrite <- List.app_assoc. cbn [List.app].
      assert (Jx : is_json x = true).
      { cbn [is_json List.forallb] in Hjson.
        now apply andb_true_iff in Hjson. }
      destruct (is_json_stringify x Jx) as (t & Et).
      pose proof (stringify_starts_value x t Et) as Hs.
      assert (M1 : item_text x = t) by (unfold item_text; now rewrite Et).
      revert Hf. cbn [List.map join_commas]. rewrite M1, <- !List.app_assoc.
      destruct t as [|c t]; [discriminate|].
      cbn [starts_value] in Hs.
      apply andb_true_iff in Hs as [Hs H125].
      apply andb_true_iff in Hs as [Hws H93].
      apply negb_true_iff in Hws, H93.
      cbn [List.app skip_ws]. rewrite Hws, H93.
      now intros ->.
  - rewrite stringify_object. eexists. split; [reflexivity|].
    intros rest _. destruct members as [|[k v] ms].
    + exists 1%nat. reflexivity.
    + destruct (roundtrip_members ms k v rest IH Hjson) as (f & Hf).
      exists (S f). cbn [parse_value]. unfold value_body.
      cbn [List.app skip_ws is_ws N.eqb Pos.eqb orb].
      rewrite <- List.app_assoc. cbn [List.app].
      assert (Jv : is_json v = true).
      { cbn [is_json List.forallb snd] in Hjson.
        now apply andb_true_iff in Hjson. }
      destruct (is_json_stringify v Jv) as (t & Et).
      assert (M1 : member_texts (k, v) = [quote k ++ 58 :: t])
        by (unfold member_texts; cbn [snd fst]; now rewrite Et).
      revert Hf. cbn [List.flat_map]. rewrite M1.
      cbn [List.app join_commas]. unfold quote.
      cbn [List.app skip_ws is_ws N.eqb Pos.eqb orb].
      now intros ->.
Qed.

(** [JSON.parse(JSON.stringify(v))] is [v], for every JSON value [v]. *)
Lemma parse_stringify (v : value) :
  is_json v = true ->
  exists t, stringify v = Some t /\ parse t = Ok v.
Proof.
  intros Hjson. destruct (roundtrips_all v Hjson) as (t & Et & Hp).
  exists t. split; [exact Et|].
  destruct (Hp [] I) as (f & Hf). rewrite List.app_nil_r in Hf.
  unfold parse. now rewrite (parse_value_at_fuel_for f t v [] Hf).
Qed.

End JsonFacts.

(* ================================================================== *)
(** * The repairer *)
(* ================================================================== *)

Lemma JSON_parse_stringify (v : value) :
  is_json v = true ->
  exists t, JSON_stringify v = Some t /\ JSON_parse t = Ok v.
Proof. apply JsonFacts.parse_stringify. Qed.

(** [JSON.parse] raises nothing but a [SyntaxError]. *)
Lemma JSON_parse_throws (text : jstring) (e : js_error) :
  JSON_parse text = Throw e -> e = SyntaxError.
Proof.
  unfold JSON_parse, Json.parse.
  destruct (Json.parse_value (Json.fuel_for text) text) as [v rest| |];
    try (now intros [= <-]).
  destruct (Json.skip_ws rest); [discriminate | now intros [= <-]].
Qed.

(** A text that starts with a backquote is not JSON. *)
Lemma JSON_parse_backquote (cs : jstring) :
  JSON_parse (96%N :: cs) = Throw SyntaxError.
Proof. reflexivity. Qed.

(** ** The regular expression *)

Lemma upto_last_close_none (cs : jstring) :
  upto_last_close cs = None <-> ~ In 125%N cs.
Proof.
  induction cs as [|c cs IH]; simpl.
  - split; [intros _ [] | reflexivity].
  - destruct (upto_last_close cs) as [m|].
    + split; [discriminate|]. intros H. exfalso.
      assert (Hn : ~ In 125%N cs) by (intros Hin; apply H; now right).
      apply IH in Hn. discriminate.
    + destruct (N.eqb_spec c 125) as [->|Hc].
      * split; [discriminate|]. intros H. exfalso. apply H. now left.
      * split; [|reflexivity]. intros _ [E|Hin]; [congruence|].
        now apply (proj1 IH).
Qed.

Lemma upto_last_close_some (cs m : jstring) :
  upto_last_close cs = Some m <->
  exists mid post, cs = mid ++ 125%N :: post /\ ~ In 125%N post
                   /\ m = mid ++ [125%N].
Proof.
  revert m; induction cs as [|c cs IH]; intros m; simpl.
  - split; [discriminate|]. intros (mid & post & E & _).
    destruct mid; discriminate.
  - destruct (upto_last_close cs) as [m'|] eqn:Eu.
    + split.
      * intros [= <-].
        destruct (proj1 (IH m') eq_refl) as (mid & post & -> & Hp & ->).
        now exists (c :: mid), post.
      * intros (mid & post & E & Hp & ->).
        destruct mid as [|x mid]; simpl in E; inversion E; subst.
        -- apply upto_last_close_none in Hp. congruence.
        -- simpl. f_equal. f_equal.
           assert (H : Some m' = Some (mid ++ [125%N])).
           { apply IH. now exists mid, post. }
           congruence.
    + apply upto_last_close_none in Eu.
      destruct (N.eqb_spec c 125) as [->|Hc].
      * split.
        -- intros [= <-]. now exists [], cs.
        -- intros (mid & post & E & Hp & ->).
           destruct mid as [|x mid]; simpl in E; inversion E; subst;
             [reflexivity|].
           exfalso. apply Eu. apply in_or_app. right. now left.
      * split; [discriminate|].
        intros (mid & post & E & Hp & ->).
        destruct mid as [|x mid]; simpl in E; inversion E; subst;
          [congruence|].
        exfalso. apply Eu. apply in_or_app. right. now left.
Qed.

(** What the expression matches is the part of the text from its first
    opening brace through its last closing brace. *)
Lemma match_braces_some (text m : jstring) :
  match_braces text = Some m <-> brace_span text m.
Proof.
  revert m; induction text as [|c text IH]; intros m; simpl.
  - split; [discriminate|]. intros (pre & mid & post & E & _).
    destruct pre; discriminate.
  - destruct (N.eqb_spec c 123) as [->|Hc].
    + destruct (upto_last_close text) as [m'|] eqn:Eu.
      * split.
        -- intros [= <-].
           apply upto_last_close_some in Eu as (mid & post & -> & Hp & ->).
           exists [], mid, post. repeat split; auto.
        -- intros (pre & mid & post & E & Hpre & Hpost & ->).
           destruct pre as [|x pre]; simpl in E; inversion E; subst.
           ++ f_equal. f_equal.
              assert (H : upto_last_close (mid ++ 125%N :: post)
                          = Some (mid ++ [125%N])).
              { apply upto_last_close_some. now exists mid, post. }
              congruence.
           ++ exfalso. apply Hpre. now left.
      * apply upto_last_close_none in Eu. split.
        -- intros H. apply IH in H as (pre & mid & post & -> & _).
           exfalso. apply Eu. apply in_or_app. right. right.
           apply in_or_app. right. now left.
        -- intros (pre & mid & post & E & Hpre & Hpost & ->).
           destruct pre as [|x pre]; simpl in E; inversion E; subst.
           ++ exfalso. apply Eu. apply in_or_app. right. now left.
           ++ exfalso. apply Hpre. now left.
    + rewrite IH. split.
      * intros (pre & mid & post & -> & Hpre & Hpost & ->).
        exists (c :: pre), mid, post. repeat split; auto.
        intros [E|Hin]; [congruence | contradiction].
      * intros (pre & mid & post & E & Hpre & Hpost & ->).
        destruct pre as [|x pre]; simpl in E; inversion E; subst;
          [congruence|].
        exists pre, mid, post. repeat split; auto.
        intros Hin. apply Hpre. now right.
Qed.

Lemma upto_last_close_found (cs : jstring) :
  In 125%N cs -> exists m, upto_last_close cs = Some m.
Proof.
  intros Hin. destruct (upto_last_close cs) as [m|] eqn:E; [now exists m|].
  apply upto_last_close_none in E. contradiction.
Qed.

(** A match exists exactly when some opening brace is followed by a
    closing brace. *)
Lemma match_braces_found (text : jstring) :
  has_brace_span text <-> exists m, match_braces text = Some m.
Proof.
  split.
  - intros (a & b & c & ->).
    assert (Hin : forall l, In 125%N (l ++ 123%N :: b ++ 125%N :: c)).
    { intros l. apply in_or_app. right. right.
      apply in_or_app. right. now left. }
    induction a as [|x a IH]; simpl.
    + destruct (upto_last_close_found (b ++ 125%N :: c)) as (m & ->).
      { apply in_or_app. right. now left. }
      now eexists.
    + destruct (N.eqb x 123); [|exact IH].
      destruct (upto_last_close_found _ (Hin a)) as (m & ->).
      now eexists.
  - intros (m & Hm). apply match_braces_some in Hm
      as (pre & mid & post & -> & _). now exists pre, mid, post.
Qed.

Lemma match_braces_none (text : jstring) :
  match_braces text = None <-> ~ has_brace_span text.
Proof.
  rewrite match_braces_found. split.
  - intros H (m & Hm). congruence.
  - intros H. destruct (match_braces text) as [m|]; [|reflexivity].
    exfalso. apply H. now exists m.
Qed.

(** ** [repairJson] *)

Lemma repairJson_direct (text : jstring) (v : value) :
  JSON_parse text = Ok v -> repairJson text = Ok v.
Proof. unfold repairJson. now intros ->. Qed.

Lemma repairJson_extract (text m : jstring) (e : js_error) :
  JSON_parse text = Throw e -> match_braces text = Some m ->
  repairJson text = JSON_parse m.
Proof. unfold repairJson. now intros -> ->. Qed.

Lemma repairJson_no_match (text : jstring) (e : js_error) :
  JSON_parse text = Throw e -> match_braces text = None ->
  repairJson text = Throw (JsError (js "No JSON found")).
Proof. unfold repairJson. now intros -> ->. Qed.

(** When [repairJson] fails. *)
Lemma repairJson_throws (text : jstring) (e : js_error) :
  repairJson text = Throw e <->
  (exists e0, JSON_parse text = Throw e0)
  /\ ((match_braces text = None /\ e = JsError (js "No JSON found"))
      \/ (exists m, match_braces text = Some m /\ JSON_parse m = Throw e)).
Proof.
  unfold repairJson. destruct (JSON_parse text) as [v|e0].
  - split; [discriminate|]. intros ((e0 & H) & _). discriminate.
  - destruct (match_braces text) as [m|].
    + split.
      * intros H. split; [now exists e0|]. right. now exists m.
      * intros (_ & [(H & _) | (m' & [= <-] & H)]); [discriminate | exact H].
    + split.
      * intros [= <-]. split; [now exists e0|]. now left.
      * intros (_ & [(_ & ->) | (m' & H & _)]); [reflexivity | discriminate].
Qed.

(** The text [stringify] writes for an object is enclosed in braces. *)
Lemma stringify_object_braces (v : value) (t : jstring) :
  is_object v = true -> JSON_stringify v = Some t ->
  exists mid, t = 123%N :: mid ++ [125%N].
Proof.
  destruct v; try discriminate. intros _.
  unfold JSON_stringify. rewrite JsonFacts.stringify_object.
  intros [= <-]. eexists. reflexivity.
Qed.

(** A fence around the text of an object is undone. *)
Lemma repairJson_fenced (v : value) (t : jstring) :
  is_json v = true -> is_object v = true -> JSON_stringify v = Some t ->
  repairJson (fenced t) = Ok v.
Proof.
  intros Hjson Hobj Ht.
  destruct (stringify_object_braces v t Hobj Ht) as (mid & ->).
  destruct (JSON_parse_stringify v Hjson) as (t' & Et' & Hp).
  assert (t' = 123%N :: mid ++ [125%N]) by congruence. subst t'.
  rewrite (repairJson_extract (fenced (123%N :: mid ++ [125%N]))
             (123%N :: mid ++ [125%N]) SyntaxError);
    [exact Hp | exact (JSON_parse_backquote _) |].
  apply match_braces_some.
  exists (js "```json" ++ [10%N]), mid, (10%N :: js "```").
  repeat split.
  - unfold fenced. rewrite <- !List.app_assoc. cbn [List.app].
    rewrite <- List.app_assoc. reflexivity.
  - simpl. intros H.
    repeat (destruct H as [H|H]; [discriminate|]). exact H.
  - simpl. intros H.
    repeat (destruct H as [H|H]; [discriminate|]). exact H.
Qed.

(* ================================================================== *)
(** * The normalizer *)
(* ================================================================== *)

(** ** Property reads *)

Lemma prop_get_readable (v : value) (k : jstring) :
  readable v = true -> prop_get v k = Ok (field v k).
Proof. unfold field. destruct v; simpl; intros H; congruence. Qed.

Lemma prop_get_unreadable (v : value) (k : jstring) :
  readable v = false -> prop_get v k = Throw TypeError.
Proof. destruct v; simpl; intros H; congruence. Qed.

Lemma prop_get_ok (v : value) (k : jstring) (w : value) :
  prop_get v k = Ok w -> readable v = true /\ field v k = w.
Proof.
  intros H. destruct (readable v) eqn:R.
  - rewrite (prop_get_readable v k R) in H. split; congruence.
  - rewrite (prop_get_unreadable v k R) in H. discriminate.
Qed.

Lemma prop_get_throws (v : value) (k : jstring) (e : js_error) :
  prop_get v k = Throw e -> readable v = false /\ e = TypeError.
Proof.
  intros H. destruct (readable v) eqn:R.
  - rewrite (prop_get_readable v k R) in H. discriminate.
  - rewrite (prop_get_unreadable v k R) in H. split; congruence.
Qed.

Lemma js_or_idempotent (a d : value) : js_or (js_or a d) d = js_or a d.
Proof.
  unfold js_or. destruct (truthy a) eqn:Ta; [now rewrite Ta|].
  destruct (truthy d); reflexivity.
Qed.

(** With a string for default, [a || d] is never [undefined]; it is a
    string when [a] is a string, [undefined] or [null]. *)
Lemma js_or_defined (a : value) (d : jstring) :
  js_or a (VString d) <> VUndefined.
Proof. unfold js_or. destruct a; simpl; try discriminate.
  - destruct b; discriminate.
  - destruct (negb (Z.eqb m 0)); discriminate.
  - destruct s; discriminate.
Qed.

Lemma js_or_string (a : value) (d : jstring) :
  a = VUndefined \/ a = VNull \/ is_string a = true ->
  is_string (js_or a (VString d)) = true.
Proof.
  intros [-> | [-> | H]]; try reflexivity.
  destruct a; try discriminate. unfold js_or. simpl. now destruct s.
Qed.

(** ** The loop that builds the edges *)

Lemma edges_loop_ok (ns : list value) (count : nat) :
  forall (i : nat) (acc es : list Link),
    edges_loop ns count i acc = Ok es ->
    es = acc ++ List.map (link_at ns) (seq i count)
    /\ forall j, i <= j < i + count ->
         readable (nth j ns VUndefined) = true
         /\ readable (nth (j + 1) ns VUndefined) = true.
Proof.
  induction count as [|count IH]; intros i acc es; simpl.
  - intros [= <-]. split; [now rewrite List.app_nil_r | lia].
  - destruct (prop_get (nth i ns VUndefined) (js "id")) as [s|e] eqn:Es;
      [|discriminate].
    destruct (prop_get (nth (i + 1) ns VUndefined) (js "id")) as [t|e] eqn:Et;
      [|discriminate].
    simpl. intros H. apply IH in H as [-> Hr].
    apply prop_get_ok in Es as [Rs <-]. apply prop_get_ok in Et as [Rt <-].
    split.
    + assert (E1 : seq (i + 1) count = seq (S i) count) by (f_equal; lia).
      rewrite <- List.app_assoc, E1. reflexivity.
    + intros j Hj. destruct (Nat.eq_dec j i) as [->|Hne]; [now split|].
      apply Hr. lia.
Qed.

Lemma edges_loop_total (ns : list value) (count : nat) :
  forall (i : nat) (acc : list Link),
    (forall j, i <= j <= i + count -> 0 < count ->
               readable (nth j ns VUndefined) = true) ->
    edges_loop ns count i acc
    = Ok (acc ++ List.map (link_at ns) (seq i count)).
Proof.
  induction count as [|count IH]; intros i acc Hr; simpl.
  - now rewrite List.app_nil_r.
  - rewrite (prop_get_readable _ _ (Hr i ltac:(lia) ltac:(lia))).
    rewrite (prop_get_readable _ _ (Hr (i + 1) ltac:(lia) ltac:(lia))).
    simpl. rewrite IH.
    + assert (E1 : seq (i + 1) count = seq (S i) count) by (f_equal; lia).
      rewrite <- List.app_assoc, E1. reflexivity.
    + intros j Hj _. apply Hr; lia.
Qed.

Lemma chain_of_length (ns : list value) :
  List.length (chain_of ns) = List.length ns - 1.
Proof. unfold chain_of. now rewrite List.length_map, List.length_seq. Qed.

Lemma chain_of_nth (ns : list value) (i : nat) :
  i < List.length ns - 1 ->
  nth_error (chain_of ns) i = Some (link_at ns i).
Proof.
  intros H. unfold chain_of.
  rewrite nth_error_map, nth_error_nth' with (d := 0)
    by (rewrite List.length_seq; exact H).
  simpl. now rewrite seq_nth.
Qed.

Lemma readable_nth (ns : list value) (j : nat) :
  List.forallb readable ns = true -> j < List.length ns ->
  readable (nth j ns VUndefined) = true.
Proof.
  intros H Hj. rewrite forallb_forall in H. apply H. now apply nth_In.
Qed.

(** ** The steps *)

Lemma step_of_ok (s : value) (i : nat) :
  readable s = true ->
  exists t d u r,
    step_of s i
    = Ok (VObject
            [(js "id", VString (js "step_" ++ decimal_of_nat (i + 1)));
             (js "title", t); (js "description", d); (js "duration", u);
             (js "type", VString (js "task")); (js "resources", r)]).
Proof.
  intros R. unfold step_of.
  rewrite !(prop_get_readable s _ R). simpl.
  destruct (is_string s); simpl; repeat eexists.
Qed.

Lemma step_of_throws (s : value) (i : nat) :
  readable s = false -> step_of s i = Throw TypeError.
Proof. destruct s; try discriminate; reflexivity. Qed.

Lemma step_of_inv (s : value) (i : nat) (n : value) :
  step_of s i = Ok n ->
  readable s = true /\ readable n = true
  /\ field n (js "id") = VString (js "step_" ++ decimal_of_nat (i + 1))
  /\ field n (js "type") = VString (js "task").
Proof.
  intros H. destruct (readable s) eqn:R.
  - destruct (step_of_ok s i R) as (t & d & u & r & E).
    rewrite E in H. injection H as <-. repeat split; reflexivity.
  - rewrite (step_of_throws s i R) in H. discriminate.
Qed.

Lemma map_steps_ok (steps : list value) :
  forall (i : nat) (ns : list value),
    map_steps steps i = Ok ns ->
    List.length ns = List.length steps
    /\ List.forallb readable steps = true
    /\ List.forallb readable ns = true
    /\ forall j, j < List.length steps ->
         field (nth j ns VUndefined) (js "id")
         = VString (js "step_" ++ decimal_of_nat (i + j + 1)).
Proof.
  induction steps as [|s steps IH]; intros i ns; simpl.
  - intros [= <-]. repeat split; try reflexivity. intros j Hj; lia.
  - destruct (step_of s i) as [n|e] eqn:En; [|discriminate]. simpl.
    destruct (map_steps steps (i + 1)) as [ns'|e] eqn:Em; [|discriminate].
    simpl. intros [= <-].
    apply step_of_inv in En as (Rs & Rn & Hid & _).
    destruct (IH (i + 1) ns' Em) as (Hlen & Hrs & Hrn & Hids).
    repeat split.
    + simpl. now rewrite Hlen.
    + now rewrite Rs, Hrs.
    + simpl. now rewrite Rn, Hrn.
    + intros [|j] Hj; simpl.
      * now rewrite Nat.add_0_r.
      * rewrite Hids by lia.
        now replace (i + 1 + j + 1) with (i + S j + 1) by lia.
Qed.

Lemma map_steps_canonical (steps : list value) :
  forall (i : nat) (ns : list value),
    map_steps steps i = Ok ns -> Forall canonical_step ns.
Proof.
  induction steps as [|s steps IH]; intros i ns; simpl.
  - intros [= <-]. constructor.
  - destruct (step_of s i) as [n|e] eqn:En; [|discriminate]. simpl.
    destruct (map_steps steps (i + 1)) as [ns'|e] eqn:Em; [|discriminate].
    simpl. intros [= <-]. constructor; [|now apply (IH (i + 1))].
    destruct (readable s) eqn:R.
    + destruct (step_of_ok s i R) as (t & d & u & r & E).
      rewrite E in En. injection En as <-. now eexists _, t, d, u, r.
    + rewrite (step_of_throws s i R) in En. discriminate.
Qed.

Lemma map_steps_total (steps : list value) :
  forall i, List.forallb readable steps = true ->
            exists ns, map_steps steps i = Ok ns.
Proof.
  induction steps as [|s steps IH]; intros i; simpl.
  - now exists [].
  - intros H. apply andb_true_iff in H as [Rs Hrs].
    destruct (step_of_ok s i Rs) as (t & d & u & r & ->). simpl.
    destruct (IH (i + 1) Hrs) as (ns & ->). simpl. now eexists.
Qed.

(** ** [normalizeRoadmap], taken apart and put together *)

Lemma normalizeRoadmap_inv (raw : value) (r : Roadmap) :
  normalizeRoadmap raw = Ok r ->
  readable raw = true
  /\ resolve_nodes raw = Ok (nodes r)
  /\ edges_loop (nodes r) (List.length (nodes r) - 1) 0 [] = Ok (edges r)
  /\ title r = js_or (field raw (js "title")) (VString (js "AI Generated Roadmap"))
  /\ description r = js_or (field raw (js "description")) (VString [])
  /\ estimatedTotalDuration r
     = js_or (field raw (js "estimatedTotalDuration")) (VString [])
  /\ difficulty r = js_or (field raw (js "difficulty")) (VString (js "beginner"))
  /\ category r = js_or (field raw (js "category")) (VString (js "general")).
Proof.
  unfold normalizeRoadmap.
  destruct (resolve_nodes raw) as [ns|e] eqn:En; [|discriminate]. simpl.
  destruct (edges_loop ns (List.length ns - 1) 0 []) as [es|e] eqn:Ee;
    [|discriminate]. simpl.
  assert (R : readable raw = true).
  { unfold resolve_nodes in En.
    destruct (prop_get raw (js "nodes")) as [x|e] eqn:Ex; [|discriminate].
    now apply prop_get_ok in Ex. }
  rewrite !(prop_get_readable raw _ R). simpl.
  intros [= <-]. simpl. repeat split; assumption.
Qed.

Lemma normalizeRoadmap_intro (raw : value) (ns : list value) (es : list Link) :
  resolve_nodes raw = Ok ns ->
  edges_loop ns (List.length ns - 1) 0 [] = Ok es ->
  normalizeRoadmap raw
  = Ok {| title := js_or (field raw (js "title"))
                         (VString (js "AI Generated Roadmap"));
          description := js_or (field raw (js "description")) (VString []);
          nodes := ns;
          edges := es;
          estimatedTotalDuration :=
            js_or (field raw (js "estimatedTotalDuration")) (VString []);
          difficulty := js_or (field raw (js "difficulty"))
                              (VString (js "beginner"));
          category := js_or (field raw (js "category"))
                            (VString (js "general")) |}.
Proof.
  intros En Ee. unfold normalizeRoadmap. rewrite En. simpl. rewrite Ee. simpl.
  assert (R : readable raw = true).
  { unfold resolve_nodes in En.
    destruct (prop_get raw (js "nodes")) as [x|e] eqn:Ex; [|discriminate].
    now apply prop_get_ok in Ex. }
  now rewrite !(prop_get_readable raw _ R).
Qed.

(** The edges are the chain over the nodes, whatever the input holds. *)
Lemma normalizeRoadmap_edges (raw : value) (r : Roadmap) :
  normalizeRoadmap raw = Ok r -> edges r = chain_of (nodes r).
Proof.
  intros H. apply normalizeRoadmap_inv in H as (_ & _ & He & _).
  apply edges_loop_ok in He as [-> _]. reflexivity.
Qed.

(** With readable nodes the loop does not raise. *)
Lemma edges_loop_readable (ns : list value) :
  List.forallb readable ns = true ->
  edges_loop ns (List.length ns - 1) 0 [] = Ok (chain_of ns).
Proof.
  intros H. rewrite edges_loop_total; [reflexivity|].
  intros j Hj Hc. apply readable_nth; [exact H | lia].
Qed.

(** The node list, by cases on the input. *)
Lemma resolve_nodes_array (raw : value) (ns : list value) :
  prop_get raw (js "nodes") = Ok (VArray ns) -> resolve_nodes raw = Ok ns.
Proof. unfold resolve_nodes. now intros ->. Qed.

Lemma resolve_nodes_steps (raw x : value) (steps : list value) :
  prop_get raw (js "nodes") = Ok x -> isArray x = false ->
  prop_get raw (js "steps") = Ok (VArray steps) ->
  resolve_nodes raw = map_steps steps 0.
Proof.
  unfold resolve_nodes. intros -> Hx ->. simpl.
  destruct x; try reflexivity. discriminate.
Qed.

Lemma resolve_nodes_neither (raw x y : value) :
  prop_get raw (js "nodes") = Ok x -> isArray x = false ->
  prop_get raw (js "steps") = Ok y -> isArray y = false ->
  resolve_nodes raw = Ok [].
Proof.
  unfold resolve_nodes. intros -> Hx -> Hy. simpl.
  destruct x; try discriminate; destruct y; try discriminate; reflexivity.
Qed.

(** ** What [normalizeRoadmap] reads of its input *)

Lemma lookup_app_other (k k' : jstring) (v : value)
      (members : list (jstring * value)) :
  jstring_eqb k k' = false ->
  lookup k (members ++ [(k', v)]) = lookup k members.
Proof.
  intros Hk. induction members as [|[k0 v0] members IH]; simpl.
  - now rewrite Hk.
  - now rewrite IH.
Qed.

(** Two inputs that agree on the keys read are normalized alike. *)
Lemma normalizeRoadmap_ext (raw1 raw2 : value) :
  (forall k, In k keys_read -> prop_get raw1 k = prop_get raw2 k) ->
  normalizeRoadmap raw1 = normalizeRoadmap raw2.
Proof.
  intros H. unfold normalizeRoadmap, resolve_nodes.
  rewrite !(H _) by (simpl; tauto). reflexivity.
Qed.

(** An [edges] member added to the input changes nothing. *)
Lemma normalizeRoadmap_ignores_edges (members : list (jstring * value))
      (supplied : value) :
  normalizeRoadmap (VObject (members ++ [(js "edges", supplied)]))
  = normalizeRoadmap (VObject members).
Proof.
  apply normalizeRoadmap_ext. intros k Hk. simpl.
  rewrite lookup_app_other; [reflexivity|].
  simpl in Hk.
  repeat (destruct Hk as [<-|Hk]; [reflexivity|]). contradiction.
Qed.

Lemma field_array_prop_get (raw : value) (k : jstring) (ns : list value) :
  field raw k = VArray ns -> prop_get raw k = Ok (VArray ns).
Proof.
  unfold field. destruct (prop_get raw k); [congruence | discriminate].
Qed.

Lemma field_readable (raw : value) (k : jstring) :
  readable raw = true -> prop_get raw k = Ok (field raw k).
Proof. apply prop_get_readable. Qed.

(** The node list exists, and is readable, when the entries are. *)
Lemma resolve_nodes_total (raw : value) :
  readable raw = true -> entries_readable raw = true ->
  exists ns, resolve_nodes raw = Ok ns /\ List.forallb readable ns = true.
Proof.
  intros R. unfold entries_readable, resolve_nodes.
  rewrite !(prop_get_readable raw _ R). simpl.
  destruct (field raw (js "nodes")) as [| |b|m e|s|ns|ms] eqn:En;
    try (destruct (field raw (js "steps")) as [| |b'|m' e'|s'|steps|ms'];
         intros H;
         try (now exists []);
         destruct (map_steps_total steps 0 H) as (ns' & E);
         exists ns'; split; [exact E|];
         now apply map_steps_ok in E).
  intros H. now exists ns.
Qed.

Lemma normalizeRoadmap_total (raw : value) :
  readable raw = true -> entries_readable raw = true ->
  exists r, normalizeRoadmap raw = Ok r.
Proof.
  intros R H. destruct (resolve_nodes_total raw R H) as (ns & En & Hr).
  eexists. apply (normalizeRoadmap_intro raw ns (chain_of ns) En).
  now apply edges_loop_readable.
Qed.

(* ================================================================== *)
(** * The other implementation *)
(* ================================================================== *)

Module ServerPatchFacts.
Import ServerPatch.

Lemma lookup_app (k : jstring) (ms ms' : list (jstring * value)) :
  lookup k (ms ++ ms')
  = match lookup k ms' with
    | Some v => Some v
    | None => lookup k ms
    end.
Proof.
  induction ms as [|[k0 v0] ms IH]; simpl.
  - now destruct (lookup k ms').
  - rewrite IH. now destruct (lookup k ms').
Qed.

Lemma field_object_app (ms ms' : list (jstring * value)) (k : jstring) :
  field (VObject (ms ++ ms')) k
  = match lookup k ms' with
    | Some v => v
    | None => field (VObject ms) k
    end.
Proof.
  unfold field. simpl. rewrite lookup_app. now destruct (lookup k ms').
Qed.

(** No index is the key id. *)
Lemma lookup_id_indexed {A : Type} (wrap : A -> value) (l : list A) :
  forall i, lookup (js "id") (indexed wrap l i) = None.
Proof.
  induction l as [|x l IH]; intros i; simpl; [reflexivity|].
  rewrite IH. unfold decimal_of_nat.
  destruct (JsonFacts.decimal_of_N_head (N.of_nat i)) as (d & ds & ->).
  destruct d; reflexivity.
Qed.

Lemma lookup_id_spread (node : value) :
  lookup (js "id") (spread node) = own_member node (js "id").
Proof.
  destruct node; simpl; try reflexivity; apply lookup_id_indexed.
Qed.

(** The id of a node the handler rebuilds: the entry's own, or step_n. *)
Lemma node_of_id (node : value) (index : nat) (n : value) :
  node_of node index = Ok n ->
  field n (js "id")
  = match own_member node (js "id") with
    | Some v => v
    | None => VString (js "step_" ++ decimal_of_nat (index + 1))
    end.
Proof.
  unfold node_of. destruct (readable node) eqn:R.
  - rewrite !(prop_get_readable node _ R). cbn [bind]. intros [= <-].
    assert (Hf : own_member node (js "id") = None ->
                 field node (js "id") = VUndefined).
    { intros E. unfold field.
      destruct node; simpl in *; try reflexivity; try discriminate.
      now rewrite E. }
    unfold field at 1. cbn [prop_get lookup]. rewrite lookup_id_spread.
    destruct (own_member node (js "id")) as [v|]; [reflexivity|].
    rewrite (Hf eq_refl). reflexivity.
  - now rewrite (prop_get_unreadable node _ R).
Qed.

Lemma map_nodes_ids (ns : list value) :
  forall (index : nat) (ns' : list value),
    map_nodes ns index = Ok ns' ->
    List.length ns' = List.length ns
    /\ forall i, i < List.length ns ->
         field (nth i ns' VUndefined) (js "id")
         = match own_member (nth i ns VUndefined) (js "id") with
           | Some v => v
           | None => VString (js "step_" ++ decimal_of_nat (index + i + 1))
           end.
Proof.
  induction ns as [|node ns IH]; intros index ns'; simpl.
  - intros [= <-]. split; [reflexivity | intros i Hi; lia].
  - destruct (node_of node index) as [n|e] eqn:En; [|discriminate]. simpl.
    destruct (map_nodes ns (index + 1)) as [ns1|e] eqn:Em; [|discriminate].
    simpl. intros [= <-]. apply node_of_id in En.
    destruct (IH (index + 1) ns1 Em) as (Hlen & Hids).
    split; [simpl; now rewrite Hlen|].
    intros [|i] Hi; simpl.
    + now rewrite Nat.add_0_r.
    + rewrite Hids by lia.
      now replace (index + 1 + i + 1) with (index + S i + 1) by lia.
Qed.

Lemma map_nodes_total (ns : list value) :
  forall index, List.forallb readable ns = true ->
                exists ns', map_nodes ns index = Ok ns'.
Proof.
  induction ns as [|node ns IH]; intros index; simpl.
  - now exists [].
  - intros H. apply andb_true_iff in H as [R Hr].
    unfold node_of. rewrite !(prop_get_readable node _ R). simpl.
    destruct (IH (index + 1) Hr) as (ns1 & ->). simpl. now eexists.
Qed.

(** This handler keeps a supplied, non-empty [edges] array, and builds the
    chain when [edges] is absent or an empty array; it gives a node the id
    of its entry, or step_n when the entry has none. *)
Theorem normalize_in_place_spec (roadmap : value) (ns : list value) :
  field roadmap (js "nodes") = VArray ns ->
  List.forallb readable ns = true ->
  exists out ns',
    normalize_in_place roadmap = Ok out
    /\ (forall e es, field roadmap (js "edges") = VArray (e :: es) ->
                     field out (js "edges") = VArray (e :: es))
    /\ (field roadmap (js "edges") = VUndefined
        \/ field roadmap (js "edges") = VArray [] ->
        field out (js "edges") = VArray (List.map Link_as_value (chain_of ns)))
    /\ field out (js "nodes") = VArray ns'
    /\ List.length ns' = List.length ns
    /\ forall i, i < List.length ns ->
         field (nth i ns' VUndefined) (js "id")
         = match own_member (nth i ns VUndefined) (js "id") with
           | Some v => v
           | None => VString (js "step_" ++ decimal_of_nat (i + 1))
           end.
Proof.
  intros Hn Hr.
  assert (R : readable roadmap = true).
  { destruct roadmap; try discriminate; reflexivity. }
  destruct roadmap as [| | | | | |ms]; try discriminate.
  destruct (map_nodes_total ns 0 Hr) as (ns' & Em).
  destruct (map_nodes_ids ns 0 ns' Em) as (Hlen & Hids).
  unfold normalize_in_place.
  rewrite !(prop_get_readable (VObject ms) _ R), Hn.
  simpl bind. rewrite (edges_loop_readable ns Hr).
  destruct (negb (truthy (field (VObject ms) (js "edges")))
            || is_zero (get_length (field (VObject ms) (js "edges"))))
    eqn:Ec; simpl bind; rewrite Em; simpl bind;
    eexists; exists ns'; (split; [reflexivity|]).
  - split; [|split; [|split; [|split]]].
    + intros e es He. rewrite He in Ec. discriminate.
    + intros _. now rewrite !field_object_app.
    + now rewrite field_object_app.
    + exact Hlen.
    + exact Hids.
  - split; [|split; [|split; [|split]]].
    + intros e es He. now rewrite field_object_app.
    + intros [He|He]; rewrite He in Ec; discriminate.
    + now rewrite field_object_app.
    + exact Hlen.
    + exact Hids.
Qed.

End ServerPatchFacts.

(* ================================================================== *)
(** * The claims of the specification *)
(* ================================================================== *)

(** ** Edges *)

(** C1: at the input [raw_with_edges], which supplies a non-empty [edges]
    array (one link from b back to a), [normalizeRoadmap] of server.js
    returns the chain from a to b that it builds itself and not the
    supplied array, where the claim has the supplied array returned
    unchanged. The handler of server-patch.js, the other implementation
    of the route, returns the supplied array unchanged at this input. *)
Theorem C1_supplied_edges_dropped :
  field raw_with_edges (js "edges") = VArray supplied_edges_example
  /\ supplied_edges_example <> []
  /\ (exists r,
        normalizeRoadmap raw_with_edges = Ok r
        /\ edges r = [mkLink (VString (js "a")) (VString (js "b"))
                             (VString (js "Then"))]
        /\ List.map Link_as_value (edges r) <> supplied_edges_example)
  /\ exists out,
       ServerPatch.normalize_in_place raw_with_edges = Ok out
       /\ field out (js "edges") = VArray supplied_edges_example.
Proof.
  split; [reflexivity|]. split; [discriminate|]. split.
  - eexists. split; [reflexivity|]. split; [reflexivity|].
    vm_compute. discriminate.
  - eexists. split; reflexivity.
Qed.

(** C4: for a resolved node list of [n >= 2] nodes (each one a value whose
    properties can be read) and an input that supplies no edges,
    [normalizeRoadmap] returns a roadmap with these nodes and exactly
    [n - 1] edges, the [i]-th one from the id of node [i] to the id of node
    [i + 1], labelled Then. *)
Theorem C4_auto_chain (raw : value) (ns : list value) :
  resolve_nodes raw = Ok ns ->
  List.forallb readable ns = true ->
  no_supplied_edges raw ->
  2 <= List.length ns ->
  exists r,
    normalizeRoadmap raw = Ok r
    /\ nodes r = ns
    /\ List.length (edges r) = List.length ns - 1
    /\ forall i, i < List.length ns - 1 ->
         nth_error (edges r) i
         = Some {| source := field (nth i ns VUndefined) (js "id");
                   target := field (nth (i + 1) ns VUndefined) (js "id");
                   label := VString (js "Then") |}.
Proof.
  intros En Hr _ Hlen.
  eexists. split.
  - apply (normalizeRoadmap_intro raw ns (chain_of ns) En).
    now apply edges_loop_readable.
  - simpl. split; [reflexivity|]. split; [apply chain_of_length|].
    intros i Hi. now rewrite chain_of_nth.
Qed.

Lemma C4_auto_chain_witness :
  exists r,
    normalizeRoadmap learn_go_parsed = Ok r
    /\ List.length (edges r) = 1
    /\ nth_error (edges r) 0
       = Some {| source := VString (js "step_1");
                 target := VString (js "step_2");
                 label := VString (js "Then") |}.
Proof.
  destruct (C4_auto_chain learn_go_parsed
              [VObject [(js "id", VString (js "step_1"));
                        (js "title", VString (js "Read docs"));
                        (js "description", VString []);
                        (js "duration", VString []);
                        (js "type", VString (js "task"));
                        (js "resources", VArray [])];
               VObject [(js "id", VString (js "step_2"));
                        (js "title", VString (js "Build a CLI"));
                        (js "description", VString []);
                        (js "duration", VString []);
                        (js "type", VString (js "task"));
                        (js "resources", VArray [])]]
              eq_refl eq_refl I (le_n 2)) as (r & Hn & _ & Hl & He).
  exists r. split; [exact Hn|]. split; [exact Hl|]. exact (He 0 (le_n 1)).
Defined.

(** C8: at the input [raw_nodes_without_ids], a [nodes] array of two
    entries that have a title and no id, [normalizeRoadmap] returns the
    two entries as they are and one edge whose source and target are both
    undefined: no node of the roadmap has an id, so that the ends of the
    edge are the id of no step, where the claim has each of them equal the
    id of a step of the roadmap. On the [steps] path of the same function
    the claim holds: at [learn_go_parsed] the two steps get the ids step_1
    and step_2 and the edge runs from the one to the other. *)
Theorem C8_edge_ends_undefined :
  (exists r,
     normalizeRoadmap raw_nodes_without_ids = Ok r
     /\ nodes r = [VObject [(js "title", VString (js "A"))];
                   VObject [(js "title", VString (js "B"))]]
     /\ edges r = [mkLink VUndefined VUndefined (VString (js "Then"))]
     /\ forall n, In n (nodes r) ->
                  ServerPatch.own_member n (js "id") = None)
  /\ exists r n1 n2,
       normalizeRoadmap learn_go_parsed = Ok r
       /\ nodes r = [n1; n2]
       /\ field n1 (js "id") = VString (js "step_1")
       /\ field n2 (js "id") = VString (js "step_2")
       /\ edges r = [mkLink (VString (js "step_1")) (VString (js "step_2"))
                            (VString (js "Then"))].
Proof.
  split.
  - eexists. split; [reflexivity|]. split; [reflexivity|].
    split; [reflexivity|].
    intros n [<-|[<-|[]]]; reflexivity.
  - eexists. eexists. eexists. split; [reflexivity|].
    split; [reflexivity|]. split; [reflexivity|].
    split; reflexivity.
Qed.

(** ** Nodes *)


(** C10: when [raw.nodes] is an array, [normalizeRoadmap] takes it as the
    node list as it is: the result, whenever there is one, has exactly the
    entries of that array for nodes, and there is one as soon as the
    entries can be read. No entry is rebuilt, and [raw.steps] plays no
    part. Steps of the canonical shape are built only when [raw.nodes] is
    not an array and [raw.steps] is one. *)
Theorem C10_nodes_verbatim (raw : value) :
  (forall ns,
      field raw (js "nodes") = VArray ns ->
      resolve_nodes raw = Ok ns
      /\ (forall r, normalizeRoadmap raw = Ok r -> nodes r = ns)
      /\ (List.forallb readable ns = true ->
          exists r, normalizeRoadmap raw = Ok r /\ nodes r = ns))
  /\ (forall steps r,
        isArray (field raw (js "nodes")) = false ->
        field raw (js "steps") = VArray steps ->
        normalizeRoadmap raw = Ok r ->
        Forall canonical_step (nodes r)).
Proof.
  split.
  - intros ns Hn. apply field_array_prop_get in Hn.
    pose proof (resolve_nodes_array raw ns Hn) as En.
    split; [exact En|]. split.
    + intros r H. apply normalizeRoadmap_inv in H as (_ & En' & _).
      congruence.
    + intros Hr. eexists. split.
      * apply (normalizeRoadmap_intro raw ns (chain_of ns) En).
        now apply edges_loop_readable.
      * reflexivity.
  - intros steps r Hx Hs H.
    apply normalizeRoadmap_inv in H as (R & En & _).
    apply field_array_prop_get in Hs.
    rewrite (resolve_nodes_steps raw (field raw (js "nodes")) steps
               (field_readable raw _ R) Hx Hs) in En.
    now apply map_steps_canonical in En.
Qed.

Lemma C10_nodes_verbatim_witness :
  exists r,
    normalizeRoadmap raw_node_without_id = Ok r
    /\ nodes r = [VObject [(js "title", VString (js "A"))]].
Proof.
  destruct (C10_nodes_verbatim raw_node_without_id) as (Hn & _).
  destruct (Hn [VObject [(js "title", VString (js "A"))]] eq_refl)
    as (_ & _ & H).
  exact (H eq_refl).
Defined.

(** ** Scalar fields *)

(** C6, as stated, fails twice: on [{title: true}] the resulting title is
    the boolean, not a string; on [{steps: [null]}] [normalizeRoadmap]
    returns no roadmap at all but raises a [TypeError]. *)
Lemma C6_title_not_a_string :
  is_object raw_title_true = true
  /\ is_string (field raw_title_true (js "title")) = false
  /\ (exists r, normalizeRoadmap raw_title_true = Ok r
                /\ title r = VBool true /\ is_string (title r) = false)
  /\ is_object raw_null_step = true
  /\ normalizeRoadmap raw_null_step = Throw TypeError.
Proof.
  split; [reflexivity|]. split; [reflexivity|]. split.
  - eexists. split; [reflexivity|]. split; reflexivity.
  - split; reflexivity.
Qed.

(** C6, amended: for every object input whose [nodes] (or else [steps])
    entries can all be read, [{}] included, [normalizeRoadmap] returns a
    roadmap in which each of the five scalar fields is the input's value
    when that value is truthy and the documented default otherwise; the
    field is therefore never [undefined], and it is a string whenever the
    input's value is absent, [null] or a string. *)
Theorem C6_scalar_defaults (raw : value) :
  is_object raw = true ->
  entries_readable raw = true ->
  exists r,
    normalizeRoadmap raw = Ok r
    /\ Forall
         (fun '(k, get, d) =>
            get r = js_or (field raw k) (VString d)
            /\ get r <> VUndefined
            /\ (field raw k = VUndefined \/ field raw k = VNull
                \/ is_string (field raw k) = true ->
                is_string (get r) = true))
         scalar_fields.
Proof.
  intros Hobj Hent.
  assert (R : readable raw = true) by (destruct raw; try discriminate; reflexivity).
  destruct (normalizeRoadmap_total raw R Hent) as (r & H).
  exists r. split; [exact H|].
  apply normalizeRoadmap_inv in H as (_ & _ & _ & Ht & Hd & Hu & Hf & Hc).
  unfold scalar_fields.
  repeat (apply Forall_cons || apply Forall_nil);
    (split; [assumption|]);
    (split; [first [rewrite Ht | rewrite Hd | rewrite Hu | rewrite Hf | rewrite Hc];
             apply js_or_defined|]);
    intros Hk;
    first [rewrite Ht | rewrite Hd | rewrite Hu | rewrite Hf | rewrite Hc];
    now apply js_or_string.
Qed.

Lemma C6_scalar_defaults_witness :
  exists r,
    normalizeRoadmap (VObject []) = Ok r
    /\ title r = VString (js "AI Generated Roadmap")
    /\ description r = VString []
    /\ estimatedTotalDuration r = VString []
    /\ difficulty r = VString (js "beginner")
    /\ category r = VString (js "general").
Proof.
  destruct (C6_scalar_defaults (VObject []) eq_refl eq_refl) as (r & Hr & Hs).
  exists r. split; [exact Hr|].
  unfold scalar_fields in Hs.
  pose proof (Forall_inv Hs) as (H1 & _).
  pose proof (Forall_inv (Forall_inv_tail Hs)) as (H2 & _).
  pose proof (Forall_inv (Forall_inv_tail (Forall_inv_tail Hs))) as (H3 & _).
  pose proof (Forall_inv (Forall_inv_tail (Forall_inv_tail
                (Forall_inv_tail Hs)))) as (H4 & _).
  pose proof (Forall_inv (Forall_inv_tail (Forall_inv_tail
                (Forall_inv_tail (Forall_inv_tail Hs))))) as (H5 & _).
  repeat split; assumption.
Defined.

(** ** Idempotence *)

(** C7: a roadmap that [normalizeRoadmap] can return, seen again as a
    parsed object, is normalized to itself. *)
Theorem C7_idempotent (raw : value) (r : Roadmap) :
  normalizeRoadmap raw = Ok r ->
  normalizeRoadmap (Roadmap_as_value r) = Ok r.
Proof.
  intros H.
  apply normalizeRoadmap_inv in H as (_ & _ & He & Ht & Hd & Hu & Hf & Hc).
  rewrite (normalizeRoadmap_intro (Roadmap_as_value r) (nodes r) (edges r)
             eq_refl He).
  destruct r as [t d ns es u f c]. simpl in *.
  change (field (Roadmap_as_value (mkRoadmap t d ns es u f c)) (js "title"))
    with t.
  change (field (Roadmap_as_value (mkRoadmap t d ns es u f c))
                (js "description")) with d.
  change (field (Roadmap_as_value (mkRoadmap t d ns es u f c))
                (js "estimatedTotalDuration")) with u.
  change (field (Roadmap_as_value (mkRoadmap t d ns es u f c))
                (js "difficulty")) with f.
  change (field (Roadmap_as_value (mkRoadmap t d ns es u f c))
                (js "category")) with c.
  rewrite Ht at 1. rewrite Hd at 1. rewrite Hu at 1. rewrite Hf at 1.
  rewrite Hc at 1. rewrite !js_or_idempotent.
  now rewrite <- Ht, <- Hd, <- Hu, <- Hf, <- Hc.
Qed.

Lemma C7_idempotent_witness :
  exists r,
    normalizeRoadmap learn_go_parsed = Ok r
    /\ normalizeRoadmap (Roadmap_as_value r) = Ok r.
Proof.
  eexists. split; [reflexivity|].
  exact (C7_idempotent learn_go_parsed _ eq_refl).
Defined.

(** ** The repairer *)

(** C3, as stated, fails: on a refusal without braces [repairJson] raises
    [Error('No JSON found')], whose message holds no part of the text (not
    even its first letter); and the text 42, in which no brace span is
    found either, is not a failure: the direct parse returns the number. *)
Lemma C3_error_without_raw_text :
  repairJson refusal_text = Throw (JsError (js "No JSON found"))
  /\ ~ carries_raw_text (JsError (js "No JSON found")) refusal_text
  /\ ~ has_brace_span (js "42")
  /\ repairJson (js "42") = Ok (VNumber 42 0).
Proof.
  split; [reflexivity|]. split; [|split; [|reflexivity]].
  - intros (n & msg & before & after & Hn & Hmsg & E).
    injection Hmsg as <-.
    destruct n as [|n]; [lia|].
    assert (Hin : In 73%N (js "No JSON found")).
    { rewrite E. apply in_or_app. right. left. reflexivity. }
    simpl in Hin.
    repeat (destruct Hin as [Hin|Hin]; [discriminate|]). exact Hin.
  - now apply match_braces_none.
Qed.

(** C3, amended: [repairJson] fails exactly when the direct parse of the
    text fails and, further, either the text has no opening brace followed
    by a closing brace, or the part from its first opening brace through
    its last closing brace fails to parse. In the first case it raises
    [Error('No JSON found')], in the second the [SyntaxError] of
    [JSON.parse]; the error of the first case is the same for every text.
    On the refusal of the specification it raises [Error('No JSON found')].
    The raw text, cut to its first 300 characters, goes to the console of
    the calling handler. *)
Theorem C3_repair_failure :
  (forall text e,
      repairJson text = Throw e <->
      (exists e0, JSON_parse text = Throw e0)
      /\ ((~ has_brace_span text /\ e = JsError (js "No JSON found"))
          \/ (exists m, brace_span text m /\ JSON_parse m = Throw e)))
  /\ (forall text e,
        repairJson text = Throw e ->
        e = JsError (js "No JSON found") \/ e = SyntaxError)
  /\ repairJson sorry_text = Throw (JsError (js "No JSON found"))
  /\ (forall goal aiText,
        truthy goal = true ->
        In (LogRawOutput (firstn 300 aiText))
           (fst (generate_roadmap_handler goal (Ok aiText)))).
Proof.
  split; [|split; [|split]].
  - intros text e. rewrite repairJson_throws.
    rewrite match_braces_none.
    split; intros (H0 & [H | (m & Hm & Hp)]); split; auto; right; exists m;
      (split; [now apply match_braces_some | exact Hp]).
  - intros text e H. apply repairJson_throws in H
      as (_ & [(_ & ->) | (m & _ & Hp)]); [now left|].
    right. now apply JSON_parse_throws in Hp.
  - reflexivity.
  - intros goal aiText Hg. unfold generate_roadmap_handler.
    rewrite Hg. simpl.
    destruct (bind (repairJson aiText) _); simpl; now left.
Qed.

Lemma C3_repair_failure_witness :
  repairJson (jsq "{'title': }") = Throw SyntaxError
  /\ (JsError (js "No JSON found") = JsError (js "No JSON found")
      \/ JsError (js "No JSON found") = SyntaxError).
Proof.
  destruct C3_repair_failure as (H1 & H2 & H3 & _).
  split.
  - apply H1. split; [exists SyntaxError; reflexivity|].
    right. exists (jsq "{'title': }"). split; [|reflexivity].
    exists [], (jsq "'title': "), []. repeat split; auto.
  - exact (H2 sorry_text _ H3).
Defined.

(** C5: a text that parses as JSON is repaired to its parse; otherwise, a
    text with an opening brace and a later closing brace is repaired to the
    parse of the part from its first opening brace through its last
    closing brace. Hence [repairJson] undoes [JSON.stringify] on every
    JSON value, objects included, and undoes a code fence around the text
    of a JSON object. *)
Theorem C5_repair :
  (forall text v, JSON_parse text = Ok v -> repairJson text = Ok v)
  /\ (forall text e,
        JSON_parse text = Throw e -> has_brace_span text ->
        exists m, brace_span text m /\ repairJson text = JSON_parse m)
  /\ (forall X,
        is_json X = true ->
        exists t, JSON_stringify X = Some t /\ repairJson t = Ok X)
  /\ (forall X t,
        is_json X = true -> is_object X = true ->
        JSON_stringify X = Some t ->
        repairJson (fenced t) = Ok X).
Proof.
  split; [|split; [|split]].
  - exact repairJson_direct.
  - intros text e He Hs. apply match_braces_found in Hs as (m & Hm).
    exists m. split; [now apply match_braces_some|].
    exact (repairJson_extract text m e He Hm).
  - intros X HX. destruct (JSON_parse_stringify X HX) as (t & Ht & Hp).
    exists t. split; [exact Ht | now apply repairJson_direct].
  - exact repairJson_fenced.
Qed.

Lemma C5_repair_witness :
  repairJson learn_go_text = Ok learn_go_parsed
  /\ (exists m, brace_span (fenced (jsq "{'title':'A','steps':[]}")) m
        /\ repairJson (fenced (jsq "{'title':'A','steps':[]}")) = JSON_parse m)
  /\ (exists t, JSON_stringify title_a_parsed = Some t
        /\ repairJson t = Ok title_a_parsed)
  /\ repairJson (fenced (jsq "{'title':'A','steps':[]}")) = Ok title_a_parsed.
Proof.
  destruct C5_repair as (H1 & H2 & H3 & H4).
  split; [|split; [|split]].
  - apply H1. reflexivity.
  - apply (H2 _ SyntaxError); [reflexivity|].
    exists (js "```json" ++ [10%N]), (jsq "'title':'A','steps':[]"),
           (10%N :: js "```").
    reflexivity.
  - apply H3. reflexivity.
  - apply H4; reflexivity.
Defined.

(** ** The handler *)

(** C9: on an input that yields no usable steps [normalizeRoadmap] does not
    fail but returns a roadmap with no node; it is the handler that turns
    such a result into a failure of the request: the response is an error
    (status 500, message AI returned no usable steps), and a response that
    carries a roadmap never carries one without nodes. *)
Theorem C9_empty_roadmap :
  (forall raw,
      readable raw = true -> no_usable_steps raw ->
      exists r, normalizeRoadmap raw = Ok r /\ nodes r = [])
  /\ (forall goal aiText parsed r,
        truthy goal = true ->
        repairJson aiText = Ok parsed ->
        normalizeRoadmap parsed = Ok r ->
        nodes r = [] ->
        snd (generate_roadmap_handler goal (Ok aiText))
        = mkResponse 500 (ErrorBody (JsError (js "AI returned no usable steps"))))
  /\ (forall goal ai r,
        body (snd (generate_roadmap_handler goal ai)) = RoadmapBody r ->
        nodes r <> []
        /\ status (snd (generate_roadmap_handler goal ai)) = 200).
Proof.
  split; [|split].
  - intros raw R Hno.
    assert (En : resolve_nodes raw = Ok []).
    { unfold no_usable_steps in Hno. unfold resolve_nodes.
      rewrite !(prop_get_readable raw _ R). simpl.
      destruct (field raw (js "nodes")); try (subst; reflexivity);
        destruct (field raw (js "steps")); try (subst; reflexivity). }
    eexists. split.
    + exact (normalizeRoadmap_intro raw [] [] En eq_refl).
    + reflexivity.
  - intros goal aiText parsed r Hg Hp Hn He.
    unfold generate_roadmap_handler, generate_roadmap_try.
    rewrite Hg, Hp. simpl. rewrite Hn. simpl. rewrite He. reflexivity.
  - intros goal ai r. unfold generate_roadmap_handler.
    destruct (negb (truthy goal)); [discriminate|].
    unfold generate_roadmap_try.
    destruct ai as [aiText|e]; [|discriminate].
    destruct (repairJson aiText) as [parsed|e]; [|discriminate]. simpl.
    destruct (normalizeRoadmap parsed) as [r'|e]; [|discriminate]. simpl.
    destruct (List.length (nodes r')) eqn:El; simpl; [discriminate|].
    intros [= <-]. split; [|reflexivity].
    intros E. rewrite E in El. discriminate.
Qed.

Lemma C9_empty_roadmap_witness :
  (exists r, normalizeRoadmap title_a_parsed = Ok r /\ nodes r = [])
  /\ snd (generate_roadmap_handler (VString (js "Learn Go"))
            (Ok (jsq "{'title':'A','steps':[]}")))
     = mkResponse 500 (ErrorBody (JsError (js "AI returned no usable steps"))).
Proof.
  destruct C9_empty_roadmap as (H1 & H2 & _).
  split.
  - apply H1; reflexivity.
  - apply (H2 _ _ title_a_parsed
             {| title := VString (js "A");
                description := VString [];
                nodes := [];
                edges := [];
                estimatedTotalDuration := VString [];
                difficulty := VString (js "beginner");
                category := VString (js "general") |}); reflexivity.
Defined.

(** ** The scenarios of the specification *)

(** The fenced block of the specification. *)
Example repair_fenced_block :
  repairJson (fenced (jsq "{'title':'A','steps':[]}")) = Ok title_a_parsed.
Proof. reflexivity. Qed.

(** End to end: two nodes step_1 and step_2, one edge between them
    labelled Then, difficulty beginner, category general. *)
Example learn_go_end_to_end :
  generate_roadmap_handler (VString (js "Learn Go")) (Ok learn_go_text)
  = ([LogRawOutput learn_go_text],
     mkResponse 200
       (RoadmapBody
          {| title := VString (js "Learn Go");
             description := VString [];
             nodes :=
               [VObject [(js "id", VString (js "step_1"));
                         (js "title", VString (js "Read docs"));
                         (js "description", VString []);
                         (js "duration", VString []);
                         (js "type", VString (js "task"));
                         (js "resources", VArray [])];
                VObject [(js "id", VString (js "step_2"));
                         (js "title", VString (js "Build a CLI"));
                         (js "description", VString []);
                         (js "duration", VString []);
                         (js "type", VString (js "task"));
                         (js "resources", VArray [])]];
             edges := [mkLink (VString (js "step_1")) (VString (js "step_2"))
                              (VString (js "Then"))];
             estimatedTotalDuration := VString [];
             difficulty := VString (js "beginner");
             category := VString (js "general") |})).
Proof. reflexivity. Qed.

(* ================================================================== *)
(** * Further properties of [server.js] *)
(* ================================================================== *)

(** ** When [normalizeRoadmap] fails *)

Lemma edges_loop_throws (ns : list value) (count : nat) :
  forall (i : nat) (acc : list Link) (e : js_error),
    edges_loop ns count i acc = Throw e -> e = TypeError.
Proof.
  induction count as [|count IH]; intros i acc e; simpl; [discriminate|].
  destruct (prop_get (nth i ns VUndefined) (js "id")) as [s|e1] eqn:Es.
  - destruct (prop_get (nth (i + 1) ns VUndefined) (js "id")) as [t|e2] eqn:Et.
    + simpl. apply IH.
    + simpl. intros [= <-]. now apply prop_get_throws in Et.
  - simpl. intros [= <-]. now apply prop_get_throws in Es.
Qed.

Lemma map_steps_throws (steps : list value) :
  forall (i : nat) (e : js_error),
    map_steps steps i = Throw e ->
    e = TypeError /\ List.forallb readable steps = false.
Proof.
  induction steps as [|s steps IH]; intros i e; simpl; [discriminate|].
  destruct (readable s) eqn:R.
  - destruct (step_of_ok s i R) as (t & d & u & r & ->). simpl.
    destruct (map_steps steps (i + 1)) as [ns|e1] eqn:Em; [discriminate|].
    simpl. intros [= <-]. now apply IH in Em.
  - rewrite (step_of_throws s i R). simpl. intros [= <-]. now split.
Qed.

Lemma forallb_readable_nth (ns : list value) :
  (forall j, j < List.length ns -> readable (nth j ns VUndefined) = true) ->
  List.forallb readable ns = true.
Proof.
  intros H. apply forallb_forall. intros x Hx.
  destruct (In_nth ns x VUndefined Hx) as (j & Hj & <-). now apply H.
Qed.

(** The loop over a node list succeeds exactly when the list is shorter
    than two or all its entries can be read. *)
Lemma edges_loop_outcome (ns : list value) :
  (exists es, edges_loop ns (List.length ns - 1) 0 [] = Ok es)
  <-> List.length ns < 2 \/ List.forallb readable ns = true.
Proof.
  split.
  - intros (es & H). destruct (Nat.lt_ge_cases (List.length ns) 2) as [Hl|Hl];
      [now left | right].
    apply edges_loop_ok in H as [_ Hr].
    apply forallb_readable_nth. intros j Hj.
    destruct (Nat.eq_dec j 0) as [->|Hne].
    + apply (Hr 0). lia.
    + replace j with (j - 1 + 1) by lia. apply (Hr (j - 1)). lia.
  - intros [Hl | Hr].
    + replace (List.length ns - 1) with 0 by lia. now exists [].
    + exists (chain_of ns). now apply edges_loop_readable.
Qed.

Lemma normalizeRoadmap_unreadable (raw : value) :
  readable raw = false -> normalizeRoadmap raw = Throw TypeError.
Proof.
  intros R. unfold normalizeRoadmap, resolve_nodes.
  now rewrite (prop_get_unreadable raw _ R).
Qed.

Lemma normalizeRoadmap_throws_after (raw : value) (e : js_error) :
  readable raw = true ->
  (ns <- resolve_nodes raw ;; edges_loop ns (List.length ns - 1) 0 []) = Throw e ->
  normalizeRoadmap raw = Throw e.
Proof.
  intros R. unfold normalizeRoadmap.
  destruct (resolve_nodes raw) as [ns|e1]; simpl; [|now intros [= ->]].
  destruct (edges_loop ns (List.length ns - 1) 0 []); simpl;
    [discriminate | now intros [= ->]].
Qed.

(** X1: [normalizeRoadmap] raises nothing but a [TypeError], and raises it
    exactly when the input is [null] or [undefined], or an entry that
    cannot be read stands in a [nodes] array of two entries or more, or in
    the [steps] array that is mapped. *)
Theorem normalizeRoadmap_failure (raw : value) :
  (forall e, normalizeRoadmap raw = Throw e -> e = TypeError)
  /\ ((exists e, normalizeRoadmap raw = Throw e)
      <-> readable raw = false \/ unreadable_entry raw).
Proof.
  destruct (readable raw) eqn:R.
  2:{ rewrite (normalizeRoadmap_unreadable raw R). split.
      - now intros e [= <-].
      - split; [now left | now exists TypeError]. }
  assert (Hres : resolve_nodes raw
                 = match field raw (js "nodes") with
                   | VArray ns => Ok ns
                   | _ =>
                       match field raw (js "steps") with
                       | VArray steps => map_steps steps 0
                       | _ => Ok []
                       end
                   end).
  { unfold resolve_nodes. rewrite !(prop_get_readable raw _ R). simpl.
    destruct (field raw (js "nodes")); reflexivity. }
  assert (Hcase :
            match resolve_nodes raw with
            | Ok ns =>
                match edges_loop ns (List.length ns - 1) 0 [] with
                | Ok es => exists r, normalizeRoadmap raw = Ok r
                | Throw e => normalizeRoadmap raw = Throw e
                end
            | Throw e => normalizeRoadmap raw = Throw e
            end).
  { destruct (resolve_nodes raw) as [ns|e] eqn:En.
    - destruct (edges_loop ns (List.length ns - 1) 0 []) as [es|e] eqn:Ee.
      + eexists. exact (normalizeRoadmap_intro raw ns es En Ee).
      + apply normalizeRoadmap_throws_after; [exact R|]. rewrite En. exact Ee.
    - apply normalizeRoadmap_throws_after; [exact R|]. now rewrite En. }
  unfold unreadable_entry.
  destruct (field raw (js "nodes")) as [| |b|m x|s|ns|ms] eqn:Fn.
  6:{ (* a nodes array *)
      rewrite Hres in Hcase.
      pose proof (edges_loop_outcome ns) as Ho.
      destruct (edges_loop ns (List.length ns - 1) 0 []) as [es|e] eqn:Ee.
      - destruct Hcase as (r & ->). split; [discriminate|].
        split; [intros (e & He); discriminate|].
        intros [Hf | (Hl & Hf)]; [discriminate|].
        destruct (proj1 Ho (ex_intro _ es eq_refl)) as [H|H]; [lia | congruence].
      - rewrite Hcase. apply edges_loop_throws in Ee. subst e. split.
        + now intros e [= <-].
        + split; [|now exists TypeError]. intros _. right.
          destruct (Nat.lt_ge_cases (List.length ns) 2) as [Hl|Hl].
          * destruct (proj2 Ho (or_introl Hl)) as (es & Hes). discriminate.
          * split; [exact Hl|].
            destruct (List.forallb readable ns) eqn:Hf; [|reflexivity].
            destruct (proj2 Ho (or_intror eq_refl)) as (es & Hes).
            discriminate. }
  all: rewrite Hres in Hcase;
    destruct (field raw (js "steps")) as [| |b'|m' x'|s'|steps|ms'] eqn:Fs;
    try (simpl in Hcase; destruct Hcase as (r & ->);
         split; [discriminate|];
         split; [intros (e & He); discriminate
                | intros [Hf | []]; discriminate]);
    (destruct (map_steps steps 0) as [ns|e] eqn:Em;
     [ pose proof (map_steps_ok steps 0 ns Em) as (_ & Hrs & Hrn & _);
       rewrite (edges_loop_readable ns Hrn) in Hcase;
       destruct Hcase as (r & ->);
       split; [discriminate|];
       split; [intros (e & He); discriminate
              | intros [Hf | Hf]; [discriminate | congruence]]
     | rewrite Hcase; apply map_steps_throws in Em as [-> Hf];
       split; [now intros e [= <-]|];
       split; [intros _; now right | now exists TypeError] ]).
Qed.

Lemma normalizeRoadmap_failure_witness :
  (exists e, normalizeRoadmap raw_null_step = Throw e)
  /\ (exists e,
        normalizeRoadmap (VObject [(js "nodes", VArray [VNull; VNull])])
        = Throw e).
Proof.
  split.
  - apply (proj2 (normalizeRoadmap_failure raw_null_step)).
    right. reflexivity.
  - apply (proj2 (normalizeRoadmap_failure
                    (VObject [(js "nodes", VArray [VNull; VNull])]))).
    right. split; [apply le_n | reflexivity].
Defined.

(** ** What the handler answers *)

Lemma field_not_object (v : value) (k : jstring) :
  is_object v = false -> field v k = VUndefined.
Proof. destruct v; try reflexivity. discriminate. Qed.

(** A roadmap with nodes comes from an object with a non-empty [nodes]
    array, or with no [nodes] array and a non-empty [steps] array. *)
Lemma normalizeRoadmap_nodes_source (raw : value) (r : Roadmap) :
  normalizeRoadmap raw = Ok r -> nodes r <> [] ->
  is_object raw = true
  /\ ((exists x xs, field raw (js "nodes") = VArray (x :: xs))
      \/ (isArray (field raw (js "nodes")) = false
          /\ exists x xs, field raw (js "steps") = VArray (x :: xs))).
Proof.
  intros H Hne. apply normalizeRoadmap_inv in H as (R & En & _).
  unfold resolve_nodes in En. rewrite !(prop_get_readable raw _ R) in En.
  simpl in En.
  destruct (is_object raw) eqn:Ho.
  2:{ rewrite !(field_not_object raw _ Ho) in En. simpl in En.
      injection En as En. congruence. }
  split; [reflexivity|].
  destruct (field raw (js "nodes")) as [| |b|m ex|s|ns|ms] eqn:Fn.
  6:{ left. injection En as En. destruct ns as [|x xs]; [congruence|].
      now exists x, xs. }
  all: right; split; [reflexivity|];
    destruct (field raw (js "steps")) as [| |b'|m' ex'|s'|steps|ms'] eqn:Fs;
    try (injection En as En; congruence);
    destruct steps as [|x xs]; [simpl in En; injection En as En; congruence|];
    now exists x, xs.
Qed.

(** X2: the handler of [server.js] answers 400 exactly when the goal is
    falsy, and otherwise 200 or 500; it answers 200 only when the answer of
    the model is repaired to an object that has a non-empty [nodes] array,
    or no [nodes] array and a non-empty [steps] array, and the roadmap it
    sends is then the normalized one. A repaired value that is not an
    object (a number, a string, an array, null) always gives 500. *)
Theorem generate_roadmap_handler_outcomes (goal : value) (ai : result jstring) :
  let resp := snd (generate_roadmap_handler goal ai) in
  (truthy goal = false /\ status resp = 400)
  \/ (truthy goal = true /\ status resp = 500
      /\ exists err, body resp = ErrorBody err)
  \/ (truthy goal = true /\ status resp = 200
      /\ exists text parsed r,
           ai = Ok text /\ repairJson text = Ok parsed
           /\ normalizeRoadmap parsed = Ok r
           /\ body resp = RoadmapBody r
           /\ is_object parsed = true
           /\ ((exists x xs, field parsed (js "nodes") = VArray (x :: xs))
               \/ (isArray (field parsed (js "nodes")) = false
                   /\ exists x xs,
                        field parsed (js "steps") = VArray (x :: xs)))).
Proof.
  unfold generate_roadmap_handler.
  destruct (truthy goal) eqn:G; simpl; [|left; now split].
  right. unfold generate_roadmap_try.
  destruct ai as [text|e]; [|left; repeat split; now eexists].
  destruct (repairJson text) as [parsed|e] eqn:Er;
    [|left; repeat split; now eexists]. simpl.
  destruct (normalizeRoadmap parsed) as [r|e] eqn:En;
    [|left; repeat split; now eexists]. simpl.
  destruct (List.length (nodes r)) eqn:El; simpl;
    [left; repeat split; now eexists|].
  right. repeat split. exists text, parsed, r.
  assert (Hne : nodes r <> []) by (intros E; rewrite E in El; discriminate).
  destruct (normalizeRoadmap_nodes_source parsed r En Hne) as [Ho Hs].
  repeat split; assumption.
Qed.

(** ** What [normalizeRoadmap] reads *)

(** X3: the roadmap depends on the input through its members [nodes],
    [steps], [title], [description], [estimatedTotalDuration], [difficulty]
    and [category] only: two inputs that agree on these seven are
    normalized alike, so that any other member of the answer of the model
    is dropped. *)
Theorem normalizeRoadmap_reads_seven_keys (raw1 raw2 : value) :
  (forall k, In k keys_read -> prop_get raw1 k = prop_get raw2 k) ->
  normalizeRoadmap raw1 = normalizeRoadmap raw2.
Proof. apply normalizeRoadmap_ext. Qed.

Lemma normalizeRoadmap_reads_seven_keys_witness :
  normalizeRoadmap
    (VObject [(js "steps", VArray [VString (js "A")]);
              (js "changes", VString (js "none"));
              (js "id", VNumber 7 0)])
  = normalizeRoadmap (VObject [(js "steps", VArray [VString (js "A")])]).
Proof.
  apply normalizeRoadmap_reads_seven_keys.
  intros k Hk. simpl in Hk.
  repeat (destruct Hk as [<-|Hk]; [reflexivity|]). contradiction.
Defined.

(** ** The steps *)

Lemma step_of_step_at (s : value) (i : nat) :
  readable s = true -> step_of s i = Ok (step_at s i).
Proof.
  intros R. unfold step_of, step_at.
  rewrite !(prop_get_readable s _ R). simpl.
  destruct (is_string s); reflexivity.
Qed.

Lemma map_steps_step_at (steps : list value) :
  forall (i : nat) (ns : list value),
    map_steps steps i = Ok ns ->
    forall j, j < List.length steps ->
      nth_error ns j = Some (step_at (nth j steps VUndefined) (i + j)).
Proof.
  induction steps as [|s steps IH]; intros i ns; simpl.
  - intros _ j Hj. lia.
  - destruct (readable s) eqn:R.
    + rewrite (step_of_step_at s i R). simpl.
      destruct (map_steps steps (i + 1)) as [ns'|e] eqn:Em; [|discriminate].
      simpl. intros [= <-] [|j] Hj; simpl.
      * now rewrite Nat.add_0_r.
      * rewrite (IH (i + 1) ns' Em j) by lia.
        now replace (i + 1 + j) with (i + S j) by lia.
    + now rewrite (step_of_throws s i R).
Qed.

(** X4: when the node list is mapped from [steps], the node at position
    [i] is the object with the six members id, title, description,
    duration, type, resources, in this order: the id is step_<i+1> and the
    type task; the title is the entry itself when the entry is a string
    (an empty one included), else the entry's title when truthy, else
    Step <i+1>; description, duration and resources are the entry's when
    truthy, else the empty string, the empty string and the empty array. *)
Theorem normalizeRoadmap_steps (raw : value) (steps : list value) (r : Roadmap) :
  isArray (field raw (js "nodes")) = false ->
  field raw (js "steps") = VArray steps ->
  normalizeRoadmap raw = Ok r ->
  List.length (nodes r) = List.length steps
  /\ forall i, i < List.length steps ->
       nth_error (nodes r) i = Some (step_at (nth i steps VUndefined) i).
Proof.
  intros Hx Hs H. apply normalizeRoadmap_inv in H as (R & En & _).
  apply field_array_prop_get in Hs.
  rewrite (resolve_nodes_steps raw (field raw (js "nodes")) steps
             (field_readable raw _ R) Hx Hs) in En.
  split.
  - now apply map_steps_ok in En.
  - intros i Hi. exact (map_steps_step_at steps 0 (nodes r) En i Hi).
Qed.

Lemma normalizeRoadmap_steps_witness :
  exists r,
    normalizeRoadmap
      (VObject [(js "steps",
                 VArray [VString []; VObject [(js "title", VString [])]])])
    = Ok r
    /\ nth_error (nodes r) 0 = Some (step_at (VString []) 0)
    /\ nth_error (nodes r) 1
       = Some (step_at (VObject [(js "title", VString [])]) 1).
Proof.
  eexists. split; [reflexivity|].
  destruct (normalizeRoadmap_steps
              (VObject [(js "steps",
                         VArray [VString [];
                                 VObject [(js "title", VString [])]])])
              [VString []; VObject [(js "title", VString [])]]
              _ eq_refl eq_refl eq_refl) as [_ H].
  split; [exact (H 0 (le_S _ _ (le_n 1))) | exact (H 1 (le_n 2))].
Defined.

(** ** The repairer and a brace after the object *)

(** The text of an object is read as that object whatever follows it. *)
Lemma parse_object_then (ms : list (jstring * value)) (rest : jstring) :
  is_json (VObject ms) = true ->
  exists t,
    JSON_stringify (VObject ms) = Some t
    /\ Json.parse_value (Json.fuel_for (t ++ rest)) (t ++ rest)
       = Json.Parsed (VObject ms) rest.
Proof.
  intros Hjson. unfold JSON_stringify.
  rewrite JsonFacts.stringify_object. eexists. split; [reflexivity|].
  assert (Hex : exists f,
             Json.parse_value f
               ((123%N :: Json.join_commas
                            (List.flat_map Json.member_texts ms) ++ [125%N])
                ++ rest)
             = Json.Parsed (VObject ms) rest).
  { destruct ms as [|[k v] ms'].
    - exists 1. reflexivity.
    - assert (IH : Forall (fun kv => roundtrips (snd kv)) ((k, v) :: ms')).
      { apply Forall_forall. intros kv _. apply JsonFacts.roundtrips_all. }
      destruct (JsonFacts.roundtrip_members ms' k v rest IH Hjson) as (f & Hf).
      exists (S f). cbn [Json.parse_value]. unfold Json.value_body.
      cbn [List.app Json.skip_ws Json.is_ws N.eqb Pos.eqb orb].
      rewrite <- List.app_assoc. cbn [List.app].
      assert (Jv : is_json v = true).
      { cbn [is_json List.forallb snd] in Hjson.
        now apply andb_true_iff in Hjson. }
      destruct (JsonFacts.is_json_stringify v Jv) as (t & Et).
      assert (M1 : Json.member_texts (k, v) = [Json.quote k ++ 58%N :: t])
        by (unfold Json.member_texts; cbn [snd fst]; now rewrite Et).
      revert Hf. cbn [List.flat_map]. rewrite M1.
      cbn [List.app Json.join_commas]. unfold Json.quote.
      cbn [List.app Json.skip_ws Json.is_ws N.eqb Pos.eqb orb].
      now intros ->. }
  destruct Hex as (f & Hf).
  exact (JsonFacts.parse_value_at_fuel_for f _ _ _ Hf).
Qed.

Lemma skip_ws_nil_no_brace (l : jstring) :
  Json.skip_ws l = [] -> ~ In 125%N l.
Proof.
  induction l as [|c l IH]; simpl; [intros _ []|].
  destruct (Json.is_ws c) eqn:W; [|discriminate].
  intros H [E|Hin]; [subst c; discriminate | now apply IH].
Qed.

Lemma split_last_brace (l : jstring) :
  In 125%N l -> exists pre post, l = pre ++ 125%N :: post /\ ~ In 125%N post.
Proof.
  induction l as [|y l IH]; [intros []|].
  intros Hin. destruct (in_dec N.eq_dec 125%N l) as [Hl|Hl].
  - destruct (IH Hl) as (pre & post & -> & Hpost).
    now exists (y :: pre), post.
  - destruct Hin as [->|Hin]; [|contradiction].
    now exists [], l.
Qed.

(** X5: the expression is greedy. When the answer is not JSON as a whole
    and holds the text of a JSON object with no opening brace before it
    but a closing brace somewhere after it (a second object, a brace in
    the prose), the part extracted runs to that last brace and
    [repairJson] raises a [SyntaxError] instead of returning the object. *)
Theorem repairJson_brace_after_object
        (X : value) (t p q : jstring) (e : js_error) :
  is_json X = true -> is_object X = true ->
  JSON_stringify X = Some t ->
  ~ In 123%N p -> In 125%N q ->
  JSON_parse (p ++ t ++ q) = Throw e ->
  repairJson (p ++ t ++ q) = Throw SyntaxError.
Proof.
  intros Hjson Hobj Ht Hp Hq Hdirect.
  destruct (split_last_brace q Hq) as (q1 & q2 & -> & Hq2).
  destruct X as [| | | | | |ms]; try discriminate.
  destruct (parse_object_then ms (q1 ++ [125%N]) Hjson) as (t' & Et' & Hparse).
  assert (t' = t) by congruence. subst t'.
  destruct (stringify_object_braces (VObject ms) t Hobj Ht) as (mid & Emid).
  assert (Hm : match_braces (p ++ t ++ q1 ++ 125%N :: q2)
               = Some (t ++ q1 ++ [125%N])).
  { apply match_braces_some.
    exists p, (mid ++ 125%N :: q1), q2. subst t.
    repeat split; auto.
    - cbn [List.app]. rewrite <- !List.app_assoc. reflexivity.
    - cbn [List.app]. rewrite <- !List.app_assoc. reflexivity. }
  rewrite (repairJson_extract _ _ e Hdirect Hm).
  unfold JSON_parse, Json.parse. rewrite Hparse.
  destruct (Json.skip_ws (q1 ++ [125%N])) eqn:Es; [|reflexivity].
  exfalso. apply (skip_ws_nil_no_brace _ Es).
  apply in_or_app. right. now left.
Qed.

Lemma repairJson_brace_after_object_witness :
  repairJson (js "Plan: " ++ jsq "{'title':'A','steps':[]}"
              ++ js " or {}")
  = Throw SyntaxError.
Proof.
  apply (repairJson_brace_after_object title_a_parsed _ _ _ SyntaxError);
    try reflexivity.
  - simpl. intros H.
    repeat (destruct H as [H|H]; [discriminate|]). exact H.
  - simpl. tauto.
Defined.

(* ================================================================== *)
(** * The session routes and the page guard of [server.js] *)
(* ================================================================== *)

Module SessionFacts.
Import Session.

(** X6: the guard never answers 401, its branch for that is dead. A
    request under /api/ is let through whatever the session; any other is
    let through when the session holds a user whose [authenticated] is
    truthy, and is redirected to /login otherwise. *)
Theorem verifyIdToken_spec (originalUrl : jstring) (user : value) :
  verifyIdToken originalUrl user <> Unauthorized
  /\ (startsWith (js "/api/") originalUrl = true ->
      verifyIdToken originalUrl user = Next)
  /\ (startsWith (js "/api/") originalUrl = false ->
      verifyIdToken originalUrl user
      = if truthy user && truthy (field user (js "authenticated"))
        then Next else RedirectLogin).
Proof.
  unfold verifyIdToken.
  destruct (startsWith (js "/api/") originalUrl); simpl.
  - repeat split; [discriminate | discriminate].
  - destruct (truthy user); simpl;
      [destruct (truthy (field user (js "authenticated"))); simpl|];
      repeat split; discriminate.
Qed.

Lemma verifyIdToken_spec_witness :
  verifyIdToken (js "/dashboard") VUndefined = RedirectLogin.
Proof.
  exact (proj2 (proj2 (verifyIdToken_spec (js "/dashboard") VUndefined))
           eq_refl).
Defined.

(** X7: the outcomes of a login. Without a truthy [idToken] the answer is
    400; with a truthy one that is not a string the call of [substring]
    raises, the answer is 401; in both cases the session is left as it
    was. Any non-empty string is accepted: the answer is 200 and the
    session holds the user with the email given and the first 20
    characters of the token followed by three dots. *)
Theorem login_outcomes (user idToken email : value) :
  (truthy idToken = false ->
   login user idToken email
   = (user, mkReply 400 (VObject [(js "error", VString (js "No token provided"))])))
  /\ (truthy idToken = true -> is_string idToken = false ->
      login user idToken email
      = (user, mkReply 401 (VObject [(js "error", VString (js "Invalid token"))])))
  /\ (forall t, idToken = VString t -> t <> [] ->
      login user idToken email
      = (VObject [(js "authenticated", VBool true);
                  (js "email", email);
                  (js "token", VString (firstn 20 t ++ js "..."))],
         mkReply 200 (VObject [(js "success", VBool true)]))).
Proof.
  split; [|split].
  - intros H. unfold login. now rewrite H.
  - intros H Hs. unfold login. rewrite H. simpl.
    destruct idToken; try reflexivity; discriminate.
  - intros t -> Ht. unfold login. destruct t; [congruence|]. reflexivity.
Qed.

Lemma login_outcomes_witness :
  login VUndefined (VNumber 5 0) (VString (js "a@b.c"))
  = (VUndefined,
     mkReply 401 (VObject [(js "error", VString (js "Invalid token"))])).
Proof.
  exact (proj1 (proj2 (login_outcomes VUndefined (VNumber 5 0)
                         (VString (js "a@b.c")))) eq_refl eq_refl).
Defined.

Lemma serve_shape (user : value) (r : request) :
  session_shape user -> session_shape (fst (serve user r)).
Proof.
  intros H. destruct r as [idToken email| |]; simpl.
  - unfold login. destruct (truthy idToken); simpl; [|exact H].
    destruct idToken; simpl; try exact H.
    right. now exists email, s.
  - now left.
  - exact H.
Qed.

Lemma run_shape (rs : list request) :
  forall user, session_shape user -> session_shape (run user rs).
Proof.
  induction rs as [|r rs IH]; intros user H; simpl; [exact H|].
  apply IH. now apply serve_shape.
Qed.

Lemma run_app (rs rs' : list request) :
  forall user, run user (rs ++ rs') = run (run user rs) rs'.
Proof.
  induction rs as [|r rs IH]; intros user; simpl; [reflexivity|]. apply IH.
Qed.

(** X8: whatever requests a client sends to the three session routes,
    starting without a session, the session is either absent or the user
    object of a login. In the first case the status route reports not
    authenticated and the guard redirects every page request; in the second
    it reports authenticated with the stored email, the guard lets every
    request through, and the stored token excerpt has at most 23
    characters. *)
Theorem session_invariant (rs : list request) :
  let user := run VUndefined rs in
  (user = VUndefined
   /\ auth_status user
      = mkReply 200 (VObject [(js "authenticated", VBool false);
                              (js "user", VNull)])
   /\ forall url, startsWith (js "/api/") url = false ->
                  verifyIdToken url user = RedirectLogin)
  \/ (exists email excerpt,
        user = VObject [(js "authenticated", VBool true);
                        (js "email", email);
                        (js "token", VString excerpt)]
        /\ List.length excerpt <= 23
        /\ auth_status user
           = mkReply 200 (VObject [(js "authenticated", VBool true);
                                   (js "user", VObject [(js "email", email)])])
        /\ forall url, verifyIdToken url user = Next).
Proof.
  intros user.
  destruct (run_shape rs VUndefined (or_introl eq_refl)) as [E | (email & t & E)];
    fold user in E; rewrite E.
  - left. split; [reflexivity|]. split; [reflexivity|].
    intros url Hurl. unfold verifyIdToken. now rewrite Hurl.
  - right. exists email, (firstn 20 t ++ js "..."). split; [reflexivity|].
    split.
    + rewrite List.length_app. pose proof (firstn_le_length 20 t) as Hl.
      change (List.length (js "...")) with 3. lia.
    + split; [reflexivity|].
      intros url. unfold verifyIdToken.
      destruct (startsWith (js "/api/") url); reflexivity.
Qed.

Lemma session_invariant_witness :
  verifyIdToken (js "/app")
    (run VUndefined [Login (VString (js "tok")) (VString (js "a@b.c"));
                     AuthStatus])
  = Next.
Proof.
  pose proof (session_invariant
                [Login (VString (js "tok")) (VString (js "a@b.c"));
                 AuthStatus]) as H.
  cbv zeta in H.
  destruct H as [[E _]|(email & excerpt & _ & _ & _ & H)];
    [discriminate E | exact (H (js "/app"))].
Defined.

(** X9: the session after a sequence of requests is decided by the last
    login or logout in it: a logout ends any session, an accepted login
    replaces any session by the user of that login, and a status request
    changes nothing. *)
Theorem last_request_decides (user : value) (rs : list request) :
  run user (rs ++ [Logout]) = VUndefined
  /\ run user (rs ++ [AuthStatus]) = run user rs
  /\ forall t email,
       t <> [] ->
       run user (rs ++ [Login (VString t) email])
       = VObject [(js "authenticated", VBool true);
                  (js "email", email);
                  (js "token", VString (firstn 20 t ++ js "..."))].
Proof.
  rewrite !run_app. split; [reflexivity|]. split; [reflexivity|].
  intros t email Ht. rewrite run_app. simpl.
  destruct t; [congruence | reflexivity].
Qed.

Lemma last_request_decides_witness :
  run VUndefined ([Logout] ++ [Login (VString (js "t")) VNull])
  = VObject [(js "authenticated", VBool true);
             (js "email", VNull);
             (js "token", VString (firstn 20 (js "t") ++ js "..."))].
Proof.
  apply (proj2 (proj2 (last_request_decides VUndefined [Logout]))
           (js "t") VNull).
  discriminate.
Defined.

End SessionFacts.

(* ================================================================== *)
(** * Further properties of [server-patch.js] *)
(* ================================================================== *)

Module PatchFacts.
Import ServerPatch Patch.

(** ** The nodes and the edges of the in-place normalization *)

Lemma decimal_of_nat_head (n : nat) :
  exists d ds, decimal_of_nat n = char_of_digit d :: ds.
Proof. apply JsonFacts.decimal_of_N_head. Qed.

(** No index is one of the six member names. *)
Lemma lookup_default_indexed {A : Type} (wrap : A -> value) (l : list A)
      (k : jstring) (d : value) (i0 : nat) :
  In (k, d) (node_defaults i0) ->
  forall i, lookup k (indexed wrap l i) = None.
Proof.
  intros Hk. induction l as [|x l IH]; intros i; simpl; [reflexivity|].
  rewrite IH.
  destruct (decimal_of_nat_head i) as (c & cs & ->).
  simpl in Hk.
  repeat (destruct Hk as [[= <- _]|Hk]; [destruct c; reflexivity|]).
  contradiction.
Qed.

Lemma lookup_default_spread (node : value) (k : jstring) (d : value) (i0 : nat) :
  In (k, d) (node_defaults i0) ->
  lookup k (spread node) = own_member node k.
Proof.
  intros Hk. destruct node; simpl; try reflexivity;
    exact (lookup_default_indexed _ _ k d i0 Hk 0).
Qed.

Lemma own_member_none_field (node : value) (k : jstring) :
  own_member node k = None -> field node k = VUndefined.
Proof.
  intros E. unfold field.
  destruct node; simpl in *; try reflexivity. now rewrite E.
Qed.

Lemma node_of_readable (node : value) (index : nat) :
  readable node = true ->
  node_of node index = Ok (VObject (node_literal node index ++ spread node)).
Proof.
  intros R. unfold node_of. now rewrite !(prop_get_readable node _ R).
Qed.

(** X10: a node the handler rebuilds keeps every member its entry has of
    its own, falsy ones included (the spread comes last and wins over the
    [||] defaults); each of id, title, description, duration, type and
    resources that the entry lacks gets its default (step_n, Step n, the
    empty string twice, task, the empty array). *)
Theorem node_of_members (node : value) (index : nat) (n : value) :
  node_of node index = Ok n ->
  (forall k v, own_member node k = Some v -> field n k = v)
  /\ (forall k d, In (k, d) (node_defaults index) ->
                  own_member node k = None -> field n k = d).
Proof.
  destruct (readable node) eqn:R.
  2:{ unfold node_of. now rewrite (prop_get_unreadable node _ R). }
  rewrite (node_of_readable node index R). intros H.
  assert (E : n = VObject (node_literal node index ++ spread node))
    by congruence.
  clear H. subst n. split.
  - intros k v Hk. rewrite ServerPatchFacts.field_object_app.
    destruct node; try discriminate. simpl in Hk. simpl spread.
    now rewrite Hk.
  - intros k d Hk Hnone. rewrite ServerPatchFacts.field_object_app.
    rewrite (lookup_default_spread node k d index Hk), Hnone.
    simpl in Hk.
    repeat (destruct Hk as [Hk|Hk];
            [injection Hk as <- <-;
             unfold field at 1; simpl;
             rewrite (own_member_none_field node _ Hnone); reflexivity|]).
    contradiction.
Qed.

Lemma node_of_members_witness :
  exists n,
    node_of (VObject [(js "title", VString [])]) 0 = Ok n
    /\ field n (js "title") = VString []
    /\ field n (js "id") = VString (js "step_1").
Proof.
  eexists. split; [reflexivity|].
  destruct (node_of_members (VObject [(js "title", VString [])]) 0 _ eq_refl)
    as [H1 H2].
  split.
  - exact (H1 (js "title") (VString []) eq_refl).
  - exact (H2 (js "id") (VString (js "step_1")) (or_introl eq_refl) eq_refl).
Defined.

Lemma normalize_in_place_edges (roadmap : value) (ns : list value) :
  field roadmap (js "nodes") = VArray ns ->
  List.forallb readable ns = true ->
  exists out,
    normalize_in_place roadmap = Ok out
    /\ field out (js "edges")
       = if edges_missing (field roadmap (js "edges"))
         then VArray (List.map Link_as_value (chain_of ns))
         else field roadmap (js "edges").
Proof.
  intros Hn Hr.
  destruct roadmap as [| | | | | |ms]; try discriminate.
  destruct (ServerPatchFacts.map_nodes_total ns 0 Hr) as (ns' & Em).
  unfold normalize_in_place, edges_missing.
  rewrite !(prop_get_readable (VObject ms) _ eq_refl), Hn.
  simpl bind. rewrite (edges_loop_readable ns Hr).
  destruct (negb (truthy (field (VObject ms) (js "edges")))
            || is_zero (get_length (field (VObject ms) (js "edges"))));
    simpl bind; rewrite Em; simpl bind; eexists; (split; [reflexivity|]).
  - now rewrite !ServerPatchFacts.field_object_app.
  - now rewrite ServerPatchFacts.field_object_app.
Qed.

(** X11: the edges the handler sends are the supplied [edges] unless that
    value is falsy or has a length of zero, in which case they are the
    chain built from the ids of the entries as parsed. The test looks at
    the length only, so that a supplied value that is not an array (a
    non-empty string, an object) is sent as it is. *)
Theorem edges_resolved (roadmap : value) (ns : list value) :
  field roadmap (js "nodes") = VArray ns ->
  List.forallb readable ns = true ->
  exists out,
    normalize_in_place roadmap = Ok out
    /\ field out (js "edges")
       = if edges_missing (field roadmap (js "edges"))
         then VArray (List.map Link_as_value (chain_of ns))
         else field roadmap (js "edges").
Proof. exact (normalize_in_place_edges roadmap ns). Qed.

Lemma edges_resolved_witness :
  exists out,
    normalize_in_place
      (VObject [(js "nodes", VArray [VObject []; VObject []]);
                (js "edges", VString (js "a->b"))]) = Ok out
    /\ field out (js "edges") = VString (js "a->b").
Proof.
  exact (edges_resolved
           (VObject [(js "nodes", VArray [VObject []; VObject []]);
                     (js "edges", VString (js "a->b"))])
           [VObject []; VObject []] eq_refl eq_refl).
Defined.

Lemma map_seq_constant {A : Type} (f : nat -> A) (x : A) (c : nat) :
  forall a, (forall i, a <= i < a + c -> f i = x) ->
            List.map f (seq a c) = List.repeat x c.
Proof.
  induction c as [|c IH]; intros a H; simpl; [reflexivity|].
  rewrite (H a) by lia. f_equal. apply IH. intros i Hi. apply H. lia.
Qed.

Lemma map_repeat_value {A B : Type} (f : A -> B) (x : A) (c : nat) :
  List.map f (List.repeat x c) = List.repeat (f x) c.
Proof. induction c as [|c IH]; simpl; [reflexivity | now rewrite IH]. Qed.

(** X12: the chain is built before the nodes get their ids. When no edges
    are supplied and no entry has an id of its own, every edge sent has an
    undefined source and an undefined target, while the nodes sent carry
    the ids step_1, step_2, ...: the edges do not refer to the nodes. *)
Theorem edges_built_before_ids (roadmap : value) (ns : list value) :
  field roadmap (js "nodes") = VArray ns ->
  List.forallb readable ns = true ->
  edges_missing (field roadmap (js "edges")) = true ->
  (forall n, In n ns -> own_member n (js "id") = None) ->
  exists out ns',
    normalize_in_place roadmap = Ok out
    /\ field out (js "edges")
       = VArray (List.repeat
                   (Link_as_value
                      (mkLink VUndefined VUndefined (VString (js "Then"))))
                   (List.length ns - 1))
    /\ field out (js "nodes") = VArray ns'
    /\ List.length ns' = List.length ns
    /\ forall i, i < List.length ns ->
         field (nth i ns' VUndefined) (js "id")
         = VString (js "step_" ++ decimal_of_nat (i + 1)).
Proof.
  intros Hn Hr Hmiss Hids.
  destruct (ServerPatchFacts.normalize_in_place_spec roadmap ns Hn Hr)
    as (out & ns' & Hout & _ & _ & Hnodes & Hlen & Hid).
  destruct (normalize_in_place_edges roadmap ns Hn Hr)
    as (out' & Hout' & Hedges).
  assert (out' = out) by congruence. subst out'.
  exists out, ns'. split; [exact Hout|]. split; [|split; [exact Hnodes|split]].
  - rewrite Hedges, Hmiss. f_equal. unfold chain_of.
    rewrite (map_seq_constant (link_at ns)
               (mkLink VUndefined VUndefined (VString (js "Then")))).
    + apply map_repeat_value.
    + intros i Hi. unfold link_at.
      rewrite !own_member_none_field; [reflexivity| |];
        apply Hids; apply nth_In; lia.
  - exact Hlen.
  - intros i Hi. rewrite (Hid i Hi).
    now rewrite (Hids _ (nth_In ns VUndefined Hi)).
Qed.

Lemma edges_built_before_ids_witness :
  exists out,
    normalize_in_place
      (VObject [(js "nodes",
                 VArray [VObject [(js "title", VString (js "A"))];
                         VObject [(js "title", VString (js "B"))]])])
    = Ok out
    /\ field out (js "edges")
       = VArray [Link_as_value
                   (mkLink VUndefined VUndefined (VString (js "Then")))].
Proof.
  destruct (edges_built_before_ids
              (VObject [(js "nodes",
                         VArray [VObject [(js "title", VString (js "A"))];
                                 VObject [(js "title", VString (js "B"))]])])
              [VObject [(js "title", VString (js "A"))];
               VObject [(js "title", VString (js "B"))]]
              eq_refl eq_refl eq_refl)
    as (out & ns' & H1 & H2 & _).
  - intros n [<-|[<-|[]]]; reflexivity.
  - exists out. split; [exact H1 | exact H2].
Defined.

End PatchFacts.

(* ================================================================== *)
(** * The handler of [server-patch.js], from the answer to the reply *)
(* ================================================================== *)

Module PatchHandlerFacts.
Import ServerPatch Patch.

(** ** Prefixes and occurrences *)

Lemma starts_with_app (p r : jstring) : starts_with p (p ++ r) = Some r.
Proof.
  induction p as [|x p IH]; simpl; [reflexivity|]. now rewrite N.eqb_refl.
Qed.

Lemma starts_with_some (p : jstring) :
  forall s r, starts_with p s = Some r -> s = p ++ r.
Proof.
  induction p as [|x p IH]; intros s r; simpl.
  - now intros [= ->].
  - destruct s as [|y s]; [discriminate|].
    destruct (N.eqb x y) eqn:E; [|discriminate].
    apply N.eqb_eq in E as ->. intros H. now rewrite (IH s r H).
Qed.

Lemma startsWith_false (p s : jstring) :
  Session.startsWith p s = false -> starts_with p s = None.
Proof.
  unfold Session.startsWith. now destruct (starts_with p s).
Qed.

Lemma includes_eq (s sub : jstring) :
  includes s sub
  = match starts_with sub s with
    | Some _ => true
    | None => match s with [] => false | _ :: rest => includes rest sub end
    end.
Proof. destruct s; reflexivity. Qed.

Lemma includes_app_left (a s sub : jstring) :
  includes s sub = true -> includes (a ++ s) sub = true.
Proof.
  intros H. induction a as [|x a IH]; [exact H|].
  rewrite includes_eq. simpl List.app.
  destruct (starts_with sub (x :: a ++ s)); [reflexivity | exact IH].
Qed.

Lemma includes_prefix (q r : jstring) : includes (q ++ r) q = true.
Proof. rewrite includes_eq. now rewrite starts_with_app. Qed.

(** A text that includes [p ++ q] includes [q]. *)
Lemma includes_weaken (p q : jstring) :
  forall s, includes s (p ++ q) = true -> includes s q = true.
Proof.
  induction s as [|c s IH]; rewrite (includes_eq _ (p ++ q)).
  - destruct (starts_with (p ++ q) []) as [r|] eqn:E; [|discriminate].
    intros _. apply starts_with_some in E. rewrite E, <- List.app_assoc.
    apply includes_app_left, includes_prefix.
  - destruct (starts_with (p ++ q) (c :: s)) as [r|] eqn:E.
    + intros _. apply starts_with_some in E. rewrite E, <- List.app_assoc.
      apply includes_app_left, includes_prefix.
    + intros H. rewrite includes_eq.
      destruct (starts_with q (c :: s)); [reflexivity | now apply IH].
Qed.

(** ** [trim] *)

Lemma trim_start_spaces (ws x : jstring) :
  all_space ws -> trim_start (ws ++ x) = trim_start x.
Proof.
  unfold all_space. induction 1 as [|c ws Hc _ IH]; simpl; [reflexivity|].
  now rewrite Hc.
Qed.

Lemma trim_end_all_space (ws : jstring) : all_space ws -> trim_end ws = [].
Proof.
  unfold all_space. induction 1 as [|c ws Hc _ IH]; simpl; [reflexivity|].
  now rewrite IH, Hc.
Qed.

Lemma trim_end_spaces (a ws : jstring) :
  all_space ws -> trim_end (a ++ ws) = trim_end a.
Proof.
  intros H. induction a as [|x a IH]; simpl;
    [now apply trim_end_all_space | now rewrite IH].
Qed.

Lemma trim_end_keep (a b : jstring) :
  b <> [] -> trim_end b = b -> trim_end (a ++ b) = a ++ b.
Proof.
  intros Hb E. induction a as [|x a IH]; simpl; [exact E|].
  rewrite IH. destruct (a ++ b) eqn:F; [|reflexivity].
  apply List.app_eq_nil in F as [_ F]. congruence.
Qed.

(** White space around a text that starts and ends with something else is
    what [trim] removes. *)
Lemma trim_framed (ws ws' a b : jstring) (c : N) :
  all_space ws -> all_space ws' -> is_js_space c = false ->
  b <> [] -> trim_end b = b ->
  trim (ws ++ (c :: a ++ b) ++ ws') = c :: a ++ b.
Proof.
  intros H H' Hc Hb Eb. unfold trim.
  rewrite (trim_start_spaces ws _ H).
  assert (E : trim_start ((c :: a ++ b) ++ ws') = (c :: a ++ b) ++ ws')
    by (simpl; now rewrite Hc).
  rewrite E, (trim_end_spaces _ ws' H').
  exact (trim_end_keep (c :: a) b Hb Eb).
Qed.

(** ** The fence *)

Lemma remove_suffix_app (q t : jstring) : remove_suffix q (t ++ q) = t.
Proof.
  unfold remove_suffix.
  rewrite List.rev_app_distr, starts_with_app. apply List.rev_involutive.
Qed.

(** What [replace] leaves of a text keeps its first character, when the
    suffix removed starts with another one. *)
Lemma remove_suffix_head (q' s' : jstring) (c d : N) :
  c <> d -> exists r, remove_suffix (d :: q') (c :: s') = c :: r.
Proof.
  intros Hcd. unfold remove_suffix.
  destruct (starts_with (List.rev (d :: q')) (List.rev (c :: s')))
    as [r|] eqn:E; [|now eexists].
  apply starts_with_some in E.
  apply (f_equal (@List.rev N)) in E.
  rewrite List.rev_app_distr, !List.rev_involutive in E.
  destruct (List.rev r) as [|x l].
  - simpl in E. congruence.
  - simpl in E. injection E as -> _. now eexists.
Qed.

Lemma fence_line_not_nil : 10%N :: fence <> [].
Proof. discriminate. Qed.

Lemma strip_fence_json (ws ws' t : jstring) :
  all_space ws -> all_space ws' -> strip_fence (ws ++ fenced t ++ ws') = t.
Proof.
  intros H H'. unfold strip_fence.
  change (fenced t)
    with (96%N :: (js "``json" ++ 10%N :: t) ++ 10%N :: fence).
  rewrite (trim_framed ws ws' (js "``json" ++ 10%N :: t) (10%N :: fence)
             96%N H H' eq_refl (fence_line_not_nil) eq_refl).
  change (Session.startsWith fence_json
            (96%N :: (js "``json" ++ 10%N :: t) ++ 10%N :: fence)) with true.
  cbv iota.
  change (remove_prefix (fence_json ++ [10%N])
            (96%N :: (js "``json" ++ 10%N :: t) ++ 10%N :: fence))
    with (t ++ 10%N :: fence).
  apply remove_suffix_app.
Qed.

Lemma strip_fence_bare (ws ws' t : jstring) :
  all_space ws -> all_space ws' ->
  strip_fence (ws ++ fenced_bare t ++ ws') = t.
Proof.
  intros H H'. unfold strip_fence.
  change (fenced_bare t)
    with (96%N :: (js "``" ++ 10%N :: t) ++ 10%N :: fence).
  rewrite (trim_framed ws ws' (js "``" ++ 10%N :: t) (10%N :: fence)
             96%N H H' eq_refl (fence_line_not_nil) eq_refl).
  change (Session.startsWith fence_json
            (96%N :: (js "``" ++ 10%N :: t) ++ 10%N :: fence)) with false.
  change (Session.startsWith fence
            (96%N :: (js "``" ++ 10%N :: t) ++ 10%N :: fence)) with true.
  cbv iota.
  change (remove_prefix (fence ++ [10%N])
            (96%N :: (js "``" ++ 10%N :: t) ++ 10%N :: fence))
    with (t ++ 10%N :: fence).
  apply remove_suffix_app.
Qed.

Lemma strip_fence_keeps_backquote (text : jstring) :
  Session.startsWith fence (trim text) = true ->
  Session.startsWith (fence ++ [10%N]) (trim text) = false ->
  Session.startsWith (fence_json ++ [10%N]) (trim text) = false ->
  exists rest, strip_fence text = 96%N :: rest.
Proof.
  intros Hf Hn Hj. unfold strip_fence.
  apply startsWith_false in Hn. apply startsWith_false in Hj.
  unfold remove_prefix. rewrite Hn, Hj.
  unfold Session.startsWith in Hf.
  destruct (starts_with fence (trim text)) as [r|] eqn:E; [|discriminate].
  apply starts_with_some in E. rewrite E.
  change (fence ++ r) with (96%N :: js "``" ++ r).
  destruct (Session.startsWith fence_json (96%N :: js "``" ++ r)).
  - apply remove_suffix_head. discriminate.
  - destruct (Session.startsWith fence (96%N :: js "``" ++ r)).
    + apply remove_suffix_head. discriminate.
    + now eexists.
Qed.

Lemma generate_roadmap_try_ok (platform : js_error -> jstring)
      (text : jstring) :
  generate_roadmap_try platform true (Ok text)
  = (roadmap <- JSON_parse (strip_fence text) ;;
     normalize_in_place roadmap).
Proof. reflexivity. Qed.

(** X13: a fence around the answer is removed, with or without the word
    json after the opening backquotes and whatever white space surrounds
    the block: what is parsed is the text between the two fence lines, for
    every text. *)
Theorem strip_fence_fenced (ws ws' t : jstring) :
  all_space ws -> all_space ws' ->
  strip_fence (ws ++ fenced t ++ ws') = t
  /\ strip_fence (ws ++ fenced_bare t ++ ws') = t.
Proof.
  intros H H'. split;
    [now apply strip_fence_json | now apply strip_fence_bare].
Qed.

Lemma strip_fence_fenced_witness :
  strip_fence (js " " ++ fenced (jsq "{'nodes':[]}") ++ [10%N])
  = jsq "{'nodes':[]}".
Proof.
  refine (proj1 (strip_fence_fenced (js " ") [10%N] (jsq "{'nodes':[]}") _ _));
    repeat constructor.
Defined.

(** X14: an opening fence that is not followed by a line break is not
    removed: the text handed to [JSON.parse] still starts with a
    backquote, and the handler fails with a [SyntaxError]. *)
Theorem fence_on_one_line (platform : js_error -> jstring) (text : jstring) :
  Session.startsWith fence (trim text) = true ->
  Session.startsWith (fence ++ [10%N]) (trim text) = false ->
  Session.startsWith (fence_json ++ [10%N]) (trim text) = false ->
  generate_roadmap_try platform true (Ok text) = Throw SyntaxError.
Proof.
  intros Hf Hn Hj.
  destruct (strip_fence_keeps_backquote text Hf Hn Hj) as (rest & E).
  rewrite generate_roadmap_try_ok, E. now rewrite JSON_parse_backquote.
Qed.

Lemma fence_on_one_line_witness :
  generate_roadmap_try sample_platform true
    (Ok (js "```json " ++ jsq "{'nodes':[]}" ++ js "```"))
  = Throw SyntaxError.
Proof.
  exact (fence_on_one_line sample_platform
           (js "```json " ++ jsq "{'nodes':[]}" ++ js "```")
           eq_refl eq_refl eq_refl).
Defined.

(** ** The replies *)

Lemma build_prompt_ok (goal settings : value) :
  is_string goal = true ->
  to_text_raises (maxSteps_of settings) = false ->
  build_prompt goal settings = Ok tt.
Proof.
  intros S M. unfold build_prompt. rewrite M.
  destruct goal; try discriminate. reflexivity.
Qed.

Lemma build_prompt_raises (goal settings : value) :
  to_text_raises (maxSteps_of settings) = true ->
  build_prompt goal settings = Throw TypeError.
Proof.
  intros M. unfold build_prompt. now rewrite M, orb_true_r.
Qed.

Lemma generate_roadmap_goal (platform : js_error -> jstring) (key : bool)
      (goal settings : value) (sdk : result jstring) :
  truthy goal = true -> is_string goal = true ->
  to_text_raises (maxSteps_of settings) = false ->
  generate_roadmap platform key goal settings sdk
  = match generate_roadmap_try platform key sdk with
    | Ok roadmap =>
        Session.mkReply 200
          (VObject
             [(js "success", VBool true);
              (js "roadmap", roadmap);
              (js "message",
               VString (js "Created roadmap with "
                        ++ decimal_of_nat (nodes_length roadmap)
                        ++ js " steps"))])
    | Throw error =>
        Session.mkReply (statusCode (error_text platform error))
          (VObject
             [(js "error",
               VString (js "Failed to generate roadmap: "
                        ++ error_text platform error))])
    end.
Proof.
  intros G S M. unfold generate_roadmap.
  now rewrite G, S, (build_prompt_ok goal settings S M).
Qed.

(** X15: for a string goal and settings whose [maxSteps] converts to
    text, a fenced answer whose text parses to a roadmap with a [nodes]
    array of readable entries is answered with 200, the roadmap
    normalized in place, and a message that counts the entries of that
    array; an empty array is accepted like any other. *)
Theorem generate_roadmap_fenced (platform : js_error -> jstring)
        (goal settings : value) (ws ws' t : jstring) (roadmap : value)
        (ns : list value) :
  truthy goal = true -> is_string goal = true ->
  to_text_raises (maxSteps_of settings) = false ->
  all_space ws -> all_space ws' ->
  JSON_parse t = Ok roadmap ->
  field roadmap (js "nodes") = VArray ns ->
  List.forallb readable ns = true ->
  exists out,
    normalize_in_place roadmap = Ok out
    /\ generate_roadmap platform true goal settings
         (Ok (ws ++ fenced t ++ ws'))
       = Session.mkReply 200
           (VObject
              [(js "success", VBool true);
               (js "roadmap", out);
               (js "message",
                VString (js "Created roadmap with "
                         ++ decimal_of_nat (List.length ns)
                         ++ js " steps"))]).
Proof.
  intros G S M H H' Ep Hn Hr.
  destruct (ServerPatchFacts.normalize_in_place_spec roadmap ns Hn Hr)
    as (out & ns' & Hout & _ & _ & Hnodes & Hlen & _).
  exists out. split; [exact Hout|].
  rewrite (generate_roadmap_goal platform true goal settings _ G S M).
  rewrite generate_roadmap_try_ok, (strip_fence_json ws ws' t H H'), Ep.
  cbn [bind]. rewrite Hout.
  unfold nodes_length. now rewrite Hnodes, Hlen.
Qed.

Lemma generate_roadmap_fenced_witness :
  exists out,
    normalize_in_place (VObject [(js "nodes", VArray [])]) = Ok out
    /\ generate_roadmap sample_platform true (VString (js "Go")) VUndefined
         (Ok ([] ++ fenced (jsq "{'nodes':[]}") ++ []))
       = Session.mkReply 200
           (VObject
              [(js "success", VBool true);
               (js "roadmap", out);
               (js "message", VString (js "Created roadmap with 0 steps"))]).
Proof.
  refine (generate_roadmap_fenced sample_platform (VString (js "Go"))
            VUndefined
            [] [] (jsq "{'nodes':[]}") (VObject [(js "nodes", VArray [])]) []
            eq_refl eq_refl eq_refl _ _ eq_refl eq_refl eq_refl);
    constructor.
Defined.

(** X16: what the handler refuses. A goal that is falsy or not a string
    is answered with 400 before anything is generated. For a string goal
    and settings whose [maxSteps] converts to text, an answer that parses
    to a value other than null whose [nodes] is not an array (a number, a
    string, an array, an object without [nodes]) is answered with 500
    and the message of the structure check. *)
Theorem generate_roadmap_refusals (platform : js_error -> jstring)
        (key : bool) (goal settings : value) (sdk : result jstring) :
  (truthy goal && is_string goal = false ->
   generate_roadmap platform key goal settings sdk
   = Session.mkReply 400
       (VObject [(js "error", VString (js "Goal is required"))]))
  /\ (forall text roadmap,
        truthy goal = true -> is_string goal = true ->
        to_text_raises (maxSteps_of settings) = false ->
        key = true -> sdk = Ok text ->
        JSON_parse (strip_fence text) = Ok roadmap ->
        readable roadmap = true ->
        isArray (field roadmap (js "nodes")) = false ->
        generate_roadmap platform key goal settings sdk
        = Session.mkReply 500
            (VObject
               [(js "error",
                 VString (js "Failed to generate roadmap: Invalid roadmap structure: missing nodes array"))])).
Proof.
  split.
  - intros H. unfold generate_roadmap.
    destruct (truthy goal); [|reflexivity].
    simpl in H. now rewrite H.
  - intros text roadmap G S M -> -> Ep R Hn.
    rewrite (generate_roadmap_goal platform true goal settings _ G S M).
    rewrite generate_roadmap_try_ok, Ep.
    cbn [bind]. unfold normalize_in_place.
    rewrite (prop_get_readable roadmap _ R). cbn [bind].
    destruct (field roadmap (js "nodes")); try discriminate; reflexivity.
Qed.

Lemma generate_roadmap_refusals_witness :
  generate_roadmap sample_platform true (VString (js "Go")) VUndefined
    (Ok (jsq "{'steps':['a']}"))
  = Session.mkReply 500
      (VObject
         [(js "error",
           VString (js "Failed to generate roadmap: Invalid roadmap structure: missing nodes array"))]).
Proof.
  exact (proj2 (generate_roadmap_refusals sample_platform true
                  (VString (js "Go")) VUndefined
                  (Ok (jsq "{'steps':['a']}")))
           (jsq "{'steps':['a']}")
           (VObject [(js "steps", VArray [VString (js "a")])])
           eq_refl eq_refl eq_refl eq_refl eq_refl eq_refl eq_refl eq_refl).
Defined.

(** X17: the prompt is built inside [try], before the key is looked at.
    For a string goal, when the conversion of [maxSteps] to text raises
    (an object with a member toString of its own), the reply is that of
    the [TypeError], with or without a key and whatever the model would
    answer. When it does not raise and no key is set, the reply is 503:
    the model is not called, and the message of [getGeminiModel] passes
    the rewriting of [generateWithGemini] unchanged. *)
Theorem generate_roadmap_without_key (platform : js_error -> jstring)
        (goal settings : value) (sdk : result jstring) :
  truthy goal = true -> is_string goal = true ->
  (to_text_raises (maxSteps_of settings) = true ->
   forall key,
     generate_roadmap platform key goal settings sdk
     = Session.mkReply (statusCode (platform TypeError))
         (VObject
            [(js "error",
              VString (js "Failed to generate roadmap: "
                       ++ platform TypeError))]))
  /\ (to_text_raises (maxSteps_of settings) = false ->
      generate_roadmap platform false goal settings sdk
      = Session.mkReply 503
          (VObject
             [(js "error",
               VString (js "Failed to generate roadmap: GEMINI_API_KEY is not configured"))])).
Proof.
  intros G S. split.
  - intros M key. unfold generate_roadmap.
    now rewrite G, S, (build_prompt_raises goal settings M).
  - intros M.
    rewrite (generate_roadmap_goal platform false goal settings sdk G S M).
    reflexivity.
Qed.

Lemma generate_roadmap_without_key_witness :
  generate_roadmap conversion_platform false (VString (js "Go"))
    settings_not_text (Ok (jsq "{'nodes':[]}"))
  = Session.mkReply 500
      (VObject
         [(js "error",
           VString (js "Failed to generate roadmap: Cannot convert object to primitive value"))])
  /\ generate_roadmap conversion_platform false (VString (js "Go"))
       VUndefined (Ok (jsq "{'nodes':[]}"))
     = Session.mkReply 503
         (VObject
            [(js "error",
              VString (js "Failed to generate roadmap: GEMINI_API_KEY is not configured"))]).
Proof.
  split.
  - exact (proj1 (generate_roadmap_without_key conversion_platform
                    (VString (js "Go")) settings_not_text
                    (Ok (jsq "{'nodes':[]}")) eq_refl eq_refl)
             eq_refl false).
  - exact (proj2 (generate_roadmap_without_key conversion_platform
                    (VString (js "Go")) VUndefined
                    (Ok (jsq "{'nodes':[]}")) eq_refl eq_refl)
             eq_refl).
Defined.

Lemma model_not_found_weaker (message : jstring) :
  includes message (js "not found") = false ->
  includes message (js "model not found") = false.
Proof.
  intros H. destruct (includes message (js "model not found")) eqn:E;
    [|reflexivity].
  rewrite (includes_weaken (js "model ") (js "not found") message E) in H.
  discriminate.
Qed.

(** X18: the third test of the catch of [generateWithGemini] never
    decides: a message that includes model not found includes not found,
    so that the function behaves as without that test. *)
Theorem model_not_found_redundant (platform : js_error -> jstring)
        (key : bool) (modelName : jstring) (sdk : result jstring) :
  generateWithGemini platform key modelName sdk
  = match
      (if key then sdk
       else Throw (JsError (js "GEMINI_API_KEY is not configured")))
    with
    | Ok text => Ok text
    | Throw error =>
        let message := error_text platform error in
        if includes message (js "404") || includes message (js "not found")
        then Throw (JsError (model_unavailable modelName))
        else if includes message (js "API key")
        then Throw (JsError (js "Invalid or missing Gemini API key. Please check your .env file."))
        else Throw error
    end.
Proof.
  unfold generateWithGemini.
  destruct (if key then sdk else _) as [text|error]; [reflexivity|].
  cbv zeta.
  destruct (includes (error_text platform error) (js "404")); [reflexivity|].
  destruct (includes (error_text platform error) (js "not found")) eqn:E;
    [reflexivity|].
  now rewrite (model_not_found_weaker _ E).
Qed.

(** X19: how a failure of the model is reported, for a string goal and
    settings whose [maxSteps] converts to text. When the message of the
    failure includes 404 or not found, the reply is 500 and names the
    model, not the message; otherwise, when it includes API key, the reply
    is 500 with the text about the key; otherwise the message is passed
    on, with 503 when it includes not configured and 500 when not. *)
Theorem sdk_failure_reply (platform : js_error -> jstring)
        (goal settings : value) (e : js_error) :
  truthy goal = true -> is_string goal = true ->
  to_text_raises (maxSteps_of settings) = false ->
  let message := error_text platform e in
  (includes message (js "404") || includes message (js "not found") = true ->
   generate_roadmap platform true goal settings (Throw e)
   = Session.mkReply 500
       (VObject
          [(js "error",
            VString (js "Failed to generate roadmap: "
                     ++ model_unavailable (js "gemini-1.5-flash")))]))
  /\ (includes message (js "404") || includes message (js "not found") = false ->
      includes message (js "API key") = true ->
      generate_roadmap platform true goal settings (Throw e)
      = Session.mkReply 500
          (VObject
             [(js "error",
               VString (js "Failed to generate roadmap: Invalid or missing Gemini API key. Please check your .env file."))]))
  /\ (includes message (js "404") || includes message (js "not found") = false ->
      includes message (js "API key") = false ->
      generate_roadmap platform true goal settings (Throw e)
      = Session.mkReply
          (if includes message (js "not configured") then 503 else 500)
          (VObject
             [(js "error",
               VString (js "Failed to generate roadmap: " ++ message))])).
Proof.
  intros G S M message.
  rewrite (generate_roadmap_goal platform true goal settings _ G S M).
  unfold generate_roadmap_try, generateWithGemini. fold message.
  destruct (includes message (js "404") || includes message (js "not found"))
    eqn:E.
  - split; [|split]; try discriminate. intros _. reflexivity.
  - apply orb_false_iff in E as [_ E].
    rewrite (model_not_found_weaker message E).
    split; [discriminate|]. split; intros _ K; rewrite K; reflexivity.
Qed.

Lemma sdk_failure_reply_witness :
  generate_roadmap sample_platform true (VString (js "Go")) VUndefined
    (Throw (JsError (js "quota is not configured")))
  = Session.mkReply 503
      (VObject
         [(js "error",
           VString (js "Failed to generate roadmap: quota is not configured"))]).
Proof.
  exact (proj2 (proj2 (sdk_failure_reply sample_platform (VString (js "Go"))
                         VUndefined
                         (JsError (js "quota is not configured"))
                         eq_refl eq_refl eq_refl))
           eq_refl eq_refl).
Defined.

(** ** The routes for the chat and for refining *)

Lemma read_messages_readable (ms : list value) :
  List.forallb readable ms = true -> read_messages ms = Ok tt.
Proof.
  induction ms as [|m ms IH]; simpl; [reflexivity|].
  intros H. apply andb_true_iff in H as [R Hr].
  rewrite !(prop_get_readable m _ R). exact (IH Hr).
Qed.

Lemma read_messages_unreadable (ms : list value) :
  List.forallb readable ms = false -> read_messages ms = Throw TypeError.
Proof.
  induction ms as [|m ms IH]; simpl; [discriminate|].
  destruct (readable m) eqn:R; simpl.
  - intros H. rewrite !(prop_get_readable m _ R). exact (IH H).
  - intros _. now rewrite (prop_get_unreadable m _ R).
Qed.

(** X20: the chat route. Anything but an array of messages is answered
    with 400. With an array whose entries can all be read, the text of
    the model is the content of the reply, unchanged. An entry that is
    null fails the request with a [TypeError] before the model is asked,
    whether or not a key is set. *)
Theorem chat_outcomes (platform : js_error -> jstring) (key : bool)
        (messages : value) (sdk : result jstring) :
  (isArray messages = false ->
   chat platform key messages sdk
   = Session.mkReply 400
       (VObject [(js "error", VString (js "Messages array required"))]))
  /\ (forall ms text,
        messages = VArray ms -> List.forallb readable ms = true ->
        key = true -> sdk = Ok text ->
        chat platform key messages sdk
        = Session.mkReply 200 (VObject [(js "content", VString text)]))
  /\ (forall ms,
        messages = VArray ms -> List.forallb readable ms = false ->
        chat platform key messages sdk
        = Session.mkReply (statusCode (platform TypeError))
            (VObject
               [(js "error",
                 VString (js "Failed to generate response: "
                          ++ platform TypeError))])).
Proof.
  split; [|split].
  - intros H. unfold chat. rewrite H. now rewrite orb_true_r.
  - intros ms text -> Hr -> ->. unfold chat.
    cbn [truthy isArray negb orb]. now rewrite (read_messages_readable ms Hr).
  - intros ms -> Hr. unfold chat.
    cbn [truthy isArray negb orb].
    now rewrite (read_messages_unreadable ms Hr).
Qed.

Lemma chat_outcomes_witness :
  chat sample_platform false
    (VArray [VObject [(js "role", VString (js "user"))]; VNull])
    (Ok (js "Hi"))
  = Session.mkReply 500
      (VObject
         [(js "error",
           VString (js "Failed to generate response: Cannot read properties of null"))]).
Proof.
  exact (proj2 (proj2 (chat_outcomes sample_platform false
                         (VArray [VObject [(js "role", VString (js "user"))];
                                  VNull])
                         (Ok (js "Hi"))))
           _ eq_refl eq_refl).
Defined.

(** X21: the route for refining checks the roadmap it receives, not the
    one it sends. For an acceptable request and a fenced answer that is
    the text of a JSON value, the reply is 200 and carries that value as
    the roadmap, whatever it is: an object without nodes, an array, a
    number or null. *)
Theorem refine_roadmap_passes_through (platform : js_error -> jstring)
        (originalRoadmap feedback : value) (ws ws' t : jstring) (v : value) :
  truthy originalRoadmap = true ->
  truthy (field originalRoadmap (js "nodes")) = true ->
  truthy feedback = true -> is_string feedback = true ->
  all_space ws -> all_space ws' ->
  is_json v = true -> JSON_stringify v = Some t ->
  refine_roadmap platform true originalRoadmap feedback
    (Ok (ws ++ fenced t ++ ws'))
  = Session.mkReply 200
      (VObject [(js "success", VBool true); (js "roadmap", v)]).
Proof.
  intros Ho Hn Hf Hs H H' Hj Et. unfold refine_roadmap.
  rewrite Ho, Hn, Hf, Hs. cbn [negb orb].
  destruct (JSON_parse_stringify v Hj) as (t' & Et' & Ep).
  assert (t' = t) by congruence. subst t'.
  assert (E : generateWithGemini platform true (js "gemini-1.5-flash")
                (Ok (ws ++ fenced t ++ ws'))
              = Ok (ws ++ fenced t ++ ws')) by reflexivity.
  rewrite E. cbn [bind].
  now rewrite (strip_fence_json ws ws' t H H'), Ep.
Qed.

Lemma refine_roadmap_passes_through_witness :
  refine_roadmap sample_platform true
    (VObject [(js "nodes", VArray [])]) (VString (js "shorter"))
    (Ok ([] ++ fenced (js "null") ++ [10%N]))
  = Session.mkReply 200
      (VObject [(js "success", VBool true); (js "roadmap", VNull)]).
Proof.
  refine (refine_roadmap_passes_through sample_platform
            (VObject [(js "nodes", VArray [])]) (VString (js "shorter"))
            [] [10%N] (js "null") VNull
            eq_refl eq_refl eq_refl eq_refl _ _ eq_refl eq_refl);
    repeat constructor.
Defined.

(** ** The guard *)

Lemma split_first_eq (sep s : jstring) :
  split_first sep s
  = match starts_with sep s with
    | Some rest => Some ([], rest)
    | None =>
        match s with
        | [] => None
        | c :: s' =>
            match split_first sep s' with
            | Some (before, after) => Some (c :: before, after)
            | None => None
            end
        end
    end.
Proof. destruct s; reflexivity. Qed.

Lemma split_first_none (sep : jstring) :
  forall s, includes s sep = false -> split_first sep s = None.
Proof.
  induction s as [|c s IH]; rewrite includes_eq, split_first_eq;
    destruct (starts_with sep _); try discriminate; [reflexivity|].
  intros H. now rewrite (IH H).
Qed.

(** The part before the first separator is empty only when the text
    starts with the separator. *)
Lemma split_1_truthy (sep tok : jstring) :
  truthy (match split_first sep tok with
          | Some (part, _) => VString part
          | None => VString tok
          end)
  = match tok with [] => false | _ => true end
    && negb (Session.startsWith sep tok).
Proof.
  unfold Session.startsWith. rewrite split_first_eq.
  destruct (starts_with sep tok) as [r|].
  - simpl. now rewrite andb_false_r.
  - destruct tok as [|c tok]; [reflexivity|].
    now destruct (split_first sep tok) as [[before after]|].
Qed.

(** X22: a page request without a truthy cookie. A header of the form
    Bearer tok is let through exactly when tok is not empty and does not
    itself start with Bearer and a space; nothing else about the token is
    looked at. Without a header, or with one that does not include Bearer
    and a space, the request is redirected to the login page when it
    accepts html and answered with 401 and No token provided when not. *)
Theorem verifyIdToken_header (path : jstring) (cookie : value) (html : bool) :
  Session.startsWith (js "/api/") path = false ->
  truthy cookie = false ->
  let refused :=
    if html then RedirectLogin
    else Unauthorized (js "Unauthorized: No token provided") in
  (forall tok,
     verifyIdToken path cookie (Some (js "Bearer " ++ tok)) html
     = if match tok with [] => false | _ => true end
          && negb (Session.startsWith (js "Bearer ") tok)
       then Next else refused)
  /\ verifyIdToken path cookie None html = refused
  /\ (forall h, includes h (js "Bearer ") = false ->
                verifyIdToken path cookie (Some h) html = refused).
Proof.
  intros Hp Hc refused. unfold verifyIdToken, js_or. rewrite Hp, Hc.
  split; [|split].
  - intros tok. unfold split_1.
    rewrite (split_first_eq _ (js "Bearer " ++ tok)), starts_with_app.
    rewrite split_1_truthy.
    now destruct (match tok with [] => false | _ => true end
                  && negb (Session.startsWith (js "Bearer ") tok)).
  - reflexivity.
  - intros h Hh. unfold split_1. now rewrite (split_first_none _ h Hh).
Qed.

Lemma verifyIdToken_header_witness :
  verifyIdToken (js "/dashboard") VUndefined (Some (js "Bearer x")) false
  = Next.
Proof.
  exact (proj1 (verifyIdToken_header (js "/dashboard") VUndefined false
                  eq_refl eq_refl) (js "x")).
Defined.

End PatchHandlerFacts.
